(** * Synchronized emulation driver (GameInstance): a shallow embedding

    The development follows the current [GameInstance] of
    [src/game_instance.cpp].  The header at hand declares an earlier state
    of the class; members it does not declare ([previous_buffer_second],
    [pixel_buffer_mode], the break-and-trace and rewind members, the SDL
    device) are typed from their use in the source.

    The emulation core (SameBoy), the SDL audio queue and the [double]
    arithmetic of the C++ runtime are outside the repository.  The core
    enters as the interface [Engine], the arithmetic as [FloatArith], and
    the device queue as an explicit record.  The mutex is a boolean of the
    instance state: a public operation is a critical section, the callbacks
    run with the mutex held, and the wait inside the input callback is the
    point where the driver thread gives the mutex up.  Members that none of
    the operations below reads (frame times, rumble, boot ROM settings) are
    left out of the state. *)

From Stdlib Require Import ZArith String Ascii Bool Lia Reals Lra.
From stdpp Require Import base list.
From Equations Require Import Equations.

Local Open Scope Z_scope.

(** ** Machine integers *)

Definition u8 (x : Z) : Z := x mod 2 ^ 8.
Definition u16 (x : Z) : Z := x mod 2 ^ 16.
Definition u32 (x : Z) : Z := x mod 2 ^ 32.
Definition size_t (x : Z) : Z := x mod 2 ^ 64.

(** Conversion of an [int] to [std::int16_t] (two's complement). *)
Definition int16 (x : Z) : Z := (x + 2 ^ 15) mod 2 ^ 16 - 2 ^ 15.

(** ** Video frame buffer *)

Inductive PixelBufferMode : Set :=
| PixelBufferSingle
| PixelBufferDouble
| PixelBufferDoubleBlend.

(** [sizeof(pixel_buffer) / sizeof(pixel_buffer[0])] for
    [std::vector<std::uint32_t> pixel_buffer[4]]. *)
Definition pixel_buffer_count : Z := 4.

(** [sizeof(std::uint32_t)]. *)
Definition sizeof_pixel : Z := 4.

Record FrameBufferSet : Type := {
  pixel_buffer : list (list Z);
  work_buffer : Z;
  previous_buffer : Z;
  previous_buffer_second : Z;
  pixel_buffer_mode : PixelBufferMode
}.

Definition set_pixel_buffer (v : list (list Z)) (fb : FrameBufferSet) :=
  {| pixel_buffer := v; work_buffer := work_buffer fb;
     previous_buffer := previous_buffer fb;
     previous_buffer_second := previous_buffer_second fb;
     pixel_buffer_mode := pixel_buffer_mode fb |}.

Definition set_indices (w p p2 : Z) (fb : FrameBufferSet) :=
  {| pixel_buffer := pixel_buffer fb; work_buffer := w;
     previous_buffer := p; previous_buffer_second := p2;
     pixel_buffer_mode := pixel_buffer_mode fb |}.

(** [pixel_buffer[i]]; an index outside the array is undefined behaviour in
    the source and reads as the empty vector here. *)
Definition buffer_at (fb : FrameBufferSet) (i : Z) : list Z :=
  default [] (pixel_buffer fb !! Z.to_nat i).

(** The three assignments of [on_vblank] that rotate the buffers. *)
Definition rotate_buffers (fb : FrameBufferSet) : FrameBufferSet :=
  set_indices (size_t (work_buffer fb + 1) mod pixel_buffer_count)
              (work_buffer fb)
              (previous_buffer fb) fb.

(** The per-buffer body of the loop of [update_pixel_buffer_size]: the
    buffer is replaced by [size] opaque black pixels and the three indices
    are reset. *)
Definition reset_buffer (size : Z) (fb : FrameBufferSet) (i : nat) :=
  set_indices 0 0 0
    (set_pixel_buffer
       (<[i := replicate (Z.to_nat size) 4278190080]> (pixel_buffer fb)) fb).

(** The frame buffer set of a freshly declared instance: four empty
    vectors, indices 0 (the member initialisers of the class). *)
Definition declared_buffers (m : PixelBufferMode) : FrameBufferSet :=
  {| pixel_buffer := [[]; []; []; []]; work_buffer := 0;
     previous_buffer := 0; previous_buffer_second := 0;
     pixel_buffer_mode := m |}.

(** *** Memory views *)

(** The four bytes of a 32-bit pixel in memory, lowest address first. *)
Definition pixel_bytes (p : Z) : list Z :=
  [Z.land p 255; Z.land (Z.shiftr p 8) 255;
   Z.land (Z.shiftr p 16) 255; Z.land (Z.shiftr p 24) 255].

(** The storage of a pixel vector, [reinterpret_cast<std::uint8_t *>(data())]. *)
Definition bytes_of_pixels (ps : list Z) : list Z :=
  concat (map pixel_bytes ps).

(** [std::memcpy(dst, src, bytes)] on byte-addressed memory. *)
Definition memcpy (dst src : list Z) (bytes : Z) : list Z :=
  take (Z.to_nat bytes) src ++ drop (Z.to_nat bytes) dst.

(** The byte loop of the [PixelBufferDoubleBlend] case:
    [for(q = 0; q < bytes; q++) a[q] = (unsigned(a[q]) + unsigned(b[q])) / 2],
    the store converting back to [std::uint8_t]. *)
Fixpoint blend_loop (count q : nat) (a b : list Z) : list Z :=
  match count with
  | O => a
  | S count' =>
      blend_loop count' (S q)
        (<[q := u8 ((default 0 (a !! q) + default 0 (b !! q)) / 2)]> a) b
  end.

(** [GameInstance::read_pixel_buffer], on the frame buffer set.
    [destination] is the caller's memory at the given address, byte by
    byte; [destination_length] counts 32-bit pixels.  The result is the
    returned flag and the caller's memory after the call. *)
Definition read_pixels (fb : FrameBufferSet)
    (destination : list Z) (destination_length : Z) : bool * list Z :=
  let required_length := Z.of_nat (length (buffer_at fb 0)) in
  let success := required_length =? destination_length in
  if success then
    let bytes := size_t (required_length * sizeof_pixel) in
    match pixel_buffer_mode fb with
    | PixelBufferSingle =>
        (success,
         memcpy destination
           (bytes_of_pixels (buffer_at fb (work_buffer fb))) bytes)
    | PixelBufferDouble =>
        (success,
         memcpy destination
           (bytes_of_pixels (buffer_at fb (previous_buffer fb))) bytes)
    | PixelBufferDoubleBlend =>
        let copied :=
          memcpy destination
            (bytes_of_pixels (buffer_at fb (previous_buffer fb))) bytes in
        (success,
         blend_loop (Z.to_nat bytes) 0 copied
           (bytes_of_pixels (buffer_at fb (previous_buffer_second fb))))
    end
  else (success, destination).

(** ** The emulation engine boundary *)

(** Register selectors of [gb_proxy.h], as far as the driver reads them. *)
Inductive sm83_register_t : Set :=
| SM83_REG_A | SM83_REG_B | SM83_REG_C | SM83_REG_D | SM83_REG_E
| SM83_REG_F | SM83_REG_HL | SM83_REG_SP | SM83_REG_PC.

(** [GB_sample_t]: one stereo frame of two signed 16-bit values. *)
Record GB_sample_t : Set := { left : Z; right : Z }.

(** [sizeof(GB_sample_t)] and [sizeof(std::int16_t)]. *)
Definition sizeof_sample : Z := 4.
Definition sizeof_int16 : Z := 2.

(** What the engine does during one [GB_run]: it writes pixels through the
    output pointer and calls the driver back; each callback sees the engine
    state of that moment and hands back the state it left, and the input
    callback also hands back a command string.  (The rumble and boot ROM
    callbacks touch members outside this model.) *)
Inductive GB_run_t (G : Type) : Type :=
| RunReturn (gb : G)
| RunPixel (slot offset : nat) (colour : Z) (k : GB_run_t G)
| RunVblank (gb : G) (k : G -> GB_run_t G)
| RunSample (gb : G) (sample : GB_sample_t) (k : G -> GB_run_t G)
| RunLog (gb : G) (text : string) (k : G -> GB_run_t G)
| RunInput (gb : G) (k : G -> string -> GB_run_t G).

Arguments RunReturn {G} gb.
Arguments RunPixel {G} slot offset colour k.
Arguments RunVblank {G} gb k.
Arguments RunSample {G} gb sample k.
Arguments RunLog {G} gb text k.
Arguments RunInput {G} gb k.

(** The entry points of the engine used by the driver.  The debugger
    entry points report through the log callback: they return the chunks of
    text they log.  [GB_set_pixels_output] receives the slot of
    [pixel_buffer] whose storage it is pointed at. *)
Class Engine : Type := {
  GB_gameboy_s : Type;
  GB_key_t : Type;
  get_gb_register : GB_gameboy_s -> sm83_register_t -> Z;
  get_gb_breakpoint_size : GB_gameboy_s -> nat;
  get_gb_breakpoint_address : GB_gameboy_s -> nat -> Z;
  GB_debugger_execute_command :
    GB_gameboy_s -> string -> GB_gameboy_s * list string;
  GB_cpu_disassemble : GB_gameboy_s -> Z -> Z -> list string;
  GB_rewind_pop : GB_gameboy_s -> GB_gameboy_s * bool;
  GB_run : GB_gameboy_s -> GB_run_t GB_gameboy_s;
  GB_set_pixels_output : GB_gameboy_s -> Z -> GB_gameboy_s;
  GB_set_key_state : GB_gameboy_s -> GB_key_t -> bool -> GB_gameboy_s;
  GB_get_screen_width : GB_gameboy_s -> Z;
  GB_get_screen_height : GB_gameboy_s -> Z;
  GB_CARRY_FLAG : Z;
  GB_HALF_CARRY_FLAG : Z;
  GB_SUBTRACT_FLAG : Z;
  GB_ZERO_FLAG : Z
}.

(** The [double] arithmetic of [set_volume] and [on_sample]:
    [volume_curve v] is
    [std::pow(100.0, v / 100.0) / 100.0 - 0.01 * (100.0 - v) / 100.0] and
    [scale_sample x s] is the [std::int16_t] left by [x *= s]. *)
Class FloatArith : Type := {
  double : Type;
  volume_curve : Z -> double;
  scale_sample : Z -> double -> Z
}.

(** ** Strings handed to the engine *)

(** [malloc_string] copies its argument into a fresh buffer. *)
Definition malloc_string (s : string) : string := s.

(** The digits [%x] prints. *)
Definition hex_digits : string := "0123456789abcdef".

Definition hex_digit (n : Z) : ascii :=
  default "f"%char (String.get (Z.to_nat n) hex_digits).

(** [%04x] applied to a 16-bit value. *)
Definition hex04 (v : Z) : string :=
  String (hex_digit (Z.land (Z.shiftr v 12) 15))
    (String (hex_digit (Z.land (Z.shiftr v 8) 15))
       (String (hex_digit (Z.land (Z.shiftr v 4) 15))
          (String (hex_digit (Z.land v 15)) EmptyString))).

Definition delete_command (address : Z) : string :=
  ("delete $" ++ hex04 address)%string.

Definition breakpoint_command (address : Z) : string :=
  ("breakpoint $" ++ hex04 address)%string.

(** ** The SDL audio device *)

(** The state SDL keeps for an opened device: the queued samples and the
    pause flag.  The instance stores the device id; the model stores the
    device state in its place. *)
Record SDL_AudioDevice : Set := {
  sdl_queue : list Z;
  sdl_pause_on : bool
}.

Definition SDL_GetQueuedAudioSize (dev : SDL_AudioDevice) : Z :=
  Z.of_nat (length (sdl_queue dev)) * sizeof_int16.

Definition SDL_PauseAudioDevice (dev : SDL_AudioDevice) (pause_on : bool) :=
  {| sdl_queue := sdl_queue dev; sdl_pause_on := pause_on |}.

Definition SDL_ClearQueuedAudio (dev : SDL_AudioDevice) :=
  {| sdl_queue := []; sdl_pause_on := sdl_pause_on dev |}.

Definition SDL_QueueAudio (dev : SDL_AudioDevice) (data : list Z) :=
  {| sdl_queue := sdl_queue dev ++ data; sdl_pause_on := sdl_pause_on dev |}.

(** ** Driver state *)

(** [GameInstance::BreakAndTraceResult], one trace snapshot. *)
Module BreakAndTraceResult.
Record t : Set := make {
  a : Z; b : Z; c : Z; d : Z; e : Z; f : Z; hl : Z; sp : Z; pc : Z;
  carry : bool; half_carry : bool; subtract : bool; zero : bool;
  step_over : bool;
  disassembly : string
}.
End BreakAndTraceResult.

(** An entry of [break_and_trace_breakpoints]:
    [std::tuple<address, step count, step over>]. *)
Definition BreakAndTraceEntry : Set := (Z * Z * bool)%type.

Definition entry_address (en : BreakAndTraceEntry) : Z := fst (fst en).

Record BreakAndTrace : Set := {
  current_break_and_trace_remaining : Z;
  current_break_and_trace_step_over : bool;
  break_and_trace_result : list BreakAndTraceResult.t;
  break_and_trace_breakpoints : list BreakAndTraceEntry
}.

Record PauseState : Set := {
  manual_paused : bool;
  bp_paused : bool;
  continue_text : option string;
  rewind_paused : bool;
  pause_zero_speed : bool
}.

Record LogState : Set := {
  log_buffer_retained : bool;
  log_buffer : string
}.

Record DriverState : Set := {
  loop_finishing : bool;
  vblank_hit : bool;
  frame_time_index : Z;
  turbo_mode_enabled : bool;
  mutex_locked : bool
}.

(** [sizeof(frame_times) / sizeof(frame_times[0])] for [float frame_times[30]]. *)
Definition fps_buffer_size : Z := 30.

Section Driver.

Context `{engine : Engine} `{floats : FloatArith}.

Record AudioPipeline : Type := {
  audio_enabled : bool;
  sample_buffer : list Z;
  volume : Z;
  volume_scale : double;
  force_mono : bool;
  sdl_audio_device : option SDL_AudioDevice;
  sdl_audio_buffer_size : Z
}.

Record InputState : Type := {
  rewinding : bool;
  should_rewind : bool;
  rapid_buttons : list GB_key_t;
  rapid_button_state : bool;
  rapid_button_frames : Z;
  rapid_button_switch_frames : Z
}.

Record GameInstance : Type := {
  gameboy : GB_gameboy_s;
  frames : FrameBufferSet;
  pause : PauseState;
  audio : AudioPipeline;
  trace : BreakAndTrace;
  input : InputState;
  logs : LogState;
  driver : DriverState
}.

(** *** Field updates *)

Definition set_gameboy (v : GB_gameboy_s) (st : GameInstance) :=
  {| gameboy := v; frames := frames st; pause := pause st; audio := audio st;
     trace := trace st; input := input st; logs := logs st;
     driver := driver st |}.

Definition set_frames (v : FrameBufferSet) (st : GameInstance) :=
  {| gameboy := gameboy st; frames := v; pause := pause st; audio := audio st;
     trace := trace st; input := input st; logs := logs st;
     driver := driver st |}.

Definition set_pause (v : PauseState) (st : GameInstance) :=
  {| gameboy := gameboy st; frames := frames st; pause := v; audio := audio st;
     trace := trace st; input := input st; logs := logs st;
     driver := driver st |}.

Definition set_audio (v : AudioPipeline) (st : GameInstance) :=
  {| gameboy := gameboy st; frames := frames st; pause := pause st; audio := v;
     trace := trace st; input := input st; logs := logs st;
     driver := driver st |}.

Definition set_trace (v : BreakAndTrace) (st : GameInstance) :=
  {| gameboy := gameboy st; frames := frames st; pause := pause st;
     audio := audio st; trace := v; input := input st; logs := logs st;
     driver := driver st |}.

Definition set_input (v : InputState) (st : GameInstance) :=
  {| gameboy := gameboy st; frames := frames st; pause := pause st;
     audio := audio st; trace := trace st; input := v; logs := logs st;
     driver := driver st |}.

Definition set_logs (v : LogState) (st : GameInstance) :=
  {| gameboy := gameboy st; frames := frames st; pause := pause st;
     audio := audio st; trace := trace st; input := input st; logs := v;
     driver := driver st |}.

Definition set_driver (v : DriverState) (st : GameInstance) :=
  {| gameboy := gameboy st; frames := frames st; pause := pause st;
     audio := audio st; trace := trace st; input := input st; logs := logs st;
     driver := v |}.

Definition set_bp_paused (v : bool) (st : GameInstance) :=
  set_pause {| manual_paused := manual_paused (pause st); bp_paused := v;
               continue_text := continue_text (pause st);
               rewind_paused := rewind_paused (pause st);
               pause_zero_speed := pause_zero_speed (pause st) |} st.

Definition set_continue_text (v : option string) (st : GameInstance) :=
  set_pause {| manual_paused := manual_paused (pause st);
               bp_paused := bp_paused (pause st);
               continue_text := v;
               rewind_paused := rewind_paused (pause st);
               pause_zero_speed := pause_zero_speed (pause st) |} st.

Definition set_rewind_paused (v : bool) (st : GameInstance) :=
  set_pause {| manual_paused := manual_paused (pause st);
               bp_paused := bp_paused (pause st);
               continue_text := continue_text (pause st);
               rewind_paused := v;
               pause_zero_speed := pause_zero_speed (pause st) |} st.

Definition set_sample_buffer (v : list Z) (st : GameInstance) :=
  set_audio {| audio_enabled := audio_enabled (audio st); sample_buffer := v;
               volume := volume (audio st);
               volume_scale := volume_scale (audio st);
               force_mono := force_mono (audio st);
               sdl_audio_device := sdl_audio_device (audio st);
               sdl_audio_buffer_size := sdl_audio_buffer_size (audio st) |} st.

Definition set_sdl_audio_device (v : option SDL_AudioDevice)
    (st : GameInstance) :=
  set_audio {| audio_enabled := audio_enabled (audio st);
               sample_buffer := sample_buffer (audio st);
               volume := volume (audio st);
               volume_scale := volume_scale (audio st);
               force_mono := force_mono (audio st);
               sdl_audio_device := v;
               sdl_audio_buffer_size := sdl_audio_buffer_size (audio st) |} st.

Definition set_volume_and_scale (v : Z) (s : double) (st : GameInstance) :=
  set_audio {| audio_enabled := audio_enabled (audio st);
               sample_buffer := sample_buffer (audio st);
               volume := v; volume_scale := s;
               force_mono := force_mono (audio st);
               sdl_audio_device := sdl_audio_device (audio st);
               sdl_audio_buffer_size := sdl_audio_buffer_size (audio st) |} st.

Definition set_remaining (v : Z) (st : GameInstance) :=
  set_trace
    {| current_break_and_trace_remaining := v;
       current_break_and_trace_step_over :=
         current_break_and_trace_step_over (trace st);
       break_and_trace_result := break_and_trace_result (trace st);
       break_and_trace_breakpoints := break_and_trace_breakpoints (trace st) |}
    st.

Definition set_step_over (v : bool) (st : GameInstance) :=
  set_trace
    {| current_break_and_trace_remaining :=
         current_break_and_trace_remaining (trace st);
       current_break_and_trace_step_over := v;
       break_and_trace_result := break_and_trace_result (trace st);
       break_and_trace_breakpoints := break_and_trace_breakpoints (trace st) |}
    st.

Definition set_result (v : list BreakAndTraceResult.t) (st : GameInstance) :=
  set_trace
    {| current_break_and_trace_remaining :=
         current_break_and_trace_remaining (trace st);
       current_break_and_trace_step_over :=
         current_break_and_trace_step_over (trace st);
       break_and_trace_result := v;
       break_and_trace_breakpoints := break_and_trace_breakpoints (trace st) |}
    st.

Definition set_entries (v : list BreakAndTraceEntry) (st : GameInstance) :=
  set_trace
    {| current_break_and_trace_remaining :=
         current_break_and_trace_remaining (trace st);
       current_break_and_trace_step_over :=
         current_break_and_trace_step_over (trace st);
       break_and_trace_result := break_and_trace_result (trace st);
       break_and_trace_breakpoints := v |}
    st.

Definition set_should_rewind (v : bool) (st : GameInstance) :=
  set_input {| rewinding := rewinding (input st); should_rewind := v;
               rapid_buttons := rapid_buttons (input st);
               rapid_button_state := rapid_button_state (input st);
               rapid_button_frames := rapid_button_frames (input st);
               rapid_button_switch_frames :=
                 rapid_button_switch_frames (input st) |} st.

Definition set_rapid_button_frames (v : Z) (st : GameInstance) :=
  set_input {| rewinding := rewinding (input st);
               should_rewind := should_rewind (input st);
               rapid_buttons := rapid_buttons (input st);
               rapid_button_state := rapid_button_state (input st);
               rapid_button_frames := v;
               rapid_button_switch_frames :=
                 rapid_button_switch_frames (input st) |} st.

Definition set_rapid_button_state (v : bool) (st : GameInstance) :=
  set_input {| rewinding := rewinding (input st);
               should_rewind := should_rewind (input st);
               rapid_buttons := rapid_buttons (input st);
               rapid_button_state := v;
               rapid_button_frames := rapid_button_frames (input st);
               rapid_button_switch_frames :=
                 rapid_button_switch_frames (input st) |} st.

Definition set_log_buffer_retained (v : bool) (st : GameInstance) :=
  set_logs {| log_buffer_retained := v; log_buffer := log_buffer (logs st) |} st.

Definition set_log_buffer (v : string) (st : GameInstance) :=
  set_logs {| log_buffer_retained := log_buffer_retained (logs st);
              log_buffer := v |} st.

Definition set_vblank_hit (v : bool) (st : GameInstance) :=
  set_driver {| loop_finishing := loop_finishing (driver st); vblank_hit := v;
                frame_time_index := frame_time_index (driver st);
                turbo_mode_enabled := turbo_mode_enabled (driver st);
                mutex_locked := mutex_locked (driver st) |} st.

Definition set_frame_time_index (v : Z) (st : GameInstance) :=
  set_driver {| loop_finishing := loop_finishing (driver st);
                vblank_hit := vblank_hit (driver st);
                frame_time_index := v;
                turbo_mode_enabled := turbo_mode_enabled (driver st);
                mutex_locked := mutex_locked (driver st) |} st.

Definition set_mutex_locked (v : bool) (st : GameInstance) :=
  set_driver {| loop_finishing := loop_finishing (driver st);
                vblank_hit := vblank_hit (driver st);
                frame_time_index := frame_time_index (driver st);
                turbo_mode_enabled := turbo_mode_enabled (driver st);
                mutex_locked := v |} st.

(** *** The mutex *)

(** [mutex.lock()]: available only while no thread holds the mutex (a
    caller blocks otherwise, and [try_lock] fails). *)
Definition mutex_lock (st : GameInstance) : option GameInstance :=
  if mutex_locked (driver st) then None else Some (set_mutex_locked true st).

Definition mutex_unlock (st : GameInstance) : GameInstance :=
  set_mutex_locked false st.

(** A body run between [mutex.lock()] and [mutex.unlock()]
    ([MAKE_SETTER] and the hand-written equivalents). *)
Definition critical (body : GameInstance -> GameInstance)
    (st : GameInstance) : option GameInstance :=
  match mutex_lock st with
  | Some st1 => Some (mutex_unlock (body st1))
  | None => None
  end.

(** *** Log capture and debugger commands *)

(** [on_log]: text is kept only while the buffer is retained (it goes to the
    console otherwise). *)
Definition on_log (text : string) (st : GameInstance) : GameInstance :=
  if log_buffer_retained (logs st)
  then set_log_buffer (log_buffer (logs st) ++ text)%string st
  else st.

Definition retain_logs (retain : bool) (st : GameInstance) : GameInstance :=
  set_log_buffer_retained retain st.

Definition clear_log_buffer (st : GameInstance) : string * GameInstance :=
  (log_buffer (logs st), set_log_buffer EmptyString st).

Definition log_all (chunks : list string) (st : GameInstance) : GameInstance :=
  foldl (fun s text => on_log text s) st chunks.

Definition execute_command_without_mutex (command : string)
    (st : GameInstance) : string * GameInstance :=
  let st := retain_logs true st in
  let '(gb, chunks) := GB_debugger_execute_command (gameboy st) command in
  let st := log_all chunks (set_gameboy gb st) in
  let st := retain_logs false st in
  clear_log_buffer st.

Definition disassemble_without_mutex (address count : Z)
    (st : GameInstance) : string * GameInstance :=
  let st := retain_logs true st in
  let st := log_all (GB_cpu_disassemble (gameboy st) address count) st in
  let st := retain_logs false st in
  clear_log_buffer st.

Definition get_breakpoints_without_mutex (st : GameInstance) : list Z :=
  map (get_gb_breakpoint_address (gameboy st))
      (seq 0 (get_gb_breakpoint_size (gameboy st))).

(** *** Audio *)

Definition unpause_sdl_audio (st : GameInstance) : GameInstance :=
  match sdl_audio_device (audio st) with
  | Some dev => set_sdl_audio_device (Some (SDL_PauseAudioDevice dev false)) st
  | None => st
  end.

Definition reset_audio (st : GameInstance) : GameInstance :=
  let st :=
    match sdl_audio_device (audio st) with
    | Some dev =>
        set_sdl_audio_device
          (Some (SDL_ClearQueuedAudio (SDL_PauseAudioDevice dev true))) st
    | None => st
    end in
  set_sample_buffer [] st.

(** The body of [set_volume]; the argument is an [int]. *)
Definition set_volume_body (new_volume : Z) (st : GameInstance) :=
  let v := Z.min 100 (Z.max 0 new_volume) in
  set_volume_and_scale v (volume_curve v) st.

Definition set_volume (new_volume : Z) (st : GameInstance) :=
  critical (set_volume_body new_volume) st.

Definition on_sample (sample : GB_sample_t) (st : GameInstance)
    : GameInstance :=
  if audio_enabled (audio st) then
    let au := audio st in
    let '(l, r) :=
      if (volume au <? 100) || force_mono au then
        let '(l, r) :=
          if force_mono au
          then let m := int16 ((left sample + right sample) ÷ 2) in (m, m)
          else (left sample, right sample) in
        if (volume au <? 100) && (volume au >=? 0)
        then (scale_sample l (volume_scale au), scale_sample r (volume_scale au))
        else (l, r)
      else (left sample, right sample) in
    match sdl_audio_device au with
    | Some dev =>
        let frames_queued := SDL_GetQueuedAudioSize dev / sizeof_sample in
        let buffer_size := sdl_audio_buffer_size au in
        let turbo_mode := turbo_mode_enabled (driver st) in
        let max_frames_queued := buffer_size * (if turbo_mode then 4 else 8) in
        if frames_queued >? max_frames_queued then
          if negb turbo_mode then reset_audio st else st
        else
          let st := set_sample_buffer (sample_buffer au ++ [l; r]) st in
          let required_buffered_frames :=
            if turbo_mode then 0
            else if frames_queued <? buffer_size * 2 then buffer_size * 4
                 else buffer_size in
          let actual_buffered_frames :=
            Z.of_nat (length (sample_buffer (audio st))) / 2 in
          if actual_buffered_frames >=? required_buffered_frames then
            let queued := SDL_QueueAudio dev (sample_buffer (audio st)) in
            unpause_sdl_audio
              (set_sample_buffer [] (set_sdl_audio_device (Some queued) st))
          else st
    | None => set_sample_buffer (sample_buffer au ++ [l; r]) st
    end
  else st.

(** *** Video *)

Definition assign_work_buffer (st : GameInstance) : GameInstance :=
  set_gameboy (GB_set_pixels_output (gameboy st) (work_buffer (frames st))) st.

Definition get_pixel_buffer_size_without_mutex (st : GameInstance) : Z :=
  u32 (GB_get_screen_width (gameboy st) * GB_get_screen_height (gameboy st)).

Definition update_pixel_buffer_size (st : GameInstance) : GameInstance :=
  foldl (fun s i =>
           assign_work_buffer
             (set_frames
                (reset_buffer (get_pixel_buffer_size_without_mutex s)
                   (frames s) i) s))
        st (seq 0 (Z.to_nat pixel_buffer_count)).

(** [on_vblank].  The busy wait on the clock that turbo mode adds at the
    top of the callback changes no member read elsewhere in this model. *)
Definition on_vblank (st : GameInstance) : GameInstance :=
  let st := set_frames (rotate_buffers (frames st)) st in
  let st := assign_work_buffer st in
  let st :=
    set_rapid_button_frames
      ((rapid_button_frames (input st) + 1)
         mod rapid_button_switch_frames (input st)) st in
  let st :=
    if rapid_button_frames (input st) =? 0 then
      let st := set_rapid_button_state (negb (rapid_button_state (input st))) st in
      foldl (fun s key =>
               set_gameboy
                 (GB_set_key_state (gameboy s) key
                    (rapid_button_state (input s))) s)
            st (rapid_buttons (input st))
    else st in
  let st := set_vblank_hit true st in
  set_should_rewind (rewinding (input st)) st.

Definition read_pixel_buffer (destination : list Z) (destination_length : Z)
    (st : GameInstance) : option (bool * list Z * GameInstance) :=
  match mutex_lock st with
  | Some st1 =>
      let '(success, written) :=
        read_pixels (frames st1) destination destination_length in
      Some (success, written, mutex_unlock st1)
  | None => None
  end.

(** *** Breakpoint handshake *)

(** What the input callback hands to the engine: a command, or nothing yet
    because the driver thread has released the mutex and waits. *)
Inductive InputReply : Set :=
| Resume (command : string)
| Wait.

(** The scan of [break_and_trace_breakpoints] for the program counter: the
    first entry at that address and the list with that entry erased. *)
Fixpoint find_entry (pc : Z) (entries : list BreakAndTraceEntry)
    : option (BreakAndTraceEntry * list BreakAndTraceEntry) :=
  match entries with
  | [] => None
  | en :: rest =>
      if pc =? entry_address en then Some (en, rest)
      else match find_entry pc rest with
           | Some (hit, rest') => Some (hit, en :: rest')
           | None => None
           end
  end.

(** [b.f & MASK] converted to [bool]. *)
Definition flag_set (flags mask : Z) : bool := negb (Z.land flags mask =? 0).

(** The record filled in after [break_and_trace_result.emplace_back()]. *)
Definition snapshot (gb : GB_gameboy_s) (over : bool) (text : string)
    : BreakAndTraceResult.t :=
  let flags := get_gb_register gb SM83_REG_F in
  {| BreakAndTraceResult.a := get_gb_register gb SM83_REG_A;
     BreakAndTraceResult.b := get_gb_register gb SM83_REG_B;
     BreakAndTraceResult.c := get_gb_register gb SM83_REG_C;
     BreakAndTraceResult.d := get_gb_register gb SM83_REG_D;
     BreakAndTraceResult.e := get_gb_register gb SM83_REG_E;
     BreakAndTraceResult.f := flags;
     BreakAndTraceResult.hl := get_gb_register gb SM83_REG_HL;
     BreakAndTraceResult.sp := get_gb_register gb SM83_REG_SP;
     BreakAndTraceResult.pc := get_gb_register gb SM83_REG_PC;
     BreakAndTraceResult.carry := flag_set flags GB_CARRY_FLAG;
     BreakAndTraceResult.half_carry := flag_set flags GB_HALF_CARRY_FLAG;
     BreakAndTraceResult.subtract := flag_set flags GB_SUBTRACT_FLAG;
     BreakAndTraceResult.zero := flag_set flags GB_ZERO_FLAG;
     BreakAndTraceResult.step_over := over;
     BreakAndTraceResult.disassembly := text |}.

(** First block of [on_input_requested]: an active session counts down and
    gives way to a registered breakpoint. *)
Definition count_down (st : GameInstance) : GameInstance * bool :=
  let remaining := current_break_and_trace_remaining (trace st) in
  if remaining >? 0 then
    let st := set_remaining (remaining - 1) st in
    let bnt := current_break_and_trace_remaining (trace st) >? 0 in
    if bnt then
      let pc := get_gb_register (gameboy st) SM83_REG_PC in
      (st, negb (existsb (fun i => i =? pc) (get_breakpoints_without_mutex st)))
    else (st, bnt)
  else (st, false).

(** Second block: a registered break-and-trace entry at the program counter
    opens a session and is consumed.  ([reserve] only sets the capacity of
    the result vector.) *)
Definition open_session (st : GameInstance) : GameInstance * bool :=
  let pc := get_gb_register (gameboy st) SM83_REG_PC in
  match find_entry pc (break_and_trace_breakpoints (trace st)) with
  | Some ((_, break_count, stepped_over), erased) =>
      let st := set_remaining break_count st in
      let st := set_step_over stepped_over st in
      let st := set_result [] st in
      let st :=
        snd (execute_command_without_mutex
               (malloc_string (delete_command pc)) st) in
      (set_entries erased st, true)
  | None => (st, false)
  end.

(** Third block: record the current state and keep stepping. *)
Definition record_and_step (st : GameInstance) : GameInstance * InputReply :=
  let gb := gameboy st in
  let over := current_break_and_trace_step_over (trace st) in
  let '(text, st) :=
    disassemble_without_mutex (get_gb_register gb SM83_REG_PC) 1 st in
  let st :=
    set_result (break_and_trace_result (trace st) ++ [snapshot gb over text])
      st in
  (st, Resume (malloc_string (if over then "next" else "step"))).

(** [on_input_requested] up to the point where it either returns a command
    or has marked the pause and released the mutex. *)
Definition on_input_requested (st : GameInstance)
    : GameInstance * InputReply :=
  let st := reset_audio st in
  let '(st, bnt) := count_down st in
  let '(st, bnt) := if negb bnt then open_session st else (st, bnt) in
  if bnt then record_and_step st
  else (mutex_unlock (set_bp_paused true st), Wait).

(** One trip through the waiting loop of [on_input_requested], taken when
    the mutex is free: termination of the driver wins, then a pending
    continue command; the command is consumed and the mutex stays held. *)
Definition poll_continue (st : GameInstance)
    : option (GameInstance * InputReply) :=
  match mutex_lock st with
  | Some st1 =>
      if loop_finishing (driver st1) then
        Some (set_continue_text None st1, Resume (malloc_string "continue"))
      else
        match continue_text (pause st1) with
        | Some text =>
            Some (set_continue_text None st1, Resume (malloc_string text))
        | None => Some (mutex_unlock st1, Wait)
        end
  | None => None
  end.

Definition is_paused_from_breakpoint (st : GameInstance) : bool :=
  bp_paused (pause st).

Definition unbreak (command : string) (st : GameInstance)
    : option GameInstance :=
  if is_paused_from_breakpoint st then
    critical (fun st => set_bp_paused false
                          (set_continue_text (Some command) st)) st
  else Some st.

(** *** Registering and removing breakpoints *)

(** The inner [for] of [remove_breakpoint]: erase the first entry at the
    address, if there is one. *)
Fixpoint erase_first (breakpoint : Z) (entries : list BreakAndTraceEntry)
    : option (list BreakAndTraceEntry) :=
  match entries with
  | [] => None
  | en :: rest =>
      if entry_address en =? breakpoint then Some rest
      else match erase_first breakpoint rest with
           | Some rest' => Some (en :: rest')
           | None => None
           end
  end.

(** The [while(true)] of [remove_breakpoint]: repeat the inner loop until a
    pass erases nothing. *)
Equations? erase_matching (breakpoint : Z) (entries : list BreakAndTraceEntry)
    : list BreakAndTraceEntry by wf (length entries) lt :=
  erase_matching breakpoint entries with Logic.inspect (erase_first breakpoint entries) := {
    | exist _ (Some erased) Herased => erase_matching breakpoint erased;
    | exist _ None _ => entries }.
Proof.
  clear erase_matching. revert erased Herased.
  induction entries as [|en rest IH]; intros erased; simpl; [discriminate|].
  destruct (entry_address en =? breakpoint).
  - intros [= <-]. apply Nat.lt_succ_diag_r.
  - destruct (erase_first breakpoint rest) as [rest'|]; [|discriminate].
    intros [= <-]. simpl. apply -> Nat.succ_lt_mono. now apply IH.
Qed.

Definition remove_breakpoint_body (breakpoint : Z) (st : GameInstance) :=
  let st :=
    snd (execute_command_without_mutex
           (malloc_string (delete_command breakpoint)) st) in
  set_entries
    (erase_matching breakpoint (break_and_trace_breakpoints (trace st))) st.

Definition remove_breakpoint (breakpoint : Z) (st : GameInstance) :=
  critical (remove_breakpoint_body breakpoint) st.

Definition break_and_trace_at (address n : Z) (over : bool)
    (st : GameInstance) : option GameInstance :=
  match remove_breakpoint address st with
  | Some st =>
      critical
        (fun st =>
           let st :=
             set_entries
               (break_and_trace_breakpoints (trace st) ++ [(address, n, over)])
               st in
           snd (execute_command_without_mutex
                  (malloc_string (breakpoint_command address)) st)) st
  | None => None
  end.

(** *** The driver loop *)

(** A pixel stored by the engine through its output pointer. *)
Definition write_pixel (slot offset : nat) (colour : Z) (st : GameInstance) :=
  set_frames
    (set_pixel_buffer
       (alter (fun buffer => <[offset := colour]> buffer) slot
          (pixel_buffer (frames st)))
       (frames st)) st.

(** How a [GB_run] ends for the driver thread: the call returns, or the
    thread is parked inside the input callback with the rest of the run
    still to come. *)
Inductive RunOutcome : Type :=
| Finished (st : GameInstance)
| Suspended (st : GameInstance)
            (k : GB_gameboy_s -> string -> GB_run_t GB_gameboy_s).

(** [GB_run] as the driver experiences it: every callback of the engine runs
    on the instance. *)
Fixpoint exec_run (run : GB_run_t GB_gameboy_s) (st : GameInstance)
    : RunOutcome :=
  match run with
  | RunReturn gb => Finished (set_gameboy gb st)
  | RunPixel slot offset colour k =>
      exec_run k (write_pixel slot offset colour st)
  | RunVblank gb k =>
      let st := on_vblank (set_gameboy gb st) in
      exec_run (k (gameboy st)) st
  | RunSample gb sample k =>
      let st := on_sample sample (set_gameboy gb st) in
      exec_run (k (gameboy st)) st
  | RunLog gb text k =>
      let st := on_log text (set_gameboy gb st) in
      exec_run (k (gameboy st)) st
  | RunInput gb k =>
      match on_input_requested (set_gameboy gb st) with
      | (st, Resume command) => exec_run (k (gameboy st) command) st
      | (st, Wait) => Suspended st k
      end
  end.

(** How one trip through [while(true)] of [start_game_loop] ends. *)
Inductive IterationOutcome : Type :=
| Continue (st : GameInstance)
| Exit (st : GameInstance)
| Blocked (st : GameInstance)
          (k : GB_gameboy_s -> string -> GB_run_t GB_gameboy_s).

(** The rewind block of the loop body. *)
Definition rewind_step (st : GameInstance) : GameInstance :=
  if should_rewind (input st) then
    let '(gb, _) := GB_rewind_pop (gameboy st) in
    let '(gb, popped) := GB_rewind_pop gb in
    let st := set_gameboy gb st in
    let st := if negb popped then set_rewind_paused true st else st in
    set_should_rewind false st
  else st.

(** Frame accounting after [GB_run].  The interval and the rate are
    [float]s read off the clock; the ring index and the flag are kept. *)
Definition account_frame (st : GameInstance) : GameInstance :=
  if vblank_hit (driver st) then
    let fps_index := frame_time_index (driver st) in
    let new_index := size_t (fps_index + 1) mod fps_buffer_size in
    set_vblank_hit false (set_frame_time_index new_index st)
  else st.

Definition finish_iteration (st : GameInstance) : IterationOutcome :=
  if loop_finishing (driver st) then Exit (mutex_unlock st)
  else Continue (mutex_unlock st).

Definition after_run (outcome : RunOutcome) : IterationOutcome :=
  match outcome with
  | Finished st => finish_iteration (account_frame st)
  | Suspended st k => Blocked st k
  end.

(** Whether the loop body advances the engine. *)
Definition may_run (st : GameInstance) : bool :=
  negb (manual_paused (pause st)) && negb (rewind_paused (pause st))
  && negb (pause_zero_speed (pause st)).

(** One trip through the [while(true)] of [start_game_loop], entered when
    [try_lock] succeeds.  [others] is what the other threads do to the
    instance while a paused driver sleeps with the mutex released.  (The
    contract check on [loop_running] precedes the loop and is not part of a
    trip.) *)
Definition loop_iteration (others : GameInstance -> GameInstance)
    (st : GameInstance) : option IterationOutcome :=
  match mutex_lock st with
  | Some st =>
      let st :=
        set_rewind_paused
          (rewind_paused (pause st) && rewinding (input st)) st in
      if may_run st then
        let st := rewind_step st in
        Some (after_run (exec_run (GB_run (gameboy st)) st))
      else
        let st := others (mutex_unlock st) in
        match mutex_lock st with
        | Some st => Some (finish_iteration st)
        | None => None
        end
  | None => None
  end.

(** The driver thread leaving the wait of the input callback and finishing
    the interrupted trip. *)
Definition resume_iteration
    (k : GB_gameboy_s -> string -> GB_run_t GB_gameboy_s)
    (st : GameInstance) : option IterationOutcome :=
  match poll_continue st with
  | Some (st, Resume command) =>
      Some (after_run (exec_run (k (gameboy st) command) st))
  | Some (st, Wait) => Some (Blocked st k)
  | None => None
  end.

(** *** Runs of the breakpoint handshake *)

(** The engine's breakpoint list as [get_breakpoints_without_mutex] reads it. *)
Definition gb_breakpoints (gb : GB_gameboy_s) : list Z :=
  map (get_gb_breakpoint_address gb) (seq 0 (get_gb_breakpoint_size gb)).

(** Successive input requests of the engine: [requests] lists the engine
    states at the requests.  The run stops at the first request the callback
    does not answer at once. *)
Fixpoint input_requests (requests : list GB_gameboy_s) (st : GameInstance)
    : GameInstance * list InputReply :=
  match requests with
  | [] => (st, [])
  | gb :: requests' =>
      match on_input_requested (set_gameboy gb st) with
      | (st1, Resume command) =>
          let '(st2, replies) := input_requests requests' st1 in
          (st2, Resume command :: replies)
      | (st1, Wait) => (st1, [Wait])
      end
  end.

(** The text captured from a sequence of log chunks, starting from an
    empty log buffer. *)
Definition logged_text (chunks : list string) : string :=
  foldl (fun buffer text => (buffer ++ text)%string) EmptyString chunks.

(** The snapshot of an engine state: its registers and flags, and the
    one-instruction disassembly at its own program counter. *)
Definition trace_snapshot (gb : GB_gameboy_s) (over : bool)
    : BreakAndTraceResult.t :=
  snapshot gb over
    (logged_text
       (GB_cpu_disassemble gb (get_gb_register gb SM83_REG_PC) 1)).

(** The command that keeps a session stepping. *)
Definition step_command (over : bool) : string :=
  if over then "next"%string else "step"%string.

End Driver.

(** ** What the driver relies on from the engine's debugger *)

(** Modelled from the spec: the command interpreter of the engine, which is
    not part of the repository.  The debugger command protocol is plain
    text, and [delete $XXXX] removes the breakpoint registered at that
    address from the breakpoint set queried through the engine.  Pointing
    the video output at a buffer does not change the screen dimensions. *)
Class EngineLaws `{engine : Engine} : Prop := {
  delete_command_spec : forall (gb : GB_gameboy_s) (address : Z),
    0 <= address < 2 ^ 16 ->
    gb_breakpoints (GB_debugger_execute_command gb (delete_command address)).1
    = List.filter (fun x => negb (x =? address)) (gb_breakpoints gb);
  pixels_output_keeps_screen : forall (gb : GB_gameboy_s) (slot : Z),
    GB_get_screen_width (GB_set_pixels_output gb slot) = GB_get_screen_width gb
    /\ GB_get_screen_height (GB_set_pixels_output gb slot)
       = GB_get_screen_height gb
}.

(** ** A small engine for concrete runs *)

Module Bench.

(** A machine with a program counter, a flag register, a breakpoint list, a
    rewind history of earlier program counters and a count of the
    instructions it has run. *)
Record machine : Set := {
  m_pc : Z;
  m_flags : Z;
  m_breakpoints : list Z;
  m_history : list Z;
  m_executed : nat;
  m_output : Z
}.

Definition with_pc (v : Z) (m : machine) :=
  {| m_pc := v; m_flags := m_flags m; m_breakpoints := m_breakpoints m;
     m_history := m_history m; m_executed := m_executed m;
     m_output := m_output m |}.

Definition with_breakpoints (v : list Z) (m : machine) :=
  {| m_pc := m_pc m; m_flags := m_flags m; m_breakpoints := v;
     m_history := m_history m; m_executed := m_executed m;
     m_output := m_output m |}.

Definition with_output (v : Z) (m : machine) :=
  {| m_pc := m_pc m; m_flags := m_flags m; m_breakpoints := m_breakpoints m;
     m_history := m_history m; m_executed := m_executed m;
     m_output := v |}.

Definition register (m : machine) (r : sm83_register_t) : Z :=
  match r with
  | SM83_REG_PC => m_pc m
  | SM83_REG_F => m_flags m
  | _ => 0
  end.

Fixpoint strip_prefix (p s : string) : option string :=
  match p with
  | EmptyString => Some s
  | String x p' =>
      match s with
      | String y s' => if Ascii.eqb x y then strip_prefix p' s' else None
      | EmptyString => None
      end
  end.

(** The place of a character among the digits, counted from [i]. *)
Fixpoint digit_index (x : ascii) (digits : string) (i : Z) : option Z :=
  match digits with
  | EmptyString => None
  | String y digits' =>
      if Ascii.eqb x y then Some i else digit_index x digits' (i + 1)
  end.

Definition hex_value (x : ascii) : option Z := digit_index x hex_digits 0.

Fixpoint parse_hex (acc : Z) (s : string) : option Z :=
  match s with
  | EmptyString => Some acc
  | String x s' =>
      match hex_value x with
      | Some v => parse_hex (acc * 16 + v) s'
      | None => None
      end
  end.

(** The two commands the driver composes; anything else is ignored. *)
Definition execute (m : machine) (command : string) : machine * list string :=
  match strip_prefix "delete $" command with
  | Some rest =>
      match parse_hex 0 rest with
      | Some address =>
          (with_breakpoints
             (List.filter (fun x => negb (x =? address)) (m_breakpoints m)) m,
           [])
      | None => (m, [])
      end
  | None =>
      match strip_prefix "breakpoint $" command with
      | Some rest =>
          match parse_hex 0 rest with
          | Some address =>
              (with_breakpoints (m_breakpoints m ++ [address]) m,
               ["Breakpoint set"%string])
          | None => (m, [])
          end
      | None => (m, [])
      end
  end.

Definition disassemble (m : machine) (address count : Z) : list string :=
  [("  ->" ++ hex04 address ++ ": NOP")%string].

Definition rewind_pop (m : machine) : machine * bool :=
  match m_history m with
  | [] => (m, false)
  | earlier :: rest =>
      ({| m_pc := earlier; m_flags := m_flags m;
          m_breakpoints := m_breakpoints m; m_history := rest;
          m_executed := m_executed m; m_output := m_output m |}, true)
  end.

(** One instruction: the program counter moves on, the old one joins the
    history. *)
Definition execute_instruction (m : machine) : machine :=
  {| m_pc := u16 (m_pc m + 1); m_flags := m_flags m;
     m_breakpoints := m_breakpoints m; m_history := m_pc m :: m_history m;
     m_executed := S (m_executed m); m_output := m_output m |}.

(** A run executes one instruction and reports a vblank. *)
Definition run (m : machine) : GB_run_t machine :=
  RunVblank (execute_instruction m) (fun m' => RunReturn m').

#[global] Instance engine : Engine := {|
  GB_gameboy_s := machine;
  GB_key_t := nat;
  get_gb_register := register;
  get_gb_breakpoint_size := fun m => length (m_breakpoints m);
  get_gb_breakpoint_address := fun m i => nth i (m_breakpoints m) 0;
  GB_debugger_execute_command := execute;
  GB_cpu_disassemble := disassemble;
  GB_rewind_pop := rewind_pop;
  GB_run := run;
  GB_set_pixels_output := fun m slot => with_output slot m;
  GB_set_key_state := fun m _ _ => m;
  GB_get_screen_width := fun _ => 2;
  GB_get_screen_height := fun _ => 1;
  GB_CARRY_FLAG := 16;
  GB_HALF_CARRY_FLAG := 32;
  GB_SUBTRACT_FLAG := 64;
  GB_ZERO_FLAG := 128
|}.

(** Sample scaling without rounding: the gain is kept in hundredths. *)
#[global] Instance floats : FloatArith := {|
  double := Z;
  volume_curve := fun v => v;
  scale_sample := fun x s => (x * s) ÷ 100
|}.

Definition machine0 : machine :=
  {| m_pc := 336; m_flags := 176; m_breakpoints := [];
     m_history := []; m_executed := 0; m_output := 0 |}.

(** An instance as the constructor leaves it, before
    [update_pixel_buffer_size]. *)
Definition declared : GameInstance :=
  {| gameboy := machine0;
     frames := declared_buffers PixelBufferSingle;
     pause := {| manual_paused := false; bp_paused := false;
                 continue_text := None; rewind_paused := false;
                 pause_zero_speed := false |};
     audio := {| audio_enabled := false; sample_buffer := [];
                 volume := 100; volume_scale := 100; force_mono := false;
                 sdl_audio_device := None; sdl_audio_buffer_size := 0 |};
     trace := {| current_break_and_trace_remaining := 0;
                 current_break_and_trace_step_over := false;
                 break_and_trace_result := [];
                 break_and_trace_breakpoints := [] |};
     input := {| rewinding := false; should_rewind := false;
                 rapid_buttons := []; rapid_button_state := false;
                 rapid_button_frames := 0; rapid_button_switch_frames := 4 |};
     logs := {| log_buffer_retained := false; log_buffer := EmptyString |};
     driver := {| loop_finishing := false; vblank_hit := false;
                  frame_time_index := 0; turbo_mode_enabled := false;
                  mutex_locked := false |} |}.

Definition fresh : GameInstance := update_pixel_buffer_size declared.

(** Two completed frames of known bytes behind a third being drawn. *)
Definition two_frames : FrameBufferSet :=
  {| pixel_buffer := [[0; 4278190335]; [4294967295; 4279242768];
                      [4278190080; 4278190080]; [4278190080; 4278190080]];
     work_buffer := 2; previous_buffer := 1; previous_buffer_second := 0;
     pixel_buffer_mode := PixelBufferDoubleBlend |}.

Definition blending : GameInstance := set_frames two_frames fresh.

(** The machine stopped at $0150 with three breakpoints set. *)
Definition stopped : machine := with_breakpoints [336; 400; 512] machine0.

(** An instance inside the input callback (the mutex is held) with
    break-and-trace requests at $0150 and $0190. *)
Definition tracked : GameInstance :=
  set_mutex_locked true
    (set_entries [(336, 3, false); (400, 2, true)]
       (set_gameboy stopped fresh)).

(** The same instance with a second, stale entry at $0150. *)
Definition duplicated : GameInstance :=
  set_entries [(336, 3, false); (400, 2, true); (336, 7, true)]
    (set_gameboy stopped fresh).

(** An instance whose driver thread waits at a breakpoint. *)
Definition paused : GameInstance := set_bp_paused true fresh.

Definition set_rewinding (v : bool) (st : GameInstance) : GameInstance :=
  set_input {| rewinding := v; should_rewind := should_rewind (input st);
               rapid_buttons := rapid_buttons (input st);
               rapid_button_state := rapid_button_state (input st);
               rapid_button_frames := rapid_button_frames (input st);
               rapid_button_switch_frames :=
                 rapid_button_switch_frames (input st) |} st.

Definition set_manual_paused (v : bool) (st : GameInstance) : GameInstance :=
  set_pause {| manual_paused := v; bp_paused := bp_paused (pause st);
               continue_text := continue_text (pause st);
               rewind_paused := rewind_paused (pause st);
               pause_zero_speed := pause_zero_speed (pause st) |} st.

(** A fresh instance, no history recorded, with the rewind input held and
    the rewind flagged at a vblank. *)
Definition rewinding_fresh : GameInstance :=
  set_should_rewind true (set_rewinding true fresh).

(** An instance with two instructions of history, the rewind flagged, and
    the emulation paused by the user. *)
Definition rewinding_paused : GameInstance :=
  set_manual_paused true
    (set_gameboy (execute_instruction (execute_instruction machine0))
       rewinding_fresh).

(** The machine at a later program counter, the breakpoint at $0150 gone. *)
Definition at_pc (address : Z) : machine :=
  with_pc address (with_breakpoints [400; 512] machine0).

End Bench.

(** ** Notions used in the statements *)

Section Reachability.

Context `{engine : Engine} `{floats : FloatArith}.

(** The three indices of two instances agree. *)
Definition same_indices (st st' : GameInstance) : Prop :=
  work_buffer (frames st') = work_buffer (frames st)
  /\ previous_buffer (frames st') = previous_buffer (frames st)
  /\ previous_buffer_second (frames st') = previous_buffer_second (frames st).

(** States of an instance as far as the buffer indices go: the constructor
    and [set_model] end with [update_pixel_buffer_size], the engine calls
    [on_vblank], and every other operation leaves the indices alone. *)
Inductive reachable : GameInstance -> Prop :=
| reach_sized st : reachable (update_pixel_buffer_size st)
| reach_vblank st : reachable st -> reachable (on_vblank st)
| reach_other st st' : reachable st -> same_indices st st' -> reachable st'.

(** Four buffers of one size whose byte size fits [std::size_t], and
    indices that select three of them. *)
Definition frames_shaped (fb : FrameBufferSet) : Prop :=
  length (pixel_buffer fb) = 4%nat
  /\ Forall (fun buffer => length buffer = length (buffer_at fb 0))
            (pixel_buffer fb)
  /\ Z.of_nat (length (buffer_at fb 0)) * sizeof_pixel < 2 ^ 64
  /\ 0 <= work_buffer fb < 4
  /\ 0 <= previous_buffer fb < 4
  /\ 0 <= previous_buffer_second fb < 4.

(** The frame a reader is given, in the words of the specification: the
    work buffer in [Single] mode, the last completed frame in [Double] mode,
    and in [DoubleBlend] mode the byte-wise integer average of the last two
    completed frames. *)
Definition presented_frame (fb : FrameBufferSet) : list Z :=
  match pixel_buffer_mode fb with
  | PixelBufferSingle => bytes_of_pixels (buffer_at fb (work_buffer fb))
  | PixelBufferDouble => bytes_of_pixels (buffer_at fb (previous_buffer fb))
  | PixelBufferDoubleBlend =>
      zip_with (fun x y => (x + y) / 2)
        (bytes_of_pixels (buffer_at fb (previous_buffer fb)))
        (bytes_of_pixels (buffer_at fb (previous_buffer_second fb)))
  end.

(** The log state between two captures. *)
Definition idle_logs : LogState :=
  {| log_buffer_retained := false; log_buffer := EmptyString |}.

(** Entries that [remove_breakpoint] keeps. *)
Definition kept (breakpoint : Z) (en : BreakAndTraceEntry) : bool :=
  negb (entry_address en =? breakpoint).

(** What [on_input_requested] does with a breakpoint hit outside a
    session: its second and third block and the pause, as they run when the
    first block leaves [bnt] false. *)
Definition breakpoint_hit (st : GameInstance) : GameInstance * InputReply :=
  let '(st, bnt) := open_session st in
  if bnt then record_and_step st
  else (mutex_unlock (set_bp_paused true st), Wait).

(** The instance as a run or a trip through the loop leaves it. *)
Definition run_state (outcome : RunOutcome) : GameInstance :=
  match outcome with Finished st => st | Suspended st _ => st end.

Definition iteration_state (outcome : IterationOutcome) : GameInstance :=
  match outcome with Continue st => st | Exit st => st | Blocked st _ => st end.

(** The engine state after the two pops of the rewind block, and whether
    the second pop succeeded. *)
Definition popped_twice (gb : GB_gameboy_s) : GB_gameboy_s * bool :=
  GB_rewind_pop (GB_rewind_pop gb).1.

(** The instance at the top of the loop body, once the mutex is taken and
    the rewind pause has been refreshed. *)
Definition loop_entry (st : GameInstance) : GameInstance :=
  let st := set_mutex_locked true st in
  set_rewind_paused (rewind_paused (pause st) && rewinding (input st)) st.

(** The program counter of an engine state is none of its breakpoints. *)
Definition off_breakpoints (gb : GB_gameboy_s) : Prop :=
  ~ In (get_gb_register gb SM83_REG_PC) (gb_breakpoints gb).

(** A Trace Snapshot of an engine state, in the words of the
    specification: the registers A, B, C, D, E, F, HL, SP and PC of that
    state, the four flag bits of its F, the stepOver flag of the session,
    and the one-instruction disassembly at the snapshot's own PC. *)
Definition records_state (over : bool) (gb : GB_gameboy_s)
    (r : BreakAndTraceResult.t) : Prop :=
  BreakAndTraceResult.a r = get_gb_register gb SM83_REG_A
  /\ BreakAndTraceResult.b r = get_gb_register gb SM83_REG_B
  /\ BreakAndTraceResult.c r = get_gb_register gb SM83_REG_C
  /\ BreakAndTraceResult.d r = get_gb_register gb SM83_REG_D
  /\ BreakAndTraceResult.e r = get_gb_register gb SM83_REG_E
  /\ BreakAndTraceResult.f r = get_gb_register gb SM83_REG_F
  /\ BreakAndTraceResult.hl r = get_gb_register gb SM83_REG_HL
  /\ BreakAndTraceResult.sp r = get_gb_register gb SM83_REG_SP
  /\ BreakAndTraceResult.pc r = get_gb_register gb SM83_REG_PC
  /\ (BreakAndTraceResult.carry r = true
      <-> Z.land (get_gb_register gb SM83_REG_F) GB_CARRY_FLAG <> 0)
  /\ (BreakAndTraceResult.half_carry r = true
      <-> Z.land (get_gb_register gb SM83_REG_F) GB_HALF_CARRY_FLAG <> 0)
  /\ (BreakAndTraceResult.subtract r = true
      <-> Z.land (get_gb_register gb SM83_REG_F) GB_SUBTRACT_FLAG <> 0)
  /\ (BreakAndTraceResult.zero r = true
      <-> Z.land (get_gb_register gb SM83_REG_F) GB_ZERO_FLAG <> 0)
  /\ BreakAndTraceResult.step_over r = over
  /\ BreakAndTraceResult.disassembly r
     = logged_text (GB_cpu_disassemble gb (BreakAndTraceResult.pc r) 1).

End Reachability.

(** The gain formula of [set_volume] read over the real numbers; the
    source evaluates it in [double] arithmetic. *)
Definition real_volume_curve (v : Z) : R :=
  (Rpower 100 (IZR v / 100) / 100 - 0.01 * (100 - IZR v) / 100)%R.

(** * Further operations of the driver *)

(** ** The colour callback *)

(** [rgb_encode].  The three [uint8_t] channels are promoted to [int]
    before they are shifted; the result is a [std::uint32_t]. *)
Definition rgb_encode (r g b : Z) : Z :=
  u32 (Z.lor (Z.lor (Z.lor 4278190080 (Z.shiftl r 16)) (Z.shiftl g 8))
         (Z.shiftl b 0)).

(** ** Further entry points of the engine *)

(** The sample rate setter, the call stack of the debugger, and the
    accessors the object viewer reads: CGB mode, a byte of the address
    space, and the object attribute memory ([GB_get_direct_access] with
    [GB_DIRECT_ACCESS_OAM]) as the bytes it points at. *)
Class EngineControl `{engine : Engine} : Type := {
  GB_set_sample_rate : GB_gameboy_s -> Z -> GB_gameboy_s;
  get_gb_backtrace_size : GB_gameboy_s -> nat;
  get_gb_backtrace_address : GB_gameboy_s -> nat -> Z;
  get_gb_get_cgb_mode : GB_gameboy_s -> bool;
  GB_read_memory : GB_gameboy_s -> Z -> Z;
  GB_get_direct_access_oam : GB_gameboy_s -> list Z
}.

(** [GameInstance::ObjectAttributeInfo], one element of [objects]. *)
Module ObjectAttribute.
Record t : Set := make {
  tileset_bank : Z;
  tile : Z;
  on_screen : bool;
  x : Z;
  y : Z;
  palette : Z;
  flip_x : bool;
  flip_y : bool;
  bg_window_over_obj : bool
}.
End ObjectAttribute.

(** [std::string] as the characters it holds, for access by index. *)
Definition characters (s : string) : list ascii := list_ascii_of_string s.

(** [std::string(str, pos, len)]. *)
Definition substring_at (s : list ascii) (pos len : nat) : string :=
  string_of_list_ascii (take len (drop pos s)).

(** The line feed character. *)
Definition newline : ascii := Ascii.ascii_of_nat 10.

(** The second loop of [get_backtrace]:
    [for(b = 0; b < backtrace_str_len && backtrace_line < bt_count; b++)],
    with [count] the iterations left before [b] reaches the length. *)
Fixpoint backtrace_lines (count b str_start backtrace_line bt_count : nat)
    (backtrace_str : list ascii) (backtrace : list (string * Z))
    : list (string * Z) :=
  match count with
  | O => backtrace
  | S count' =>
      if (backtrace_line <? bt_count)%nat then
        if Ascii.eqb (default Ascii.zero (backtrace_str !! b)) newline then
          backtrace_lines count' (S b) (S b) (S backtrace_line) bt_count
            backtrace_str
            (alter (fun entry =>
                      (substring_at backtrace_str str_start (b - str_start),
                       entry.2))
               backtrace_line backtrace)
        else
          backtrace_lines count' (S b) str_start backtrace_line bt_count
            backtrace_str backtrace
      else backtrace
  end.

(** [SDL_AudioSpec], as far as [set_up_sdl_audio] fills it in and reads it
    back: the frequency and the buffer size in sample frames.  (The format
    and the channel count it asks for are constants.) *)
Record SDL_AudioSpec : Set := {
  freq : Z;
  samples : Z
}.

Section FurtherOperations.

Context `{engine : Engine} `{floats : FloatArith} `{control : !EngineControl}.

(** *** Draining the sample buffer *)

Definition get_sample_buffer (st : GameInstance)
    : option (list Z * GameInstance) :=
  match mutex_lock st with
  | Some st1 =>
      let ret := sample_buffer (audio st1) in
      let st1 := set_sample_buffer [] st1 in
      Some (ret, mutex_unlock st1)
  | None => None
  end.

Definition transfer_sample_buffer (destination : list Z) (st : GameInstance)
    : option (list Z * GameInstance) :=
  match mutex_lock st with
  | Some st1 =>
      let destination := destination ++ sample_buffer (audio st1) in
      let st1 := set_sample_buffer [] st1 in
      Some (destination, mutex_unlock st1)
  | None => None
  end.

(** [set_audio_enabled].  The member [current_sample_rate], which only
    [set_up_sdl_audio] reads, is passed in and handed back beside the
    instance.  ([reserve] only sets the capacity of the sample buffer.) *)
Definition set_audio_enabled (enabled : bool) (sample_rate : Z)
    (st : GameInstance) (current_sample_rate : Z)
    : option (GameInstance * Z) :=
  match mutex_lock st with
  | Some st =>
      let st := set_sample_buffer [] st in
      let '(st, current_sample_rate) :=
        if enabled then
          match sdl_audio_device (audio st) with
          | None =>
              (set_gameboy (GB_set_sample_rate (gameboy st) sample_rate) st,
               sample_rate)
          | Some _ => (st, current_sample_rate)
          end
        else
          match sdl_audio_device (audio st) with
          | None => (st, 0)
          | Some _ => (st, current_sample_rate)
          end in
      let st := reset_audio st in
      let st :=
        set_audio {| audio_enabled := enabled;
                     sample_buffer := sample_buffer (audio st);
                     volume := volume (audio st);
                     volume_scale := volume_scale (audio st);
                     force_mono := force_mono (audio st);
                     sdl_audio_device := sdl_audio_device (audio st);
                     sdl_audio_buffer_size := sdl_audio_buffer_size (audio st) |}
          st in
      Some (mutex_unlock st, current_sample_rate)
  | None => None
  end.

(** [close_sdl_audio_device], with [current_sample_rate] passed beside the
    instance as for [set_audio_enabled]. *)
Definition close_sdl_audio_device (st : GameInstance)
    (current_sample_rate : Z) : GameInstance * Z :=
  match sdl_audio_device (audio st) with
  | Some _ => (set_sdl_audio_device None st, 0)
  | None => (st, current_sample_rate)
  end.

(** [set_up_sdl_audio].  [preferred] is the spec [SDL_GetAudioDeviceSpec]
    reports, and [SDL_OpenAudioDevice request allow_frequency allow_samples]
    is what SDL answers to the request with the two flags: nothing when no
    device could be opened (a zero id), or the opened device and the spec
    obtained.  The result is the returned flag, the instance and
    [current_sample_rate]. *)
Definition set_up_sdl_audio (sample_rate buffer_size : Z)
    (preferred : SDL_AudioSpec)
    (SDL_OpenAudioDevice :
       SDL_AudioSpec -> bool -> bool -> option (SDL_AudioDevice * SDL_AudioSpec))
    (st : GameInstance) (current_sample_rate : Z)
    : option (bool * GameInstance * Z) :=
  match mutex_lock st with
  | Some st =>
      let request := {| freq := freq preferred; samples := samples preferred |} in
      let '(request, allow_frequency) :=
        if negb (sample_rate =? 0)
        then ({| freq := sample_rate; samples := samples request |}, true)
        else (request, false) in
      let '(request, allow_samples) :=
        if negb (buffer_size =? 0)
        then ({| freq := freq request; samples := buffer_size |}, true)
        else (request, false) in
      match SDL_OpenAudioDevice request allow_frequency allow_samples with
      | Some (device, result) =>
          let '(st, _) := close_sdl_audio_device st current_sample_rate in
          let current_sample_rate := freq result in
          let st :=
            set_audio {| audio_enabled := audio_enabled (audio st);
                         sample_buffer := sample_buffer (audio st);
                         volume := volume (audio st);
                         volume_scale := volume_scale (audio st);
                         force_mono := force_mono (audio st);
                         sdl_audio_device := Some device;
                         sdl_audio_buffer_size := samples result |} st in
          let st :=
            set_gameboy (GB_set_sample_rate (gameboy st) current_sample_rate)
              st in
          Some (true, mutex_unlock st, current_sample_rate)
      | None => Some (false, mutex_unlock st, current_sample_rate)
      end
  | None => None
  end.

(** *** Debugger commands *)

(** [execute_command]: the command is copied and run inside the mutex;
    the result is the text captured from the log callback. *)
Definition execute_command (command : string) (st : GameInstance)
    : option (string * GameInstance) :=
  let cmd := malloc_string command in
  match mutex_lock st with
  | Some st =>
      let '(logs, st) := execute_command_without_mutex cmd st in
      Some (logs, mutex_unlock st)
  | None => None
  end.

(** *** Clearing the breakpoints *)

Definition remove_all_breakpoints (st : GameInstance) : option GameInstance :=
  critical
    (fun st =>
       let st :=
         snd (execute_command_without_mutex (malloc_string "delete") st) in
       set_entries [] st) st.

(** *** The call stack *)

(** [get_backtrace].  [resize] fills the vector with empty strings and
    zero addresses; the first loop stores the engine's entries 1 to
    [bt_count - 1] from the back, the program counter goes to the front,
    and the lines of the captured text are cut after the mutex is
    released. *)
Definition get_backtrace (st : GameInstance)
    : option (list (string * Z) * GameInstance) :=
  match mutex_lock st with
  | Some st =>
      let cmd := malloc_string "backtrace" in
      let '(backtrace_str, st) := execute_command_without_mutex cmd st in
      let bt_count := get_gb_backtrace_size (gameboy st) in
      let backtrace := replicate bt_count (EmptyString, 0) in
      let backtrace :=
        foldl (fun backtrace b =>
                 alter (fun entry =>
                          (entry.1, get_gb_backtrace_address (gameboy st) b))
                   (bt_count - b)%nat backtrace)
          backtrace (seq 1 (bt_count - 1)) in
      let backtrace :=
        if (0 <? bt_count)%nat then
          alter (fun entry =>
                   (entry.1, get_gb_register (gameboy st) SM83_REG_PC))
            0%nat backtrace
        else backtrace in
      let st := mutex_unlock st in
      let backtrace_str := characters backtrace_str in
      Some (backtrace_lines (length backtrace_str) 0 0 0 bt_count
              backtrace_str backtrace, st)
  | None => None
  end.

(** *** The object viewer *)

(** [byte != 0] after a mask. *)
Definition masked (byte mask : Z) : bool := negb (Z.land byte mask =? 0).

(** The body of the loop of [get_object_attribute_info_without_mutex] for
    object [i]; [oam_data] is read byte by byte, a byte outside the memory
    reading as 0. *)
Definition object_info (cgb_mode : bool) (sprite_height : Z)
    (oam_data : list Z) (i : nat) : ObjectAttribute.t :=
  let object q := default 0 (oam_data !! (i * 4 + q)%nat) in
  let flags := object 3%nat in
  let tileset_bank :=
    if cgb_mode then Z.shiftr (Z.land flags 8) 3 else 0 in
  let oam_tile := object 2%nat in
  let oam_tile :=
    if sprite_height =? 16 then u8 (Z.land oam_tile 254) else oam_tile in
  let oam_x := object 1%nat in
  let oam_y := object 0%nat in
  {| ObjectAttribute.tileset_bank := tileset_bank;
     ObjectAttribute.tile := oam_tile;
     ObjectAttribute.on_screen :=
       negb ((oam_x =? 0) || (oam_x >=? 168)
             || (oam_y + sprite_height <=? 16) || (oam_y >=? 160));
     ObjectAttribute.x := oam_x;
     ObjectAttribute.y := oam_y;
     ObjectAttribute.palette :=
       if cgb_mode then Z.land flags 7 else Z.shiftr (Z.land flags 16) 4;
     ObjectAttribute.flip_x := masked flags 32;
     ObjectAttribute.flip_y := masked flags 64;
     ObjectAttribute.bg_window_over_obj := masked flags 128 |}.

(** [get_object_attribute_info_without_mutex]; [objects] is the number of
    elements of [oam.objects]. *)
Definition get_object_attribute_info_without_mutex (objects : nat)
    (st : GameInstance) : list ObjectAttribute.t :=
  let cgb_mode := get_gb_get_cgb_mode (gameboy st) in
  let lcdc := u8 (GB_read_memory (gameboy st) 65344) in
  let sprite_height := if masked lcdc 4 then 16 else 8 in
  let oam_data := GB_get_direct_access_oam (gameboy st) in
  map (object_info cgb_mode sprite_height oam_data) (seq 0 objects).

End FurtherOperations.

(** ** Rapid-fire buttons *)

Module RapidFire.

Section RapidFire.

(** [GB_key_t] is an enumeration; its values are compared with [==]. *)
Context `{engine : Engine} `{floats : FloatArith} `{!EqDecision GB_key_t}.

Definition set_rapid_buttons (v : list GB_key_t) (st : GameInstance) :=
  set_input {| rewinding := rewinding (input st);
               should_rewind := should_rewind (input st);
               rapid_buttons := v;
               rapid_button_state := rapid_button_state (input st);
               rapid_button_frames := rapid_button_frames (input st);
               rapid_button_switch_frames :=
                 rapid_button_switch_frames (input st) |} st.

(** The [for] loop of [set_rapid_button_state]: it stops at the first
    element equal to the button, which is erased on a release; the result
    is [found] and the vector. *)
Fixpoint find_button (button : GB_key_t) (pressed : bool)
    (buttons : list GB_key_t) : bool * list GB_key_t :=
  match buttons with
  | [] => (false, [])
  | key :: rest =>
      if bool_decide (key = button) then
        (true, if negb pressed then rest else key :: rest)
      else
        let '(found, rest') := find_button button pressed rest in
        (found, key :: rest')
  end.

Definition set_rapid_button_state (button : GB_key_t) (pressed : bool)
    (st : GameInstance) : option GameInstance :=
  critical
    (fun st =>
       let '(found, buttons) :=
         find_button button pressed (rapid_buttons (input st)) in
       let buttons :=
         if negb found && pressed then buttons ++ [button] else buttons in
       let st := set_rapid_buttons buttons st in
       set_gameboy
         (GB_set_key_state (gameboy st) button
            (if pressed then rapid_button_state (input st) else false)) st)
    st.

End RapidFire.

End RapidFire.

(** ** Engines for the concrete runs of the further operations *)

(** The small engine has no call stack and no object memory of its own:
    its rewind history stands in for the stack, and the object memory
    holds two objects. *)
#[global] Instance bench_control : @EngineControl Bench.engine := {|
  GB_set_sample_rate := fun m _ => m;
  get_gb_backtrace_size := fun m => S (length (Bench.m_history m));
  get_gb_backtrace_address := fun m b => nth b (0 :: Bench.m_history m) 0;
  get_gb_get_cgb_mode := fun _ => true;
  GB_read_memory := fun _ address => if address =? 65344 then 4 else 0;
  GB_get_direct_access_oam := fun _ => [16; 8; 3; 41; 0; 0; 0; 0]
|}.

(** The small engine with a debugger that answers [backtrace]. *)
Module Calls.

Definition execute (m : Bench.machine) (command : string)
    : Bench.machine * list string :=
  if String.eqb command "backtrace"
  then (m, ["  1. main"%string; String newline "  0. "%string;
            ("start" ++ String newline EmptyString)%string])
  else Bench.execute m command.

#[local] Instance engine : Engine := {|
  GB_gameboy_s := Bench.machine;
  GB_key_t := nat;
  get_gb_register := Bench.register;
  get_gb_breakpoint_size := fun m => length (Bench.m_breakpoints m);
  get_gb_breakpoint_address := fun m i => nth i (Bench.m_breakpoints m) 0;
  GB_debugger_execute_command := execute;
  GB_cpu_disassemble := Bench.disassemble;
  GB_rewind_pop := Bench.rewind_pop;
  GB_run := Bench.run;
  GB_set_pixels_output := fun m slot => Bench.with_output slot m;
  GB_set_key_state := fun m _ _ => m;
  GB_get_screen_width := fun _ => 2;
  GB_get_screen_height := fun _ => 1;
  GB_CARRY_FLAG := 16;
  GB_HALF_CARRY_FLAG := 32;
  GB_SUBTRACT_FLAG := 64;
  GB_ZERO_FLAG := 128
|}.

#[local] Instance control : EngineControl := {|
  GB_set_sample_rate := fun m _ => m;
  get_gb_backtrace_size := fun m => S (length (Bench.m_history m));
  get_gb_backtrace_address := fun m b => nth b (0 :: Bench.m_history m) 0;
  get_gb_get_cgb_mode := fun _ => true;
  GB_read_memory := fun _ address => if address =? 65344 then 4 else 0;
  GB_get_direct_access_oam := fun _ => [16; 8; 3; 41; 0; 0; 0; 0]
|}.

(** An instance on this engine, one call deep: the machine is at $0151
    and was called from $0150. *)
Definition called : GameInstance :=
  {| gameboy := Bench.execute_instruction Bench.machine0;
     frames := declared_buffers PixelBufferSingle;
     pause := {| manual_paused := false; bp_paused := false;
                 continue_text := None; rewind_paused := false;
                 pause_zero_speed := false |};
     audio := {| audio_enabled := false; sample_buffer := [];
                 volume := 100; volume_scale := 100; force_mono := false;
                 sdl_audio_device := None; sdl_audio_buffer_size := 0 |};
     trace := {| current_break_and_trace_remaining := 0;
                 current_break_and_trace_step_over := false;
                 break_and_trace_result := [];
                 break_and_trace_breakpoints := [] |};
     input := {| rewinding := false; should_rewind := false;
                 rapid_buttons := []; rapid_button_state := false;
                 rapid_button_frames := 0; rapid_button_switch_frames := 4 |};
     logs := {| log_buffer_retained := false; log_buffer := EmptyString |};
     driver := {| loop_finishing := false; vblank_hit := false;
                  frame_time_index := 0; turbo_mode_enabled := false;
                  mutex_locked := false |} |}.

End Calls.

(** ** Notions used in the further properties *)

Section FurtherNotions.

Context `{engine : Engine} `{floats : FloatArith}.

(** The pair [on_sample] makes of a sample before it stores it: the mono
    downmix and the volume scaling, as the callback applies them. *)
Definition mixed_sample (au : AudioPipeline) (sample : GB_sample_t) : Z * Z :=
  if (volume au <? 100) || force_mono au then
    let '(l, r) :=
      if force_mono au
      then let m := int16 ((left sample + right sample) ÷ 2) in (m, m)
      else (left sample, right sample) in
    if (volume au <? 100) && (volume au >=? 0)
    then (scale_sample l (volume_scale au), scale_sample r (volume_scale au))
    else (l, r)
  else (left sample, right sample).

(** The samples the instance holds for playback, oldest first: the queue
    of the device, if there is one, and behind it the sample buffer. *)
Definition pending_samples (au : AudioPipeline) : list Z :=
  match sdl_audio_device au with
  | Some dev => sdl_queue dev
  | None => []
  end ++ sample_buffer au.

(** The device queue is not over the limit [on_sample] allows. *)
Definition queue_within_limit (st : GameInstance) : Prop :=
  forall dev, sdl_audio_device (audio st) = Some dev ->
    SDL_GetQueuedAudioSize dev / sizeof_sample
    <= sdl_audio_buffer_size (audio st)
       * (if turbo_mode_enabled (driver st) then 4 else 8).

(** The stored values of a sequence of samples. *)
Definition mixed_samples (au : AudioPipeline) (samples : list GB_sample_t)
    : list Z :=
  flat_map (fun sample => [(mixed_sample au sample).1;
                           (mixed_sample au sample).2]) samples.

(** The text of lines, each ended by a line feed. *)
Definition joined_lines (lines : list string) : string :=
  foldr (fun line text => (line ++ String newline text)%string)
        EmptyString lines.

(** A string without a line feed. *)
Definition single_line (line : string) : Prop :=
  ~ In newline (characters line).

End FurtherNotions.

(** *** States of the audio path *)

Section AudioReachability.

Context `{engine : Engine} `{floats : FloatArith} `{control : !EngineControl}.

(** Two instances agree on the members that route the audio: the flag, the
    buffer size, and whether there is a device and what its queue holds. *)
Definition same_audio_route (st st' : GameInstance) : Prop :=
  audio_enabled (audio st') = audio_enabled (audio st)
  /\ sdl_audio_buffer_size (audio st') = sdl_audio_buffer_size (audio st)
  /\ option_map sdl_queue (sdl_audio_device (audio st'))
     = option_map sdl_queue (sdl_audio_device (audio st)).

(** States of an instance as far as the audio path goes.  The class
    declares [audio_enabled = false] and an empty [sdl_audio_device]; the
    flag is written by [set_audio_enabled] only, the device and the buffer
    size by [set_up_sdl_audio] and [close_sdl_audio_device] only, and the
    queue of the device by [on_sample] and [reset_audio] on the side of
    the instance and by the playback of SDL, which takes samples off its
    front.  SDL opens a device with an empty queue and reports the buffer
    size as an unsigned number.  Every other operation leaves these members
    alone. *)
Inductive audio_reachable : GameInstance -> Prop :=
| reach_constructed st :
    audio_enabled (audio st) = false ->
    sdl_audio_device (audio st) = None ->
    audio_reachable st
| reach_on_sample st sample :
    audio_reachable st -> audio_reachable (on_sample sample st)
| reach_reset_audio st :
    audio_reachable st -> audio_reachable (reset_audio st)
| reach_set_audio_enabled st enabled sample_rate rate st' rate' :
    audio_reachable st ->
    set_audio_enabled enabled sample_rate st rate = Some (st', rate') ->
    audio_reachable st'
| reach_set_up_sdl_audio st sample_rate buffer_size preferred open rate
    ok st' rate' :
    audio_reachable st ->
    (forall request allow_frequency allow_samples device result,
        open request allow_frequency allow_samples = Some (device, result) ->
        sdl_queue device = [] /\ 0 <= samples result) ->
    set_up_sdl_audio sample_rate buffer_size preferred open st rate
    = Some (ok, st', rate') ->
    audio_reachable st'
| reach_close_sdl_audio_device st rate :
    audio_reachable st ->
    audio_reachable (close_sdl_audio_device st rate).1
| reach_playback st dev played :
    audio_reachable st ->
    sdl_audio_device (audio st) = Some dev ->
    audio_reachable
      (set_sdl_audio_device
         (Some {| sdl_queue := drop played (sdl_queue dev);
                  sdl_pause_on := sdl_pause_on dev |}) st)
| reach_same_route st st' :
    audio_reachable st -> same_audio_route st st' -> audio_reachable st'.

(** What holds of the audio path in every such state: with audio switched
    off the queue of the device is empty, and the buffer size that goes with
    a device is not negative. *)
Definition audio_settled (st : GameInstance) : Prop :=
  (audio_enabled (audio st) = false ->
   forall dev, sdl_audio_device (audio st) = Some dev -> sdl_queue dev = [])
  /\ (forall dev, sdl_audio_device (audio st) = Some dev ->
      0 <= sdl_audio_buffer_size (audio st)).

End AudioReachability.

(** ** Further states for concrete runs *)

Module Scenes.

(** Audio switched on with a device attached: one frame in its queue, one
    in the sample buffer, the buffer size being two frames. *)
Definition playing : GameInstance :=
  set_audio
    {| audio_enabled := true; sample_buffer := [5; 6];
       volume := 100; volume_scale := 100; force_mono := false;
       sdl_audio_device :=
         Some {| sdl_queue := [1; 2]; sdl_pause_on := false |};
       sdl_audio_buffer_size := 2 |} Bench.fresh.

(** Audio switched on without a device, the mono downmix requested. *)
Definition mono : GameInstance :=
  set_audio
    {| audio_enabled := true; sample_buffer := [5; 6];
       volume := 100; volume_scale := 100; force_mono := true;
       sdl_audio_device := None; sdl_audio_buffer_size := 0 |} Bench.fresh.

(** SDL for the concrete runs: every request is granted as asked (the
    buffer size as the 16-bit number SDL reports), with a device that
    starts paused and with nothing queued. *)
Definition open_device (request : SDL_AudioSpec) (_ _ : bool)
    : option (SDL_AudioDevice * SDL_AudioSpec) :=
  Some ({| sdl_queue := []; sdl_pause_on := true |},
        {| freq := freq request; samples := u16 (samples request) |}).

(** A fresh instance after [set_up_sdl_audio(44100, 2)]. *)
Definition wired : GameInstance :=
  match set_up_sdl_audio 44100 2 {| freq := 48000; samples := 1024 |}
          open_device Bench.fresh 0 with
  | Some (_, st, _) => st
  | None => Bench.fresh
  end.

(** The same after [set_audio_enabled(true)]. *)
Definition sounding : GameInstance :=
  match set_audio_enabled true 44100 wired 44100 with
  | Some (st, _) => st
  | None => wired
  end.

(** Eighteen samples later, none of them played yet: the queue of the
    device holds eighteen frames, over the limit of sixteen. *)
Definition saturated : GameInstance :=
  Nat.iter 18 (on_sample {| left := 1; right := 2 |}) sounding.

(** Three samples of the engine. *)
Definition samples : list GB_sample_t :=
  [{| left := 10; right := -20 |}; {| left := 32767; right := 32767 |};
   {| left := -32768; right := -5 |}].

(** An instance inside the input callback, the machine stopped at $0150
    on a plain breakpoint: no break-and-trace request is registered. *)
Definition stopped_plain : GameInstance :=
  set_mutex_locked true (set_gameboy Bench.stopped Bench.fresh).

(** An instance inside the input callback, the machine stopped at $0150,
    with one break-and-trace request there for five steps; the engine has
    breakpoints at $0150, $0190 and $0200. *)
Definition long_trace : GameInstance :=
  set_mutex_locked true
    (set_entries [(336, 5, false)] (set_gameboy Bench.stopped Bench.fresh)).

(** The same after the requests at $0150, $0151 and, on a breakpoint,
    $0200. *)
Definition interrupted : GameInstance :=
  (input_requests [Bench.stopped; Bench.at_pc 337; Bench.at_pc 512]
     long_trace).1.

(** And after [unbreak] and the poll of the driver thread that takes the
    command. *)
Definition continued : GameInstance :=
  match unbreak "step" interrupted with
  | Some st =>
      match poll_continue st with
      | Some (st', _) => st'
      | None => st
      end
  | None => interrupted
  end.

(** An instance whose driver waits at a breakpoint while termination has
    been requested and a command is still pending. *)
Definition finishing : GameInstance :=
  set_driver {| loop_finishing := true; vblank_hit := false;
                frame_time_index := 0; turbo_mode_enabled := false;
                mutex_locked := false |}
    (set_continue_text (Some "step"%string) Bench.paused).

End Scenes.

(** * Properties *)

Section FieldLemmas.

Context `{engine : Engine} `{floats : FloatArith}.

Lemma unlock_lock (st : GameInstance) :
  mutex_locked (driver st) = false ->
  mutex_unlock (set_mutex_locked true st) = st.
Proof.
  destruct st as [g fr p au t i l [fin vb idx tm mx]]; simpl.
  intros ->. reflexivity.
Qed.

Lemma critical_free (body : GameInstance -> GameInstance) (st : GameInstance) :
  mutex_locked (driver st) = false ->
  critical body st = Some (mutex_unlock (body (set_mutex_locked true st))).
Proof. unfold critical, mutex_lock. intros ->. reflexivity. Qed.

(** The rapid-fire loop of [on_vblank] only talks to the engine. *)
Lemma key_states_only_engine (keys : list GB_key_t) (st : GameInstance) :
  exists gb,
    foldl (fun s key =>
             set_gameboy
               (GB_set_key_state (gameboy s) key (rapid_button_state (input s)))
               s) st keys
    = set_gameboy gb st.
Proof.
  revert st. induction keys as [|key keys IH]; intros st; simpl.
  - exists (gameboy st). destruct st; reflexivity.
  - destruct (IH (set_gameboy
                    (GB_set_key_state (gameboy st) key
                       (rapid_button_state (input st))) st)) as [gb ->].
    exists gb. reflexivity.
Qed.

Lemma frames_on_vblank (st : GameInstance) :
  frames (on_vblank st) = rotate_buffers (frames st).
Proof.
  unfold on_vblank. cbn -[rotate_buffers foldl Z.modulo].
  match goal with |- context [if ?c then _ else _] => destruct c end.
  - match goal with |- context [foldl ?f ?s ?l] =>
      destruct (key_states_only_engine l s) as [gb Hgb] end.
    cbn -[rotate_buffers foldl Z.modulo] in Hgb |- *.
    rewrite Hgb. reflexivity.
  - reflexivity.
Qed.

Lemma indices_after_update (st : GameInstance) :
  work_buffer (frames (update_pixel_buffer_size st)) = 0
  /\ previous_buffer (frames (update_pixel_buffer_size st)) = 0
  /\ previous_buffer_second (frames (update_pixel_buffer_size st)) = 0.
Proof. repeat split. Qed.

Lemma size_t_mod_4 (x : Z) : size_t x mod 4 = x mod 4.
Proof.
  unfold size_t. apply Z.mod_mod_divide.
  exists (2 ^ 62). reflexivity.
Qed.

End FieldLemmas.

(** ** The bench engine keeps the debugger's contract *)

Section BenchLaws.

Lemma bench_breakpoints (m : Bench.machine) :
  gb_breakpoints m = Bench.m_breakpoints m.
Proof.
  unfold gb_breakpoints. simpl.
  induction (Bench.m_breakpoints m) as [|x l IH]; simpl; [reflexivity|].
  f_equal. rewrite <- seq_shift, map_map. exact IH.
Qed.

Lemma nibble_range (v : Z) : 0 <= Z.land v 15 < 16.
Proof.
  change 15 with (Z.ones 4). rewrite Z.land_ones by lia.
  apply Z.mod_pos_bound. lia.
Qed.

Lemma hex_digit_value (n : Z) :
  0 <= n < 16 -> Bench.hex_value (hex_digit n) = Some n.
Proof.
  intros Hn. rewrite <- (Z2Nat.id n) by lia.
  assert (Z.to_nat n < 16)%nat as Hk by lia.
  generalize dependent (Z.to_nat n). clear Hn n. intros k Hk.
  do 16 (destruct k as [|k]; [reflexivity|]). lia.
Qed.

Lemma parse_hex04 (address : Z) :
  0 <= address < 2 ^ 16 -> Bench.parse_hex 0 (hex04 address) = Some address.
Proof.
  intros Haddr. unfold hex04. cbn [Bench.parse_hex].
  rewrite !hex_digit_value by apply nibble_range.
  f_equal. change 15 with (Z.ones 4).
  rewrite !Z.land_ones, !Z.shiftr_div_pow2 by lia.
  change (2 ^ 4) with 16. change (2 ^ 8) with 256.
  change (2 ^ 12) with 4096. change (2 ^ 16) with 65536 in Haddr.
  Z.div_mod_to_equations. lia.
Qed.

#[global] Instance bench_laws : EngineLaws.
Proof.
  constructor; [intros gb address Haddr | intros gb slot].
  - rewrite !bench_breakpoints.
    change (GB_debugger_execute_command gb (delete_command address))
      with (Bench.execute gb (delete_command address)).
    unfold Bench.execute.
    change (Bench.strip_prefix "delete $" (delete_command address))
      with (Some (hex04 address)).
    cbv beta iota. rewrite parse_hex04 by exact Haddr. reflexivity.
  - split; reflexivity.
Qed.

End BenchLaws.

(** ** Frame buffer memory *)

Section FrameMemory.

Lemma byte_range (p : Z) : 0 <= Z.land p 255 < 256.
Proof.
  change 255 with (Z.ones 8). rewrite Z.land_ones by lia.
  apply Z.mod_pos_bound. lia.
Qed.

Lemma pixel_bytes_range (p : Z) : Forall (fun x => 0 <= x < 256) (pixel_bytes p).
Proof. unfold pixel_bytes. repeat constructor; apply byte_range. Qed.

Lemma bytes_of_pixels_range (ps : list Z) :
  Forall (fun x => 0 <= x < 256) (bytes_of_pixels ps).
Proof.
  unfold bytes_of_pixels. induction ps as [|p ps IH].
  - constructor.
  - change (concat (map pixel_bytes (p :: ps)))
      with (pixel_bytes p ++ concat (map pixel_bytes ps)).
    apply Forall_app_2; [apply pixel_bytes_range | exact IH].
Qed.

Lemma bytes_of_pixels_length (ps : list Z) :
  length (bytes_of_pixels ps) = (4 * length ps)%nat.
Proof.
  unfold bytes_of_pixels. induction ps as [|p ps IH]; simpl; [reflexivity|].
  rewrite IH. lia.
Qed.

Lemma blend_loop_length (count q : nat) (a b : list Z) :
  length (blend_loop count q a b) = length a.
Proof.
  revert q a. induction count as [|count IH]; intros q a; simpl.
  - reflexivity.
  - rewrite IH. apply length_insert.
Qed.

(** Bytes outside the range of the loop are left alone. *)
Lemma blend_loop_outside (count q i : nat) (a b : list Z) :
  (i < q \/ q + count <= i)%nat ->
  blend_loop count q a b !! i = a !! i.
Proof.
  revert q a. induction count as [|count IH]; intros q a Hi; simpl.
  - reflexivity.
  - rewrite IH by lia. apply list_lookup_insert_ne. lia.
Qed.

(** Bytes inside the range are stored once, from the bytes read at that
    index. *)
Lemma blend_loop_inside (count q i : nat) (a b : list Z) :
  (q <= i < q + count)%nat -> (i < length a)%nat ->
  blend_loop count q a b !! i
  = Some (u8 ((default 0 (a !! i) + default 0 (b !! i)) / 2)).
Proof.
  revert q a. induction count as [|count IH]; intros q a Hi Hlen; simpl.
  - lia.
  - destruct (decide (i = q)) as [->|Hne].
    + rewrite blend_loop_outside by lia.
      apply list_lookup_insert_eq. exact Hlen.
    + rewrite IH by (rewrite ?length_insert; lia).
      rewrite list_lookup_insert_ne by lia. reflexivity.
Qed.

Lemma average_is_byte (x y : Z) :
  0 <= x < 256 -> 0 <= y < 256 -> u8 ((x + y) / 2) = (x + y) / 2.
Proof.
  intros Hx Hy. unfold u8. apply Z.mod_small.
  split; [apply Z.div_pos; lia | apply Z.div_lt_upper_bound; lia].
Qed.

(** The loop run over a whole copy computes the byte-wise average. *)
Lemma blend_loop_average (src second rest : list Z) :
  Forall (fun x => 0 <= x < 256) src ->
  Forall (fun x => 0 <= x < 256) second ->
  length second = length src ->
  blend_loop (length src) 0 (src ++ rest) second
  = zip_with (fun x y => (x + y) / 2) src second ++ rest.
Proof.
  intros Hsrc Hsecond Hlen. apply list_eq. intros i.
  destruct (decide (i < length src)%nat) as [Hi|Hi].
  - rewrite blend_loop_inside by (rewrite ?length_app; lia).
    rewrite !lookup_app_l by (rewrite ?length_zip_with; lia).
    destruct (lookup_lt_is_Some_2 src i Hi) as [x Hx].
    destruct (lookup_lt_is_Some_2 second i ltac:(lia)) as [y Hy].
    rewrite lookup_zip_with, Hx, Hy. simpl. f_equal.
    apply average_is_byte.
    + exact (proj1 (Forall_lookup _ _) Hsrc i x Hx).
    + exact (proj1 (Forall_lookup _ _) Hsecond i y Hy).
  - rewrite blend_loop_outside by lia.
    rewrite !lookup_app_r by (rewrite ?length_zip_with; lia).
    rewrite length_zip_with. f_equal. lia.
Qed.

Lemma memcpy_whole (dst src : list Z) :
  memcpy dst src (Z.of_nat (length src))
  = src ++ drop (length src) dst.
Proof.
  unfold memcpy. rewrite Nat2Z.id. rewrite firstn_all. reflexivity.
Qed.

(** In a shaped frame buffer set every index below four selects a buffer of
    the common size. *)
Lemma shaped_buffer_length (fb : FrameBufferSet) (i : Z) :
  frames_shaped fb -> 0 <= i < 4 ->
  length (buffer_at fb i) = length (buffer_at fb 0).
Proof.
  intros (Hfour & Hall & _) Hi. unfold buffer_at at 1.
  destruct (lookup_lt_is_Some_2 (pixel_buffer fb) (Z.to_nat i)) as [buffer Hb];
    [lia|].
  rewrite Hb. simpl.
  exact (proj1 (Forall_lookup _ _) Hall _ _ Hb).
Qed.

Lemma shaped_bytes (fb : FrameBufferSet) :
  frames_shaped fb ->
  size_t (Z.of_nat (length (buffer_at fb 0)) * sizeof_pixel)
  = Z.of_nat (4 * length (buffer_at fb 0)).
Proof.
  intros (_ & _ & Hfit & _). unfold size_t, sizeof_pixel in *.
  rewrite Z.mod_small by lia. lia.
Qed.

(** With the exact length, the caller's memory receives the presented
    frame and nothing beyond it changes. *)
Lemma read_pixels_success (fb : FrameBufferSet) (destination : list Z) :
  frames_shaped fb ->
  read_pixels fb destination (Z.of_nat (length (buffer_at fb 0)))
  = (true,
     presented_frame fb
     ++ drop (4 * length (buffer_at fb 0)) destination).
Proof.
  intros Hshaped. unfold read_pixels, presented_frame.
  rewrite Z.eqb_refl, (shaped_bytes fb Hshaped).
  pose proof Hshaped as (_ & _ & _ & Hw & Hp & Hp2).
  pose proof (shaped_buffer_length fb _ Hshaped Hw) as Lw.
  pose proof (shaped_buffer_length fb _ Hshaped Hp) as Lp.
  pose proof (shaped_buffer_length fb _ Hshaped Hp2) as Lp2.
  destruct (pixel_buffer_mode fb).
  - rewrite <- Lw, <- bytes_of_pixels_length, memcpy_whole. reflexivity.
  - rewrite <- Lp, <- bytes_of_pixels_length, memcpy_whole. reflexivity.
  - rewrite <- Lp, <- bytes_of_pixels_length, memcpy_whole.
    rewrite Nat2Z.id. f_equal.
    apply blend_loop_average; try apply bytes_of_pixels_range.
    rewrite !bytes_of_pixels_length. lia.
Qed.

Lemma read_pixels_failure (fb : FrameBufferSet) (destination : list Z)
    (destination_length : Z) :
  destination_length <> Z.of_nat (length (buffer_at fb 0)) ->
  read_pixels fb destination destination_length = (false, destination).
Proof.
  intros Hne. unfold read_pixels.
  destruct (Z.eqb_spec (Z.of_nat (length (buffer_at fb 0))) destination_length);
    [congruence | reflexivity].
Qed.

End FrameMemory.

(** ** Claims on the video frame buffer *)

Section VideoClaims.

Context `{engine : Engine} `{floats : FloatArith}.

(** C1.  [read_pixel_buffer] returns [true] exactly when the given length
    is the element count of the pixel buffer.  With any other length it
    returns [false] and the caller's memory is what it was, whatever the
    presentation mode; with the exact length the memory receives the frame
    the presentation mode selects. *)
Theorem read_pixel_buffer_checks_length
    (st : GameInstance) (destination : list Z) (destination_length : Z) :
  mutex_locked (driver st) = false ->
  exists success written,
    read_pixel_buffer destination destination_length st
    = Some (success, written, st)
    /\ (success = true
        <-> destination_length = Z.of_nat (length (buffer_at (frames st) 0)))
    /\ (destination_length <> Z.of_nat (length (buffer_at (frames st) 0)) ->
        success = false /\ written = destination)
    /\ (destination_length = Z.of_nat (length (buffer_at (frames st) 0)) ->
        frames_shaped (frames st) ->
        written
        = presented_frame (frames st)
          ++ drop (4 * length (buffer_at (frames st) 0)) destination).
Proof.
  intros Hfree. unfold read_pixel_buffer, mutex_lock. rewrite Hfree.
  change (frames (set_mutex_locked true st)) with (frames st).
  rewrite (unlock_lock st Hfree).
  destruct (Z.eq_dec destination_length
              (Z.of_nat (length (buffer_at (frames st) 0)))) as [->|Hne].
  - destruct (read_pixels (frames st) destination
                (Z.of_nat (length (buffer_at (frames st) 0))))
      as [success written] eqn:Hread.
    exists success, written. split; [reflexivity|].
    assert (success = true) as ->.
    { unfold read_pixels in Hread. rewrite Z.eqb_refl in Hread.
      destruct (pixel_buffer_mode (frames st)); now inversion Hread. }
    repeat split; try congruence.
    intros _ Hshaped. rewrite (read_pixels_success _ _ Hshaped) in Hread.
    now inversion Hread.
  - rewrite (read_pixels_failure _ _ _ Hne).
    exists false, destination. repeat split; congruence.
Qed.

(** C2.  In [DoubleBlend] mode a read with the exact length leaves, at
    every byte offset of the frame, the integer average [(x + y) / 2] of the
    byte [x] of the previous buffer and the byte [y] of the second previous
    buffer at that offset. *)
Theorem double_blend_averages_bytes
    (st : GameInstance) (destination : list Z) (q : nat) :
  mutex_locked (driver st) = false ->
  frames_shaped (frames st) ->
  pixel_buffer_mode (frames st) = PixelBufferDoubleBlend ->
  (q < 4 * length (buffer_at (frames st) 0))%nat ->
  exists written x y,
    read_pixel_buffer destination
      (Z.of_nat (length (buffer_at (frames st) 0))) st
    = Some (true, written, st)
    /\ bytes_of_pixels
         (buffer_at (frames st) (previous_buffer (frames st))) !! q = Some x
    /\ bytes_of_pixels
         (buffer_at (frames st) (previous_buffer_second (frames st))) !! q
       = Some y
    /\ written !! q = Some ((x + y) / 2).
Proof.
  intros Hfree Hshaped Hmode Hq.
  unfold read_pixel_buffer, mutex_lock. rewrite Hfree.
  change (frames (set_mutex_locked true st)) with (frames st).
  rewrite (unlock_lock st Hfree), (read_pixels_success _ _ Hshaped).
  unfold presented_frame. rewrite Hmode.
  pose proof Hshaped as (_ & _ & _ & _ & Hp & Hp2).
  pose proof (shaped_buffer_length _ _ Hshaped Hp) as Lp.
  pose proof (shaped_buffer_length _ _ Hshaped Hp2) as Lp2.
  destruct (lookup_lt_is_Some_2
              (bytes_of_pixels
                 (buffer_at (frames st) (previous_buffer (frames st)))) q)
    as [x Hx]; [rewrite bytes_of_pixels_length; lia|].
  destruct (lookup_lt_is_Some_2
              (bytes_of_pixels
                 (buffer_at (frames st) (previous_buffer_second (frames st))))
              q)
    as [y Hy]; [rewrite bytes_of_pixels_length; lia|].
  eexists _, x, y. split; [reflexivity|]. split; [exact Hx|].
  split; [exact Hy|].
  rewrite lookup_app_l
    by (rewrite length_zip_with, !bytes_of_pixels_length; lia).
  rewrite lookup_zip_with, Hx, Hy. reflexivity.
Qed.

(** C8.  Every vblank callback rotates the indices: the second previous
    index takes the previous one, the previous index takes the work index,
    and the work index becomes [(work + 1) mod 4].  In every reachable
    state the three indices lie in {0, 1, 2, 3}. *)
Theorem vblank_rotates_indices :
  (forall st : GameInstance,
      previous_buffer_second (frames (on_vblank st))
      = previous_buffer (frames st)
      /\ previous_buffer (frames (on_vblank st)) = work_buffer (frames st)
      /\ work_buffer (frames (on_vblank st))
         = (work_buffer (frames st) + 1) mod 4)
  /\ (forall st : GameInstance,
        reachable st ->
        0 <= work_buffer (frames st) < 4
        /\ 0 <= previous_buffer (frames st) < 4
        /\ 0 <= previous_buffer_second (frames st) < 4).
Proof.
  assert (Hrot : forall st : GameInstance,
      previous_buffer_second (frames (on_vblank st))
      = previous_buffer (frames st)
      /\ previous_buffer (frames (on_vblank st)) = work_buffer (frames st)
      /\ work_buffer (frames (on_vblank st))
         = (work_buffer (frames st) + 1) mod 4).
  { intros st. rewrite frames_on_vblank. unfold rotate_buffers. simpl.
    repeat split. apply size_t_mod_4. }
  split; [exact Hrot|].
  induction 1 as [st | st Hst IH | st st' Hst IH (Hw & Hp & Hp2)].
  - destruct (indices_after_update st) as (-> & -> & ->). lia.
  - destruct (Hrot st) as (-> & -> & ->).
    pose proof (Z.mod_pos_bound (work_buffer (frames st) + 1) 4). lia.
  - rewrite Hw, Hp, Hp2. exact IH.
Qed.

End VideoClaims.

Lemma read_pixel_buffer_checks_length_witness :
  exists success written,
    read_pixel_buffer [1; 2; 3; 4; 5; 6; 7; 8; 9; 10; 11; 12] 3 Bench.fresh
    = Some (success, written, Bench.fresh)
    /\ (success = true
        <-> 3 = Z.of_nat (length (buffer_at (frames Bench.fresh) 0)))
    /\ (3 <> Z.of_nat (length (buffer_at (frames Bench.fresh) 0)) ->
        success = false /\ written = [1; 2; 3; 4; 5; 6; 7; 8; 9; 10; 11; 12])
    /\ (3 = Z.of_nat (length (buffer_at (frames Bench.fresh) 0)) ->
        frames_shaped (frames Bench.fresh) ->
        written
        = presented_frame (frames Bench.fresh)
          ++ drop (4 * length (buffer_at (frames Bench.fresh) 0))
               [1; 2; 3; 4; 5; 6; 7; 8; 9; 10; 11; 12]).
Proof.
  apply (read_pixel_buffer_checks_length Bench.fresh
           [1; 2; 3; 4; 5; 6; 7; 8; 9; 10; 11; 12] 3).
  reflexivity.
Defined.

Lemma two_frames_shaped : frames_shaped Bench.two_frames.
Proof.
  unfold frames_shaped. simpl.
  repeat split; try lia; repeat constructor.
Defined.

Lemma double_blend_averages_bytes_witness :
  exists written x y,
    read_pixel_buffer [] 2 Bench.blending = Some (true, written, Bench.blending)
    /\ bytes_of_pixels (buffer_at Bench.two_frames 1) !! 1%nat = Some x
    /\ bytes_of_pixels (buffer_at Bench.two_frames 0) !! 1%nat = Some y
    /\ written !! 1%nat = Some ((x + y) / 2).
Proof.
  apply (double_blend_averages_bytes Bench.blending [] 1).
  - reflexivity.
  - exact two_frames_shaped.
  - reflexivity.
  - simpl. lia.
Defined.

Lemma vblank_rotates_indices_witness :
  0 <= work_buffer (frames (on_vblank Bench.fresh)) < 4
  /\ 0 <= previous_buffer (frames (on_vblank Bench.fresh)) < 4
  /\ 0 <= previous_buffer_second (frames (on_vblank Bench.fresh)) < 4.
Proof.
  apply (proj2 vblank_rotates_indices (on_vblank Bench.fresh)).
  apply reach_vblank. apply reach_sized.
Defined.

(** ** The constructor shapes the frame buffers *)

Section Construction.

Context `{engine : Engine} `{!EngineLaws} `{floats : FloatArith}.

(** [update_pixel_buffer_size] leaves four buffers of the screen size. *)
Lemma update_pixel_buffer_size_buffers (st : GameInstance) :
  length (pixel_buffer (frames st)) = 4%nat ->
  pixel_buffer (frames (update_pixel_buffer_size st))
  = replicate 4
      (replicate (Z.to_nat (get_pixel_buffer_size_without_mutex st))
         4278190080).
Proof.
  intros Hfour.
  destruct (pixel_buffer (frames st)) as [|b0 [|b1 [|b2 [|b3 [|b4 rest]]]]]
    eqn:Hbuffers; try discriminate.
  unfold update_pixel_buffer_size, get_pixel_buffer_size_without_mutex.
  change (Z.to_nat pixel_buffer_count) with 4%nat.
  cbn -[u32 Z.mul replicate]. rewrite Hbuffers.
  repeat match goal with
         | |- context [GB_get_screen_width (GB_set_pixels_output ?gb ?slot)] =>
             rewrite (proj1 (pixels_output_keeps_screen gb slot))
         | |- context [GB_get_screen_height (GB_set_pixels_output ?gb ?slot)] =>
             rewrite (proj2 (pixels_output_keeps_screen gb slot))
         end.
  reflexivity.
Qed.

Lemma update_pixel_buffer_size_shaped (st : GameInstance) :
  length (pixel_buffer (frames st)) = 4%nat ->
  frames_shaped (frames (update_pixel_buffer_size st)).
Proof.
  intros Hfour. unfold frames_shaped, buffer_at.
  rewrite (update_pixel_buffer_size_buffers st Hfour).
  destruct (indices_after_update st) as (-> & -> & ->).
  cbn [replicate lookup list_lookup Z.to_nat default]. simpl default.
  rewrite !length_replicate.
  split; [reflexivity|]. split.
  { repeat constructor; apply length_replicate. }
  split; [|lia].
  unfold get_pixel_buffer_size_without_mutex, u32, sizeof_pixel.
  rewrite Z2Nat.id by (apply Z.mod_pos_bound; reflexivity).
  match goal with |- ?x mod _ * _ < _ =>
    pose proof (Z.mod_pos_bound x (2 ^ 32) eq_refl) end.
  change (2 ^ 32) with 4294967296 in *.
  change (2 ^ 64) with 18446744073709551616. lia.
Qed.

End Construction.

(** ** Log capture *)

Section LogLemmas.

Context `{engine : Engine} `{floats : FloatArith}.

Lemma on_log_retained (text : string) (st : GameInstance) :
  log_buffer_retained (logs st) = true ->
  on_log text st = set_log_buffer (log_buffer (logs st) ++ text)%string st.
Proof. unfold on_log. intros ->. reflexivity. Qed.

Lemma log_all_retained (chunks : list string) (st : GameInstance) :
  log_buffer_retained (logs st) = true ->
  log_all chunks st
  = set_log_buffer
      (foldl (fun buffer text => (buffer ++ text)%string)
         (log_buffer (logs st)) chunks) st.
Proof.
  revert st. induction chunks as [|text chunks IH]; intros st Hret.
  - destruct st as [g fr p au t i [ret buf] dr]. reflexivity.
  - unfold log_all in *. simpl. rewrite (on_log_retained text st Hret).
    rewrite IH by exact Hret. reflexivity.
Qed.

Lemma execute_command_effect (command : string) (st : GameInstance) :
  execute_command_without_mutex command st
  = (foldl (fun buffer text => (buffer ++ text)%string)
       (log_buffer (logs st))
       (GB_debugger_execute_command (gameboy st) command).2,
     set_logs idle_logs
       (set_gameboy (GB_debugger_execute_command (gameboy st) command).1 st)).
Proof.
  unfold execute_command_without_mutex. simpl.
  destruct (GB_debugger_execute_command (gameboy st) command) as [gb chunks].
  rewrite log_all_retained by reflexivity. reflexivity.
Qed.

Lemma disassemble_effect (address count : Z) (st : GameInstance) :
  disassemble_without_mutex address count st
  = (foldl (fun buffer text => (buffer ++ text)%string)
       (log_buffer (logs st))
       (GB_cpu_disassemble (gameboy st) address count),
     set_logs idle_logs st).
Proof.
  unfold disassemble_without_mutex.
  rewrite log_all_retained by reflexivity. reflexivity.
Qed.

End LogLemmas.

(** ** Claims on registering and releasing breakpoints *)

Section BreakpointClaims.

Context `{engine : Engine} `{floats : FloatArith}.

Lemma filter_kept_cons (breakpoint : Z) (en : BreakAndTraceEntry)
    (rest : list BreakAndTraceEntry) :
  List.filter (kept breakpoint) (en :: rest)
  = if entry_address en =? breakpoint
    then List.filter (kept breakpoint) rest
    else en :: List.filter (kept breakpoint) rest.
Proof.
  simpl. unfold kept at 1. now destruct (entry_address en =? breakpoint).
Qed.

Lemma erase_first_some (breakpoint : Z) (entries erased : list BreakAndTraceEntry) :
  erase_first breakpoint entries = Some erased ->
  List.filter (kept breakpoint) erased = List.filter (kept breakpoint) entries.
Proof.
  revert erased. induction entries as [|en rest IH]; intros erased.
  - discriminate.
  - rewrite filter_kept_cons. simpl.
    destruct (entry_address en =? breakpoint) eqn:Haddr.
    + now intros [= <-].
    + destruct (erase_first breakpoint rest) as [rest'|]; [|discriminate].
      intros [= <-]. rewrite filter_kept_cons, Haddr.
      now rewrite (IH rest' eq_refl).
Qed.

Lemma erase_first_none (breakpoint : Z) (entries : list BreakAndTraceEntry) :
  erase_first breakpoint entries = None ->
  List.filter (kept breakpoint) entries = entries.
Proof.
  induction entries as [|en rest IH]; [reflexivity|].
  rewrite filter_kept_cons. simpl.
  destruct (entry_address en =? breakpoint); [discriminate|].
  destruct (erase_first breakpoint rest); [discriminate|].
  intros _. now rewrite IH.
Qed.

(** The two nested loops of [remove_breakpoint] compute a filter. *)
Lemma erase_matching_filter (breakpoint : Z) (entries : list BreakAndTraceEntry) :
  erase_matching breakpoint entries = List.filter (kept breakpoint) entries.
Proof.
  funelim (erase_matching breakpoint entries).
  - match goal with IH : erase_matching _ _ = List.filter _ _ |- _ =>
      rewrite IH end.
    now apply erase_first_some.
  - symmetry. now apply erase_first_none.
Qed.

(** Filtering keeps the addresses distinct. *)
Lemma distinct_addresses_filter (p : BreakAndTraceEntry -> bool)
    (entries : list BreakAndTraceEntry) :
  NoDup (map entry_address entries) ->
  NoDup (map entry_address (List.filter p entries)).
Proof.
  induction entries as [|en rest IH]; intros Hnodup; [exact Hnodup|].
  cbn [map] in Hnodup. apply NoDup_cons in Hnodup as [Hfresh Hnodup].
  cbn [List.filter]. destruct (p en); [|now apply IH].
  cbn [map]. apply NoDup_cons_2; [|now apply IH].
  intros Hin. apply Hfresh.
  apply list_elem_of_In in Hin. apply list_elem_of_In.
  apply in_map_iff in Hin as (en' & Haddr & Hin).
  apply filter_In in Hin as [Hin _].
  rewrite <- Haddr. now apply in_map.
Qed.

(** [break_and_trace_at] registers its request and keeps one entry per
    address. *)
Lemma break_and_trace_at_registers (st : GameInstance) (address n : Z)
    (over : bool) :
  mutex_locked (driver st) = false ->
  NoDup (map entry_address (break_and_trace_breakpoints (trace st))) ->
  exists st',
    break_and_trace_at address n over st = Some st'
    /\ break_and_trace_breakpoints (trace st')
       = List.filter (kept address) (break_and_trace_breakpoints (trace st))
         ++ [(address, n, over)]
    /\ In (address, n, over) (break_and_trace_breakpoints (trace st'))
    /\ NoDup (map entry_address (break_and_trace_breakpoints (trace st'))).
Proof.
  intros Hfree Hnodup. unfold break_and_trace_at, remove_breakpoint.
  rewrite critical_free by exact Hfree.
  rewrite critical_free by reflexivity.
  eexists. split; [reflexivity|].
  rewrite execute_command_effect. unfold remove_breakpoint_body.
  rewrite execute_command_effect. cbn. rewrite erase_matching_filter.
  split; [reflexivity|]. split; [apply in_or_app; right; now left|].
  rewrite map_app. apply NoDup_app. split; [|split].
  - now apply distinct_addresses_filter.
  - intros x Hx Hlast. apply list_elem_of_In in Hx.
    apply in_map_iff in Hx as (en & <- & Hen).
    apply filter_In in Hen as [_ Hkept].
    unfold kept in Hkept. apply negb_true_iff, Z.eqb_neq in Hkept.
    apply list_elem_of_In in Hlast. destruct Hlast as [Heq|[]].
    apply Hkept. symmetry. exact Heq.
  - apply NoDup_singleton.
Qed.

(** C10.  After [remove_breakpoint] the break-and-trace list holds no entry
    at the address, however many were registered there, and the entries at
    other addresses are the former ones in their former order. *)
Theorem remove_breakpoint_erases_every_match
    (st : GameInstance) (breakpoint : Z) :
  mutex_locked (driver st) = false ->
  exists st',
    remove_breakpoint breakpoint st = Some st'
    /\ break_and_trace_breakpoints (trace st')
       = List.filter (fun en => negb (entry_address en =? breakpoint))
           (break_and_trace_breakpoints (trace st))
    /\ forall en,
         In en (break_and_trace_breakpoints (trace st')) ->
         entry_address en <> breakpoint.
Proof.
  intros Hfree. unfold remove_breakpoint. rewrite critical_free by exact Hfree.
  eexists. split; [reflexivity|].
  unfold remove_breakpoint_body. rewrite execute_command_effect.
  cbn [snd]. simpl. rewrite erase_matching_filter.
  split; [reflexivity|].
  intros en Hin. apply filter_In in Hin as [_ Hkept].
  unfold kept in Hkept. apply negb_true_iff, Z.eqb_neq in Hkept. exact Hkept.
Qed.

(** C9.  [unbreak] acts only while the instance is paused at a breakpoint.
    Then, in one critical section, the pending continue command becomes
    the given string and the paused flag is cleared, every other member
    keeping its value and the mutex being free again afterwards (the call
    has to wait while another thread holds the mutex).  While the instance
    is not paused at a breakpoint the state is left as it is. *)
Theorem unbreak_only_while_paused (st : GameInstance) (command : string) :
  (bp_paused (pause st) = false -> unbreak command st = Some st)
  /\ (bp_paused (pause st) = true ->
      mutex_locked (driver st) = false ->
      exists st',
        unbreak command st = Some st'
        /\ continue_text (pause st') = Some command
        /\ bp_paused (pause st') = false
        /\ manual_paused (pause st') = manual_paused (pause st)
        /\ rewind_paused (pause st') = rewind_paused (pause st)
        /\ pause_zero_speed (pause st') = pause_zero_speed (pause st)
        /\ gameboy st' = gameboy st
        /\ frames st' = frames st
        /\ audio st' = audio st
        /\ trace st' = trace st
        /\ input st' = input st
        /\ logs st' = logs st
        /\ driver st' = driver st)
  /\ (bp_paused (pause st) = true ->
      mutex_locked (driver st) = true ->
      unbreak command st = None).
Proof.
  unfold unbreak, is_paused_from_breakpoint. repeat split.
  - intros ->. reflexivity.
  - intros -> Hfree. rewrite critical_free by exact Hfree.
    destruct st as [g fr p au t i l [fin vb idx tm mx]]; simpl in *.
    subst mx. eexists. split; [reflexivity|]. repeat split.
  - intros -> Hheld. unfold critical, mutex_lock. now rewrite Hheld.
Qed.

End BreakpointClaims.

Lemma remove_breakpoint_erases_every_match_witness :
  exists st',
    remove_breakpoint 336 Bench.duplicated = Some st'
    /\ break_and_trace_breakpoints (trace st') = [(400, 2, true)]
    /\ forall en,
         In en (break_and_trace_breakpoints (trace st')) ->
         entry_address en <> 336.
Proof.
  apply (remove_breakpoint_erases_every_match Bench.duplicated 336).
  reflexivity.
Defined.

Lemma unbreak_only_while_paused_witness :
  unbreak "step" Bench.fresh = Some Bench.fresh
  /\ exists st',
       unbreak "step" Bench.paused = Some st'
       /\ continue_text (pause st') = Some "step"%string
       /\ bp_paused (pause st') = false
       /\ driver st' = driver Bench.paused.
Proof.
  split.
  - apply (proj1 (unbreak_only_while_paused Bench.fresh "step")).
    reflexivity.
  - destruct (proj1 (proj2 (unbreak_only_while_paused Bench.paused "step")))
      as (st' & Hunbreak & Htext & Hflag & Hrest); [reflexivity|reflexivity|].
    exists st'. split; [exact Hunbreak|]. split; [exact Htext|].
    split; [exact Hflag|]. apply Hrest.
Defined.

(** ** The continue handshake *)

Section ContinueHandshake.

Context `{engine : Engine} `{floats : FloatArith}.

(** The command given to [unbreak] is the one the waiting driver thread
    picks up at its next poll, and picking it up consumes it. *)
Lemma unbreak_then_poll (st : GameInstance) (command : string) :
  bp_paused (pause st) = true ->
  mutex_locked (driver st) = false ->
  loop_finishing (driver st) = false ->
  exists st1 st2,
    unbreak command st = Some st1
    /\ poll_continue st1 = Some (st2, Resume command)
    /\ continue_text (pause st2) = None
    /\ bp_paused (pause st2) = false
    /\ mutex_locked (driver st2) = true.
Proof.
  destruct st as [g fr [mp bp ct rp pz] au t i l [fin vb idx tm mx]].
  simpl. intros -> -> ->.
  eexists _, _. repeat split.
Qed.

(** Termination of the loop ends the wait with [continue], whatever
    command is pending. *)
Lemma termination_ends_wait (st : GameInstance) :
  mutex_locked (driver st) = false ->
  loop_finishing (driver st) = true ->
  exists st', poll_continue st = Some (st', Resume "continue").
Proof.
  destruct st as [g fr p au t i l [fin vb idx tm mx]].
  simpl. intros -> ->. eexists. reflexivity.
Qed.

(** Without a command and without termination the thread keeps waiting and
    the instance is as it was. *)
Lemma poll_without_command (st : GameInstance) :
  mutex_locked (driver st) = false ->
  loop_finishing (driver st) = false ->
  continue_text (pause st) = None ->
  poll_continue st = Some (st, Wait).
Proof.
  destruct st as [g fr [mp bp ct rp pz] au t i l [fin vb idx tm mx]].
  simpl. intros -> -> ->. reflexivity.
Qed.

End ContinueHandshake.

(** ** The blocks of the input callback *)

Section HandshakeLemmas.

Context `{engine : Engine} `{floats : FloatArith}.

Lemma set_gameboy_same (st : GameInstance) : set_gameboy (gameboy st) st = st.
Proof. now destruct st. Qed.

(** [reset_audio] touches the audio pipeline only. *)
Lemma reset_audio_frame (st : GameInstance) :
  reset_audio st = set_audio (audio (reset_audio st)) st.
Proof.
  unfold reset_audio. destruct st as [g fr p au t i l dr]. simpl.
  destruct (sdl_audio_device au); reflexivity.
Qed.

Lemma trace_reset_audio (st : GameInstance) : trace (reset_audio st) = trace st.
Proof. now rewrite reset_audio_frame. Qed.

Lemma gameboy_reset_audio (st : GameInstance) :
  gameboy (reset_audio st) = gameboy st.
Proof. now rewrite reset_audio_frame. Qed.

Lemma logs_reset_audio (st : GameInstance) : logs (reset_audio st) = logs st.
Proof. now rewrite reset_audio_frame. Qed.

Lemma pause_reset_audio (st : GameInstance) : pause (reset_audio st) = pause st.
Proof. now rewrite reset_audio_frame. Qed.

Lemma driver_reset_audio (st : GameInstance) :
  driver (reset_audio st) = driver st.
Proof. now rewrite reset_audio_frame. Qed.

Lemma breakpoint_scan (pc : Z) (breakpoints : list Z) :
  existsb (fun i => i =? pc) breakpoints = true <-> In pc breakpoints.
Proof.
  rewrite existsb_exists. split.
  - intros (i & Hin & Heq). apply Z.eqb_eq in Heq. now subst.
  - intros Hin. exists pc. split; [exact Hin | apply Z.eqb_refl].
Qed.

Lemma on_input_requested_blocks (st : GameInstance) :
  on_input_requested st
  = let '(st1, bnt) := count_down (reset_audio st) in
    if bnt then record_and_step st1 else breakpoint_hit st1.
Proof.
  unfold on_input_requested, breakpoint_hit.
  destruct (count_down (reset_audio st)) as [st1 [|]]; reflexivity.
Qed.

Lemma count_down_idle (st : GameInstance) :
  current_break_and_trace_remaining (trace st) = 0 ->
  count_down st = (st, false).
Proof. unfold count_down. intros ->. reflexivity. Qed.

Lemma count_down_last (st : GameInstance) :
  current_break_and_trace_remaining (trace st) = 1 ->
  count_down st = (set_remaining 0 st, false).
Proof. unfold count_down. intros ->. reflexivity. Qed.

Lemma count_down_tracing (st : GameInstance) :
  1 < current_break_and_trace_remaining (trace st) ->
  off_breakpoints (gameboy st) ->
  count_down st
  = (set_remaining (current_break_and_trace_remaining (trace st) - 1) st, true).
Proof.
  intros Hrem Hoff. unfold count_down.
  destruct (Z.gtb_spec (current_break_and_trace_remaining (trace st)) 0); [|lia].
  cbn [set_remaining set_trace trace current_break_and_trace_remaining].
  destruct (Z.gtb_spec (current_break_and_trace_remaining (trace st) - 1) 0);
    [|lia].
  f_equal. apply negb_true_iff, not_true_is_false.
  intros Hscan. apply breakpoint_scan in Hscan. exact (Hoff Hscan).
Qed.

Lemma count_down_abort (st : GameInstance) :
  1 < current_break_and_trace_remaining (trace st) ->
  In (get_gb_register (gameboy st) SM83_REG_PC) (gb_breakpoints (gameboy st)) ->
  count_down st
  = (set_remaining (current_break_and_trace_remaining (trace st) - 1) st, false).
Proof.
  intros Hrem Hhit. unfold count_down.
  destruct (Z.gtb_spec (current_break_and_trace_remaining (trace st)) 0); [|lia].
  cbn [set_remaining set_trace trace current_break_and_trace_remaining].
  destruct (Z.gtb_spec (current_break_and_trace_remaining (trace st) - 1) 0);
    [|lia].
  f_equal. apply negb_false_iff. apply breakpoint_scan. exact Hhit.
Qed.

Lemma find_entry_none (pc : Z) (entries : list BreakAndTraceEntry) :
  Forall (fun en => entry_address en <> pc) entries ->
  find_entry pc entries = None.
Proof.
  induction 1 as [|en rest Hen _ IH]; simpl; [reflexivity|].
  destruct (Z.eqb_spec pc (entry_address en)); [congruence|].
  now rewrite IH.
Qed.

(** With one entry per address, the scan finds the registered entry and
    leaves the others. *)
Lemma find_entry_registered (address count : Z) (over : bool)
    (entries : list BreakAndTraceEntry) :
  In (address, count, over) entries ->
  NoDup (map entry_address entries) ->
  find_entry address entries
  = Some ((address, count, over), List.filter (kept address) entries).
Proof.
  induction entries as [|en rest IH]; intros Hin Hnodup; [destruct Hin|].
  rewrite filter_kept_cons. cbn [find_entry].
  apply NoDup_cons in Hnodup as [Hfresh Hnodup].
  rewrite list_elem_of_In in Hfresh.
  destruct Hin as [->|Hin].
  - change (entry_address (address, count, over)) with address in *.
    rewrite Z.eqb_refl. f_equal. f_equal. symmetry.
    apply forallb_filter_id. apply forallb_forall. intros en Hen.
    unfold kept. apply negb_true_iff, Z.eqb_neq. intros Heq.
    apply Hfresh. rewrite <- Heq. now apply in_map.
  - assert (entry_address en <> address) as Hne.
    { intros Heq. apply Hfresh. rewrite Heq.
      change address with (entry_address (address, count, over)).
      now apply in_map. }
    destruct (Z.eqb_spec address (entry_address en)); [congruence|].
    destruct (Z.eqb_spec (entry_address en) address); [congruence|].
    now rewrite (IH Hin Hnodup).
Qed.

Lemma open_session_none (st : GameInstance) :
  find_entry (get_gb_register (gameboy st) SM83_REG_PC)
    (break_and_trace_breakpoints (trace st)) = None ->
  open_session st = (st, false).
Proof. unfold open_session. intros ->. reflexivity. Qed.

Lemma open_session_some (st : GameInstance) (address count : Z) (over : bool)
    (erased : list BreakAndTraceEntry) :
  find_entry (get_gb_register (gameboy st) SM83_REG_PC)
    (break_and_trace_breakpoints (trace st))
  = Some ((address, count, over), erased) ->
  open_session st
  = (set_entries erased
       (set_logs idle_logs
          (set_gameboy
             (GB_debugger_execute_command (gameboy st)
                (delete_command (get_gb_register (gameboy st) SM83_REG_PC))).1
             (set_result [] (set_step_over over (set_remaining count st))))),
     true).
Proof.
  unfold open_session. intros ->. rewrite execute_command_effect. reflexivity.
Qed.

Lemma record_and_step_effect (st : GameInstance) :
  log_buffer (logs st) = EmptyString ->
  record_and_step st
  = (set_result
       (break_and_trace_result (trace st)
        ++ [trace_snapshot (gameboy st)
              (current_break_and_trace_step_over (trace st))])
       (set_logs idle_logs st),
     Resume (step_command (current_break_and_trace_step_over (trace st)))).
Proof.
  intros Hlog. unfold record_and_step. rewrite disassemble_effect, Hlog.
  reflexivity.
Qed.

End HandshakeLemmas.

(** ** Single requests and runs of requests *)

Section SessionLemmas.

Context `{engine : Engine} `{floats : FloatArith}.

(** A request outside a session is a breakpoint hit. *)
Lemma idle_request (st : GameInstance) :
  current_break_and_trace_remaining (trace st) = 0 ->
  on_input_requested st = breakpoint_hit (reset_audio st).
Proof.
  intros Hrem. rewrite on_input_requested_blocks.
  rewrite count_down_idle by (now rewrite trace_reset_audio). reflexivity.
Qed.

(** A request inside a session, away from every breakpoint, records a
    snapshot and keeps stepping. *)
Lemma tracing_request (st : GameInstance) :
  1 < current_break_and_trace_remaining (trace st) ->
  off_breakpoints (gameboy st) ->
  log_buffer (logs st) = EmptyString ->
  on_input_requested st
  = (set_result
       (break_and_trace_result (trace st)
        ++ [trace_snapshot (gameboy st)
              (current_break_and_trace_step_over (trace st))])
       (set_logs idle_logs
          (set_remaining (current_break_and_trace_remaining (trace st) - 1)
             (reset_audio st))),
     Resume (step_command (current_break_and_trace_step_over (trace st)))).
Proof.
  intros Hrem Hoff Hlog. rewrite on_input_requested_blocks.
  rewrite count_down_tracing
    by (now rewrite ?trace_reset_audio, ?gameboy_reset_audio).
  rewrite record_and_step_effect
    by (cbn -[reset_audio]; now rewrite logs_reset_audio).
  cbn -[reset_audio].
  rewrite !trace_reset_audio, !gameboy_reset_audio. reflexivity.
Qed.

(** A request on a breakpoint inside a session is handled as a hit. *)
Lemma aborting_request (st : GameInstance) :
  1 < current_break_and_trace_remaining (trace st) ->
  In (get_gb_register (gameboy st) SM83_REG_PC) (gb_breakpoints (gameboy st)) ->
  on_input_requested st
  = breakpoint_hit
      (set_remaining (current_break_and_trace_remaining (trace st) - 1)
         (reset_audio st)).
Proof.
  intros Hrem Hhit. rewrite on_input_requested_blocks.
  rewrite count_down_abort
    by (now rewrite ?trace_reset_audio, ?gameboy_reset_audio).
  now rewrite trace_reset_audio.
Qed.

(** The request that uses up the count is handled as a hit. *)
Lemma closing_request (st : GameInstance) :
  current_break_and_trace_remaining (trace st) = 1 ->
  on_input_requested st = breakpoint_hit (set_remaining 0 (reset_audio st)).
Proof.
  intros Hrem. rewrite on_input_requested_blocks.
  rewrite count_down_last by (now rewrite trace_reset_audio). reflexivity.
Qed.

(** A hit at an address without a break-and-trace entry pauses. *)
Lemma breakpoint_hit_pauses (st : GameInstance) :
  Forall (fun en => entry_address en <> get_gb_register (gameboy st) SM83_REG_PC)
    (break_and_trace_breakpoints (trace st)) ->
  breakpoint_hit st = (mutex_unlock (set_bp_paused true st), Wait).
Proof.
  intros Hnone. unfold breakpoint_hit.
  rewrite open_session_none by now apply find_entry_none. reflexivity.
Qed.

(** A hit at the address of an entry opens its session. *)
Lemma breakpoint_hit_opens (st : GameInstance) (address count : Z)
    (over : bool) (erased : list BreakAndTraceEntry) :
  find_entry (get_gb_register (gameboy st) SM83_REG_PC)
    (break_and_trace_breakpoints (trace st))
  = Some ((address, count, over), erased) ->
  breakpoint_hit st
  = (let gb :=
       (GB_debugger_execute_command (gameboy st)
          (delete_command (get_gb_register (gameboy st) SM83_REG_PC))).1 in
     set_result [trace_snapshot gb over]
       (set_entries erased
          (set_logs idle_logs
             (set_gameboy gb
                (set_step_over over (set_remaining count st))))),
     Resume (step_command over)).
Proof.
  intros Hfound. unfold breakpoint_hit.
  rewrite (open_session_some _ _ _ _ _ Hfound).
  rewrite record_and_step_effect by reflexivity. reflexivity.
Qed.

(** Requests that keep a session stepping, followed by further requests. *)
Lemma tracing_requests (gbs rest : list GB_gameboy_s) (st : GameInstance) :
  Z.of_nat (length gbs) < current_break_and_trace_remaining (trace st) ->
  Forall off_breakpoints gbs ->
  log_buffer (logs st) = EmptyString ->
  exists st',
    input_requests (gbs ++ rest) st
    = ((input_requests rest st').1,
       map (fun _ =>
              Resume (step_command
                        (current_break_and_trace_step_over (trace st)))) gbs
       ++ (input_requests rest st').2)
    /\ trace st'
       = {| current_break_and_trace_remaining :=
              current_break_and_trace_remaining (trace st)
              - Z.of_nat (length gbs);
            current_break_and_trace_step_over :=
              current_break_and_trace_step_over (trace st);
            break_and_trace_result :=
              break_and_trace_result (trace st)
              ++ map (fun gb =>
                        trace_snapshot gb
                          (current_break_and_trace_step_over (trace st))) gbs;
            break_and_trace_breakpoints :=
              break_and_trace_breakpoints (trace st) |}
    /\ pause st' = pause st
    /\ log_buffer (logs st') = EmptyString.
Proof.
  revert st. induction gbs as [|gb gbs IH]; intros st Hlen Hoff Hlog.
  - exists st. simpl. rewrite Z.sub_0_r, app_nil_r.
    repeat split; try assumption.
    + now destruct (input_requests rest st).
    + now destruct (trace st).
  - apply Forall_cons in Hoff as [Hgb Hoff].
    cbn [length] in Hlen. rewrite Nat2Z.inj_succ in Hlen.
    cbn [app input_requests].
    rewrite (tracing_request (set_gameboy gb st))
      by (cbn; (lia || assumption)).
    cbn [set_gameboy trace gameboy].
    match goal with |- context [input_requests (gbs ++ rest) ?s] =>
      set (st1 := s) end.
    assert (trace st1
            = {| current_break_and_trace_remaining :=
                   current_break_and_trace_remaining (trace st) - 1;
                 current_break_and_trace_step_over :=
                   current_break_and_trace_step_over (trace st);
                 break_and_trace_result :=
                   break_and_trace_result (trace st)
                   ++ [trace_snapshot gb
                         (current_break_and_trace_step_over (trace st))];
                 break_and_trace_breakpoints :=
                   break_and_trace_breakpoints (trace st) |}) as Htrace1.
    { subst st1. cbn -[reset_audio]. now rewrite !trace_reset_audio. }
    assert (pause st1 = pause st) as Hpause1.
    { subst st1. cbn -[reset_audio]. now rewrite pause_reset_audio. }
    destruct (IH st1) as (st' & Hrun & Htrace & Hpause & Hlog');
      [rewrite Htrace1; cbn; lia | exact Hoff | reflexivity |].
    exists st'. rewrite Hrun, Htrace, Hpause, Htrace1, Hpause1. cbn.
    repeat split; try assumption.
    f_equal; [lia | now rewrite <- app_assoc].
Qed.

End SessionLemmas.

(** ** Claims on break-and-trace sessions *)

Section SessionClaims.

Context `{engine : Engine} `{floats : FloatArith}.

(** A registered entry whose address the engine reaches outside a session
    opens the session, and the requests that follow keep it stepping while
    they stay off the breakpoints and the count lasts. *)
Lemma session_run (st : GameInstance) (address count : Z) (over : bool)
    (later rest : list GB_gameboy_s) :
  current_break_and_trace_remaining (trace st) = 0 ->
  In (address, count, over) (break_and_trace_breakpoints (trace st)) ->
  NoDup (map entry_address (break_and_trace_breakpoints (trace st))) ->
  get_gb_register (gameboy st) SM83_REG_PC = address ->
  Z.of_nat (length later) < count ->
  Forall off_breakpoints later ->
  exists st1 st2,
    on_input_requested st = (st1, Resume (step_command over))
    /\ gameboy st1
       = (GB_debugger_execute_command (gameboy st)
            (delete_command address)).1
    /\ trace st1
       = {| current_break_and_trace_remaining := count;
            current_break_and_trace_step_over := over;
            break_and_trace_result := [trace_snapshot (gameboy st1) over];
            break_and_trace_breakpoints :=
              List.filter (kept address)
                (break_and_trace_breakpoints (trace st)) |}
    /\ input_requests (gameboy st :: later ++ rest) st
       = ((input_requests rest st2).1,
          Resume (step_command over)
          :: map (fun _ => Resume (step_command over)) later
          ++ (input_requests rest st2).2)
    /\ trace st2
       = {| current_break_and_trace_remaining :=
              count - Z.of_nat (length later);
            current_break_and_trace_step_over := over;
            break_and_trace_result :=
              trace_snapshot (gameboy st1) over
              :: map (fun gb => trace_snapshot gb over) later;
            break_and_trace_breakpoints :=
              List.filter (kept address)
                (break_and_trace_breakpoints (trace st)) |}
    /\ pause st2 = pause st.
Proof.
  intros Hidle Hin Hnodup Hpc Hlen Hoff.
  pose proof (find_entry_registered _ _ _ _ Hin Hnodup) as Hfound.
  rewrite <- Hpc in Hfound at 1.
  rewrite <- (gameboy_reset_audio st), <- (trace_reset_audio st) in Hfound.
  pose proof (idle_request st Hidle) as Hfirst.
  rewrite (breakpoint_hit_opens _ _ _ _ _ Hfound) in Hfirst.
  cbn zeta in Hfirst. rewrite !gameboy_reset_audio, Hpc in Hfirst.
  match type of Hfirst with _ = (?s, _) => set (st1 := s) in * end.
  assert (trace st1
          = {| current_break_and_trace_remaining := count;
               current_break_and_trace_step_over := over;
               break_and_trace_result := [trace_snapshot (gameboy st1) over];
               break_and_trace_breakpoints :=
                 List.filter (kept address)
                   (break_and_trace_breakpoints (trace st)) |}) as Htrace1.
  { subst st1. cbn -[reset_audio]. now rewrite trace_reset_audio. }
  assert (pause st1 = pause st) as Hpause1.
  { subst st1. cbn -[reset_audio]. now rewrite pause_reset_audio. }
  destruct (tracing_requests later rest st1)
    as (st2 & Hrun & Htrace2 & Hpause2 & _);
    [rewrite Htrace1; exact Hlen | exact Hoff | reflexivity |].
  exists st1, st2. split; [exact Hfirst|]. split; [reflexivity|].
  split; [exact Htrace1|]. split.
  - cbn [input_requests]. rewrite set_gameboy_same, Hfirst.
    rewrite Hrun, Htrace1. reflexivity.
  - split; [|congruence]. rewrite Htrace2, Htrace1. reflexivity.
Qed.

(** What the callback stores for a request is a Trace Snapshot of the engine
    state of that request. *)
Lemma trace_snapshot_records (gb : GB_gameboy_s) (over : bool) :
  records_state over gb (trace_snapshot gb over).
Proof.
  unfold records_state, trace_snapshot, snapshot, flag_set.
  cbn [BreakAndTraceResult.a BreakAndTraceResult.b BreakAndTraceResult.c
         BreakAndTraceResult.d BreakAndTraceResult.e BreakAndTraceResult.f
         BreakAndTraceResult.hl BreakAndTraceResult.sp BreakAndTraceResult.pc
         BreakAndTraceResult.carry BreakAndTraceResult.half_carry
         BreakAndTraceResult.subtract BreakAndTraceResult.zero
         BreakAndTraceResult.step_over BreakAndTraceResult.disassembly].
  rewrite !negb_true_iff, !Z.eqb_neq. repeat split; auto.
Qed.

Lemma trace_snapshots_record (over : bool) (gbs : list GB_gameboy_s) :
  Forall2 (records_state over) gbs
    (map (fun gb => trace_snapshot gb over) gbs).
Proof.
  induction gbs as [|gb gbs IH]; cbn [map]; constructor;
    [apply trace_snapshot_records|exact IH].
Qed.

(** C3.  A request (address, count, stepOver) is registered, with a
    positive count, and the engine asks for input at that address while no
    session is active.  Then the callback opens the session with the count
    as the remaining steps, starts the trace results afresh, has the engine
    execute the command that deletes the breakpoint at the address, which
    is then absent from the engine's breakpoint list, consumes the entry,
    and answers "next" or "step" as stepOver says.  As long as the later
    requests stay off the breakpoints, the run of [count] requests answers
    each the same way and ends with exactly [count] snapshots, the one of
    each request holding the registers, the four flag bits, the stepOver
    flag and the one-instruction disassembly of the engine state of that
    request; the next request finds the session over and pauses.  At the
    end the instance holds the engine state of the last request as the
    engine delivered it, so the address is still absent whenever the
    engine has kept its own list through the run. *)
Theorem break_and_trace_session `{!EngineLaws}
    (st : GameInstance) (address count : Z) (over : bool)
    (later : list GB_gameboy_s) (last : GB_gameboy_s) :
  current_break_and_trace_remaining (trace st) = 0 ->
  In (address, count, over) (break_and_trace_breakpoints (trace st)) ->
  NoDup (map entry_address (break_and_trace_breakpoints (trace st))) ->
  get_gb_register (gameboy st) SM83_REG_PC = address ->
  0 <= address < 2 ^ 16 ->
  0 < count ->
  Z.of_nat (length later) = count - 1 ->
  Forall off_breakpoints later ->
  Forall (fun en => entry_address en = address
                    \/ entry_address en <> get_gb_register last SM83_REG_PC)
    (break_and_trace_breakpoints (trace st)) ->
  exists st1 st_end first,
    on_input_requested st = (st1, Resume (step_command over))
    /\ (over = true -> step_command over = "next"%string)
    /\ (over = false -> step_command over = "step"%string)
    /\ current_break_and_trace_remaining (trace st1) = count
    /\ current_break_and_trace_step_over (trace st1) = over
    /\ break_and_trace_result (trace st1) = [first]
    /\ records_state over (gameboy st1) first
    /\ gameboy st1
       = (GB_debugger_execute_command (gameboy st) (delete_command address)).1
    /\ ~ In address (get_breakpoints_without_mutex st1)
    /\ break_and_trace_breakpoints (trace st1)
       = List.filter (fun en => negb (entry_address en =? address))
           (break_and_trace_breakpoints (trace st))
    /\ input_requests (gameboy st :: later ++ [last]) st
       = (st_end,
          Resume (step_command over)
          :: map (fun _ => Resume (step_command over)) later ++ [Wait])
    /\ Forall2 (records_state over) (gameboy st1 :: later)
         (break_and_trace_result (trace st_end))
    /\ Z.of_nat (length (break_and_trace_result (trace st_end))) = count
    /\ current_break_and_trace_remaining (trace st_end) = 0
    /\ bp_paused (pause st_end) = true
    /\ gameboy st_end = last
    /\ (Forall (fun gb => gb_breakpoints gb = gb_breakpoints (gameboy st1))
          (later ++ [last]) ->
        ~ In address (get_breakpoints_without_mutex st_end)).
Proof.
  intros Hidle Hin Hnodup Hpc Haddr Hcount Hlen Hoff Hlast.
  destruct (session_run st address count over later [last])
    as (st1 & st2 & Hfirst & Hgb1 & Htrace1 & Hrun & Htrace2 & Hpause2);
    try assumption; [lia|].
  assert (on_input_requested (set_gameboy last st2)
          = (mutex_unlock
               (set_bp_paused true
                  (set_remaining 0 (reset_audio (set_gameboy last st2)))),
             Wait)) as Hclose.
  { rewrite closing_request
      by (cbn [set_gameboy trace]; rewrite Htrace2; cbn; lia).
    apply breakpoint_hit_pauses.
    cbn -[reset_audio]. rewrite trace_reset_audio, gameboy_reset_audio.
    cbn [set_gameboy trace gameboy]. rewrite Htrace2.
    cbn [break_and_trace_breakpoints].
    apply List.Forall_forall. intros en Hen.
    apply filter_In in Hen as [Hen Hkept].
    unfold kept in Hkept. apply negb_true_iff, Z.eqb_neq in Hkept.
    destruct (proj1 (List.Forall_forall _ _) Hlast en Hen); congruence. }
  cbn [input_requests] in Hrun. rewrite Hclose in Hrun. cbn [fst snd] in Hrun.
  assert (~ In address (gb_breakpoints (gameboy st1))) as Habsent.
  { rewrite Hgb1, delete_command_spec by exact Haddr.
    intros Hstill. apply filter_In in Hstill as [_ Hstill].
    now rewrite Z.eqb_refl in Hstill. }
  eexists st1, _, (trace_snapshot (gameboy st1) over).
  split; [exact Hfirst|].
  split; [now intros ->|]. split; [now intros ->|].
  split; [now rewrite Htrace1|]. split; [now rewrite Htrace1|].
  split; [now rewrite Htrace1|].
  split; [apply trace_snapshot_records|].
  split; [exact Hgb1|]. split; [exact Habsent|].
  split; [now rewrite Htrace1|]. split; [exact Hrun|].
  cbn -[reset_audio]. rewrite !trace_reset_audio, gameboy_reset_audio.
  cbn [set_gameboy trace gameboy]. rewrite Htrace2.
  cbn [break_and_trace_result current_break_and_trace_remaining].
  split.
  { constructor; [apply trace_snapshot_records|].
    apply trace_snapshots_record. }
  split; [cbn [length]; rewrite length_map; lia|].
  split; [reflexivity|]. split; [reflexivity|]. split; [reflexivity|].
  intros Hkeeps.
  apply Forall_app in Hkeeps as [_ Hkeeps].
  apply Forall_inv in Hkeeps.
  unfold get_breakpoints_without_mutex. cbn -[reset_audio].
  rewrite gameboy_reset_audio. cbn [set_gameboy gameboy].
  change (~ In address (gb_breakpoints last)).
  now rewrite Hkeeps.
Qed.

(** A request inside a session, on a breakpoint of the engine without a
    break-and-trace entry, pauses without a snapshot and leaves the count
    of the session at one less, above zero. *)
Lemma request_on_breakpoint_in_session (st : GameInstance) :
  1 < current_break_and_trace_remaining (trace st) ->
  In (get_gb_register (gameboy st) SM83_REG_PC) (gb_breakpoints (gameboy st)) ->
  Forall (fun en => entry_address en
                    <> get_gb_register (gameboy st) SM83_REG_PC)
    (break_and_trace_breakpoints (trace st)) ->
  on_input_requested st
  = (mutex_unlock
       (set_bp_paused true
          (set_remaining (current_break_and_trace_remaining (trace st) - 1)
             (reset_audio st))),
     Wait).
Proof.
  intros Hrem Hhit Hnone. rewrite aborting_request by assumption.
  apply breakpoint_hit_pauses.
  cbn -[reset_audio]. now rewrite trace_reset_audio, gameboy_reset_audio.
Qed.

End SessionClaims.

(** C4.  The code at the input of the claim: a session of five steps opened
    at $0150 meets the breakpoint at $0200 on its third request.  The
    callback counts down first and pauses without a snapshot, as a
    breakpoint hit outside a session; but it only clears its local flag
    and leaves three steps on the count of the session, which is therefore
    not aborted: once [unbreak] has ended the pause with one "step", the
    requests at $0201 and $0202 are answered "step" by the callback itself
    and recorded, and the session runs until the count is used up. *)
Theorem interrupted_session_goes_on :
  (input_requests [Bench.stopped; Bench.at_pc 337; Bench.at_pc 512]
     Scenes.long_trace).2
  = [Resume "step"; Resume "step"; Wait]
  /\ bp_paused (pause Scenes.interrupted) = true
  /\ map BreakAndTraceResult.pc
       (break_and_trace_result (trace Scenes.interrupted)) = [336; 337]
  /\ current_break_and_trace_remaining (trace Scenes.interrupted) = 3
  /\ option_map snd
       (match unbreak "step" Scenes.interrupted with
        | Some st => poll_continue st
        | None => None
        end)
     = Some (Resume "step")
  /\ (input_requests [Bench.at_pc 513; Bench.at_pc 514; Bench.at_pc 515]
        Scenes.continued).2
     = [Resume "step"; Resume "step"; Wait]
  /\ map BreakAndTraceResult.pc
       (break_and_trace_result
          (trace
             (input_requests
                [Bench.at_pc 513; Bench.at_pc 514; Bench.at_pc 515]
                Scenes.continued).1))
     = [336; 337; 513; 514].
Proof. vm_compute. repeat split. Qed.

Lemma break_and_trace_session_witness :
  exists st_end,
    input_requests
      [Bench.stopped; Bench.at_pc 337; Bench.at_pc 338; Bench.at_pc 339]
      Bench.tracked
    = (st_end, [Resume "step"; Resume "step"; Resume "step"; Wait])
    /\ Forall2 (records_state false)
         [Bench.at_pc 336; Bench.at_pc 337; Bench.at_pc 338]
         (break_and_trace_result (trace st_end))
    /\ Z.of_nat (length (break_and_trace_result (trace st_end))) = 3
    /\ bp_paused (pause st_end) = true
    /\ ~ In 336 (get_breakpoints_without_mutex st_end).
Proof.
  destruct (break_and_trace_session Bench.tracked 336 3 false
              [Bench.at_pc 337; Bench.at_pc 338] (Bench.at_pc 339))
    as (st1 & st_end & first & _ & _ & _ & _ & _ & _ & _ & Hgb1 & _ & _
        & Hrun & Hsnapshots & Hlen & _ & Hpaused & _ & Hstays).
  - reflexivity.
  - left. reflexivity.
  - change (NoDup [336; 400]).
    apply NoDup_cons_2; [|apply NoDup_singleton].
    intros Hin. apply list_elem_of_In in Hin.
    destruct Hin as [Hin|[]]. discriminate Hin.
  - reflexivity.
  - change (2 ^ 16) with 65536. lia.
  - lia.
  - reflexivity.
  - constructor; [intros [Hin|[Hin|[]]]; discriminate Hin|].
    constructor; [intros [Hin|[Hin|[]]]; discriminate Hin|]. constructor.
  - constructor; [left; reflexivity|].
    constructor; [right; discriminate|]. constructor.
  - exists st_end. split; [exact Hrun|].
    rewrite Hgb1 in Hsnapshots, Hstays.
    split; [exact Hsnapshots|]. split; [exact Hlen|].
    split; [exact Hpaused|]. apply Hstays.
    repeat (constructor; [reflexivity|]). constructor.
Defined.

(** ** Claims on the audio streamer *)

Section AudioClaims.

Context `{engine : Engine} `{floats : FloatArith} `{control : !EngineControl}.

(** [on_sample] leaves the flag, the buffer size and the presence of a
    device as they are. *)
Lemma on_sample_route (sample : GB_sample_t) (st : GameInstance) :
  audio_enabled (audio (on_sample sample st)) = audio_enabled (audio st)
  /\ sdl_audio_buffer_size (audio (on_sample sample st))
     = sdl_audio_buffer_size (audio st)
  /\ (forall dev', sdl_audio_device (audio (on_sample sample st)) = Some dev' ->
      exists dev, sdl_audio_device (audio st) = Some dev).
Proof.
  unfold on_sample.
  destruct st as [g fr p [en buf vol sc mono dev bs] t i ls dr].
  cbn [audio audio_enabled]. destruct en; [|repeat split; eauto].
  match goal with |- context [let '(l, r) := ?p in _] => destruct p as [l r] end.
  cbn [audio sdl_audio_device]. destruct dev as [dev|].
  - unfold reset_audio.
    repeat match goal with
           | |- context [if ?c then _ else _] => destruct c
           end;
      cbn; repeat split; eauto.
  - cbn. repeat split; intros dev' [=].
Qed.

(** The audio path of a reachable state is settled. *)
Lemma audio_reachable_settled (st : GameInstance) :
  audio_reachable st -> audio_settled st.
Proof.
  induction 1 as [st Hoff Hnone
                 | st sample _ IH
                 | st _ IH
                 | st enabled sample_rate rate st' rate' _ IH Hset
                 | st sample_rate buffer_size preferred open rate ok st' rate'
                     _ IH Hopen Hset
                 | st rate _ IH
                 | st dev played _ IH Hdev
                 | st st' _ IH Hsame].
  - split; intros; congruence.
  - destruct IH as [Hquiet Hsize].
    destruct (on_sample_route sample st) as (Hflag & Hbs & Hdevice).
    destruct (audio_enabled (audio st)) eqn:Hen.
    + split; [congruence|]. intros dev' Hdev'.
      destruct (Hdevice dev' Hdev') as [dev Hdev]. rewrite Hbs. eauto.
    + assert (on_sample sample st = st) as ->
        by (unfold on_sample; now rewrite Hen).
      split; [intros _; exact (Hquiet eq_refl)|exact Hsize].
  - destruct IH as [Hquiet Hsize]. unfold reset_audio.
    destruct st as [g fr p [en buf vol sc mono [dev|] bs] t i ls dr];
      cbn in *.
    + split; [intros _ dev' [= <-]; reflexivity|].
      intros dev' _. eauto.
    + split; intros; discriminate.
  - destruct IH as [Hquiet Hsize]. unfold set_audio_enabled in Hset.
    destruct st as [g fr p [en buf vol sc mono dev bs] t i ls
                      [fin vb idx tm mx]].
    unfold mutex_lock in Hset. cbn in Hset, Hquiet, Hsize.
    destruct mx; [discriminate|].
    destruct enabled, dev as [dev|]; cbn in Hset;
      injection Hset as <- <-; cbn;
      (split; [intros _ dev' [= <-]; reflexivity || discriminate|]);
      intros dev' [= <-] || intros dev' [=]; eauto.
  - destruct IH as [Hquiet Hsize]. unfold set_up_sdl_audio in Hset.
    destruct st as [g fr p [en buf vol sc mono dev bs] t i ls
                      [fin vb idx tm mx]].
    unfold mutex_lock in Hset. cbn in Hset, Hquiet, Hsize.
    destruct mx; [discriminate|].
    destruct (negb (sample_rate =? 0)), (negb (buffer_size =? 0));
      match type of Hset with
      | match open ?r ?f1 ?f2 with _ => _ end = _ =>
          pose proof (Hopen r f1 f2) as Hfresh;
          destruct (open r f1 f2) as [[device result]|]
      end.
    all: try (injection Hset as <- <- <-; unfold audio_settled; cbn;
              split; assumption).
    all: destruct (Hfresh device result eq_refl) as [Hempty Hsamples];
      unfold close_sdl_audio_device in Hset; destruct dev; cbn in Hset;
      injection Hset as <- <- <-; unfold audio_settled; cbn;
      (split; [intros _ dev' [= <-]; exact Hempty
              |intros dev' _; exact Hsamples]).
  - destruct IH as [Hquiet Hsize]. unfold close_sdl_audio_device.
    destruct st as [g fr p [en buf vol sc mono [dev|] bs] t i ls dr];
      cbn in *; [split; intros; discriminate|split; assumption].
  - destruct IH as [Hquiet Hsize].
    destruct st as [g fr p [en buf vol sc mono dev0 bs] t i ls dr];
      cbn in *. subst dev0. split.
    + intros Hoff dev' [= <-]. cbn.
      rewrite (Hquiet Hoff dev eq_refl). now destruct played.
    + intros dev' _. eauto.
  - destruct IH as [Hquiet Hsize]. destruct Hsame as (Hflag & Hbs & Hqueue).
    split.
    + rewrite Hflag. intros Hoff dev' Hdev'. rewrite Hdev' in Hqueue.
      destruct (sdl_audio_device (audio st)) as [dev|] eqn:Hdev;
        [|discriminate].
      cbn in Hqueue. injection Hqueue as ->. now apply Hquiet.
    + rewrite Hbs. intros dev' Hdev'. rewrite Hdev' in Hqueue.
      destruct (sdl_audio_device (audio st)) as [dev|] eqn:Hdev;
        [|discriminate].
      eauto.
Qed.

(** C5.  In every state the instance can reach, with a device attached, a
    sample pair that arrives when the queued frame count exceeds
    [bufferSize * (turbo ? 4 : 8)] is not appended.  Outside turbo mode the
    device queue and the sample buffer are flushed (and the device is
    paused); in turbo mode the pair is dropped and nothing changes.  (With
    audio switched off the queue of the device is empty, so that the
    overrun arises only while audio is enabled.) *)
Theorem on_sample_overrun
    (st : GameInstance) (sample : GB_sample_t) (dev : SDL_AudioDevice) :
  audio_reachable st ->
  sdl_audio_device (audio st) = Some dev ->
  sdl_audio_buffer_size (audio st)
  * (if turbo_mode_enabled (driver st) then 4 else 8)
  < SDL_GetQueuedAudioSize dev / sizeof_sample ->
  (turbo_mode_enabled (driver st) = true -> on_sample sample st = st)
  /\ (turbo_mode_enabled (driver st) = false ->
      sample_buffer (audio (on_sample sample st)) = []
      /\ sdl_audio_device (audio (on_sample sample st))
         = Some {| sdl_queue := []; sdl_pause_on := true |}
      /\ on_sample sample st = reset_audio st).
Proof.
  intros Hreach Hdev Hover.
  destruct (audio_reachable_settled st Hreach) as [Hquiet Hsize].
  destruct (audio_enabled (audio st)) eqn:Henabled.
  - assert (on_sample sample st
            = if negb (turbo_mode_enabled (driver st))
              then reset_audio st else st) as Hstep.
    { unfold on_sample. rewrite Henabled.
      match goal with |- (let '(l, r) := ?p in _) = _ =>
        destruct p as [l r] end.
      rewrite Hdev.
      destruct (Z.gtb_spec (SDL_GetQueuedAudioSize dev / sizeof_sample)
                  (sdl_audio_buffer_size (audio st)
                   * (if turbo_mode_enabled (driver st) then 4 else 8)));
        [reflexivity | lia]. }
    rewrite Hstep. split; intros ->; [reflexivity|].
    cbn [negb]. unfold reset_audio. rewrite Hdev. repeat split.
  - exfalso. specialize (Hquiet eq_refl dev Hdev).
    specialize (Hsize dev Hdev).
    unfold SDL_GetQueuedAudioSize in Hover. rewrite Hquiet in Hover.
    change (Z.of_nat (length (@nil Z)) * sizeof_int16 / sizeof_sample)
      with 0 in Hover.
    destruct (turbo_mode_enabled (driver st)); lia.
Qed.

End AudioClaims.

Lemma saturated_reachable : audio_reachable Scenes.saturated.
Proof.
  unfold Scenes.saturated. cbn [Nat.iter nat_rect].
  repeat apply reach_on_sample.
  apply (reach_set_audio_enabled Scenes.wired true 44100 44100
           Scenes.sounding 44100); [|reflexivity].
  apply (reach_set_up_sdl_audio Bench.fresh 44100 2
           {| freq := 48000; samples := 1024 |} Scenes.open_device 0
           true Scenes.wired 44100); [| |reflexivity].
  - apply reach_constructed; reflexivity.
  - intros request allow_frequency allow_samples device result [= <- <-].
    split; [reflexivity|]. apply Z.mod_pos_bound. reflexivity.
Qed.

Lemma on_sample_overrun_witness :
  sample_buffer
    (audio (on_sample {| left := 1; right := 2 |} Scenes.saturated)) = []
  /\ sdl_audio_device
       (audio (on_sample {| left := 1; right := 2 |} Scenes.saturated))
     = Some {| sdl_queue := []; sdl_pause_on := true |}.
Proof.
  destruct (on_sample_overrun Scenes.saturated {| left := 1; right := 2 |}
              {| sdl_queue := concat (replicate 18 [1; 2]);
                 sdl_pause_on := false |})
    as [_ Hflush];
    [exact saturated_reachable|vm_compute; reflexivity
    |vm_compute; reflexivity|].
  destruct (Hflush eq_refl) as (Hbuffer & Hdevice & _).
  split; [exact Hbuffer|exact Hdevice].
Defined.

(** ** The callbacks leave the pause state of the loop alone *)

Section LoopLemmas.

Context `{engine : Engine} `{floats : FloatArith}.

Lemma pause_on_vblank (st : GameInstance) : pause (on_vblank st) = pause st.
Proof.
  unfold on_vblank. cbn -[rotate_buffers foldl Z.modulo].
  match goal with |- context [if ?c then _ else _] => destruct c end.
  - match goal with |- context [foldl ?f ?s ?l] =>
      destruct (key_states_only_engine l s) as [gb Hgb] end.
    cbn -[rotate_buffers foldl Z.modulo] in Hgb |- *.
    rewrite Hgb. reflexivity.
  - reflexivity.
Qed.

Lemma pause_on_sample (sample : GB_sample_t) (st : GameInstance) :
  pause (on_sample sample st) = pause st.
Proof.
  unfold on_sample.
  destruct (audio_enabled (audio st)); [|reflexivity].
  match goal with |- context [let '(l, r) := ?p in _] => destruct p as [l r] end.
  destruct (sdl_audio_device (audio st)) as [dev|] eqn:Hdev; [|reflexivity].
  repeat match goal with
         | |- context [if ?c then _ else _] => destruct c
         end;
    try reflexivity; now rewrite ?pause_reset_audio.
Qed.

Lemma rewind_paused_on_input_requested (st : GameInstance) :
  rewind_paused (pause (on_input_requested st).1) = rewind_paused (pause st).
Proof.
  rewrite on_input_requested_blocks.
  rewrite <- (pause_reset_audio st).
  generalize (reset_audio st). clear st. intros st.
  unfold count_down, breakpoint_hit, open_session, record_and_step.
  repeat match goal with
         | |- context [if ?c then _ else _] => destruct c
         | |- context [match find_entry ?p ?l with _ => _ end] =>
             destruct (find_entry p l) as [[[[? ?] ?] ?]|]
         | |- context [execute_command_without_mutex ?c ?s] =>
             rewrite (execute_command_effect c s)
         | |- context [disassemble_without_mutex ?x ?y ?s] =>
             rewrite (disassemble_effect x y s)
         end;
    reflexivity.
Qed.

(** A run of the engine leaves [rewind_paused] as it found it. *)
Lemma rewind_paused_exec_run (run : GB_run_t GB_gameboy_s) (st : GameInstance) :
  rewind_paused (pause (run_state (exec_run run st)))
  = rewind_paused (pause st).
Proof.
  revert st.
  induction run as [gb | slot offset colour k IH | gb k IH | gb sample k IH
                    | gb text k IH | gb k IH]; intros st; cbn [exec_run].
  - reflexivity.
  - now rewrite IH.
  - now rewrite IH, pause_on_vblank.
  - now rewrite IH, pause_on_sample.
  - rewrite IH. unfold on_log.
    now destruct (log_buffer_retained (logs (set_gameboy gb st))).
  - pose proof (rewind_paused_on_input_requested (set_gameboy gb st)) as Hin.
    destruct (on_input_requested (set_gameboy gb st)) as [st1 [command|]].
    + now rewrite IH.
    + exact Hin.
Qed.

Lemma rewind_paused_after_run (outcome : RunOutcome) :
  rewind_paused (pause (iteration_state (after_run outcome)))
  = rewind_paused (pause (run_state outcome)).
Proof.
  destruct outcome as [st | st k]; [|reflexivity].
  unfold after_run, finish_iteration, account_frame.
  destruct (vblank_hit (driver st)); cbn;
    match goal with |- context [if ?c then _ else _] => destruct c end;
    reflexivity.
Qed.

(** The rewind block: two pops, the pause on a failed second pop, and the
    request flag cleared. *)
Lemma rewind_step_flagged (st : GameInstance) :
  should_rewind (input st) = true ->
  rewind_step st
  = set_should_rewind false
      (if (popped_twice (gameboy st)).2
       then set_gameboy (popped_twice (gameboy st)).1 st
       else set_rewind_paused true
              (set_gameboy (popped_twice (gameboy st)).1 st)).
Proof.
  intros Hflag. unfold rewind_step, popped_twice. rewrite Hflag.
  destruct (GB_rewind_pop (gameboy st)) as [gb1 first].
  cbn [fst]. destruct (GB_rewind_pop gb1) as [gb2 [|]]; reflexivity.
Qed.

End LoopLemmas.

(** ** Claims on the rewind controller *)

Section RewindClaims.

Context `{engine : Engine} `{floats : FloatArith}.

(** C7, as the code has it.  With a rewind flagged at the last vblank, a
    trip through the loop that finds the driver not paused pops one history
    entry and then a second, clears the request flag whether or not the pops
    succeeded, sets [rewind_paused] if the second pop failed, and then
    advances the engine once in that same trip, from the state the pops
    left; [rewind_paused] is still set (or clear) when the trip ends.  A
    trip that finds the driver paused neither pops nor clears the flag.
    Once [rewind_paused] is set, trips made while the rewind input is held
    only sleep; the first trip after the input is released clears it. *)
Theorem rewind_in_driver_loop :
  (forall (others : GameInstance -> GameInstance) (st : GameInstance),
      mutex_locked (driver st) = false ->
      should_rewind (input st) = true ->
      may_run (loop_entry st) = true ->
      gameboy (rewind_step (loop_entry st)) = (popped_twice (gameboy st)).1
      /\ should_rewind (input (rewind_step (loop_entry st))) = false
      /\ rewind_paused (pause (rewind_step (loop_entry st)))
         = negb (popped_twice (gameboy st)).2
      /\ loop_iteration others st
         = Some (after_run
                   (exec_run (GB_run (popped_twice (gameboy st)).1)
                      (rewind_step (loop_entry st))))
      /\ exists outcome,
           loop_iteration others st = Some outcome
           /\ rewind_paused (pause (iteration_state outcome))
              = negb (popped_twice (gameboy st)).2)
  /\ (forall (others : GameInstance -> GameInstance) (st : GameInstance),
        mutex_locked (driver st) = false ->
        may_run (loop_entry st) = false ->
        loop_iteration others st
        = match mutex_lock (others (mutex_unlock (loop_entry st))) with
          | Some st' => Some (finish_iteration st')
          | None => None
          end)
  /\ (forall (others : GameInstance -> GameInstance) (st : GameInstance),
        mutex_locked (driver st) = false ->
        rewind_paused (pause st) = true ->
        rewinding (input st) = true ->
        loop_iteration others st
        = match mutex_lock (others st) with
          | Some st' => Some (finish_iteration st')
          | None => None
          end)
  /\ (forall st : GameInstance,
        rewinding (input st) = false ->
        rewind_paused (pause (loop_entry st)) = false).
Proof.
  assert (Hentry : forall others st,
             mutex_locked (driver st) = false ->
             loop_iteration others st
             = if may_run (loop_entry st)
               then Some (after_run
                            (exec_run
                               (GB_run (gameboy (rewind_step (loop_entry st))))
                               (rewind_step (loop_entry st))))
               else match mutex_lock (others (mutex_unlock (loop_entry st))) with
                    | Some st' => Some (finish_iteration st')
                    | None => None
                    end).
  { intros others st Hfree. unfold loop_iteration, mutex_lock.
    rewrite Hfree. reflexivity. }
  split; [|split; [|split]].
  - intros others st Hfree Hflag Hrun.
    assert (rewind_paused (pause (loop_entry st)) = false) as Hnot.
    { unfold may_run in Hrun.
      destruct (rewind_paused (pause (loop_entry st))); [|reflexivity].
      now rewrite andb_false_r in Hrun. }
    assert (rewind_step (loop_entry st)
            = set_should_rewind false
                (if (popped_twice (gameboy st)).2
                 then set_gameboy (popped_twice (gameboy st)).1 (loop_entry st)
                 else set_rewind_paused true
                        (set_gameboy (popped_twice (gameboy st)).1
                           (loop_entry st)))) as Hstep.
    { now rewrite rewind_step_flagged. }
    assert (gameboy (rewind_step (loop_entry st))
            = (popped_twice (gameboy st)).1) as Hgb.
    { rewrite Hstep. now destruct (popped_twice (gameboy st)).2. }
    assert (rewind_paused (pause (rewind_step (loop_entry st)))
            = negb (popped_twice (gameboy st)).2) as Hpaused.
    { rewrite Hstep.
      destruct (popped_twice (gameboy st)).2; [exact Hnot | reflexivity]. }
    split; [exact Hgb|]. split.
    { rewrite Hstep. now destruct (popped_twice (gameboy st)).2. }
    split; [exact Hpaused|].
    rewrite (Hentry others st Hfree), Hrun, Hgb.
    split; [reflexivity|]. eexists. split; [reflexivity|].
    now rewrite rewind_paused_after_run, rewind_paused_exec_run.
  - intros others st Hfree Hrun. now rewrite (Hentry others st Hfree), Hrun.
  - intros others st Hfree Hpaused Hheld.
    assert (loop_entry st = set_mutex_locked true st) as Hsame.
    { unfold loop_entry. cbn [set_mutex_locked set_driver pause input].
      rewrite Hpaused, Hheld.
      destruct st as [g fr [mp bp ct rp pz] au t i l dr]; simpl in *.
      now subst rp. }
    rewrite (Hentry others st Hfree).
    unfold may_run. rewrite Hsame. cbn [set_mutex_locked set_driver pause].
    rewrite Hpaused, andb_false_r. cbn [negb andb].
    now rewrite unlock_lock.
  - intros st Hreleased. unfold loop_entry.
    cbn [set_rewind_paused set_pause pause rewind_paused set_mutex_locked
           set_driver input].
    rewrite Hreleased. apply andb_false_r.
Qed.

End RewindClaims.

Lemma rewind_in_driver_loop_witness :
  exists outcome,
    loop_iteration (fun st => st) Bench.rewinding_fresh = Some outcome
    /\ rewind_paused (pause (iteration_state outcome))
       = negb (popped_twice (gameboy Bench.rewinding_fresh)).2.
Proof.
  destruct (proj1 rewind_in_driver_loop (fun st => st) Bench.rewinding_fresh)
    as (_ & _ & _ & _ & Hout);
    [vm_compute; reflexivity .. | exact Hout].
Defined.

(** On a fresh instance with the rewind flagged and its input held, the
    second pop fails and [rewind_paused] is set, and the engine has been
    advanced all the same, in that very trip; on a paused instance the
    flagged rewind pops nothing and the flag stays set. *)
Lemma rewind_exhausted_still_runs :
  (should_rewind (input Bench.rewinding_fresh) = true
   /\ (popped_twice (gameboy Bench.rewinding_fresh)).2 = false
   /\ Bench.m_executed (gameboy Bench.rewinding_fresh) = 0%nat
   /\ match loop_iteration (fun st => st) Bench.rewinding_fresh with
      | Some (Continue st') =>
          rewind_paused (pause st') = true
          /\ rewinding (input st') = true
          /\ Bench.m_executed (gameboy st') = 1%nat
      | _ => False
      end)
  /\ (should_rewind (input Bench.rewinding_paused) = true
      /\ match loop_iteration (fun st => st) Bench.rewinding_paused with
         | Some (Continue st') =>
             should_rewind (input st') = true
             /\ gameboy st' = gameboy Bench.rewinding_paused
         | _ => False
         end).
Proof. vm_compute. repeat split. Qed.

(** ** The integer side of the volume control *)

Section VolumeLemmas.

Context `{engine : Engine} `{floats : FloatArith}.

(** [set_volume] stores the argument clamped to [0, 100] and the gain the
    curve gives for the clamped value. *)
Lemma set_volume_clamps (st : GameInstance) (new_volume : Z) :
  mutex_locked (driver st) = false ->
  exists st',
    set_volume new_volume st = Some st'
    /\ 0 <= volume (audio st') <= 100
    /\ (0 <= new_volume <= 100 -> volume (audio st') = new_volume)
    /\ (new_volume < 0 -> volume (audio st') = 0)
    /\ (100 < new_volume -> volume (audio st') = 100)
    /\ volume_scale (audio st') = volume_curve (volume (audio st')).
Proof.
  intros Hfree. unfold set_volume. rewrite critical_free by exact Hfree.
  eexists. split; [reflexivity|]. cbn -[Z.min Z.max].
  repeat split; try lia.
Qed.

(** At volume 100 without the mono downmix, and without a device, the pair
    reaches the sample buffer as the engine produced it. *)
Lemma full_volume_passes_samples (st : GameInstance) (sample : GB_sample_t) :
  audio_enabled (audio st) = true ->
  volume (audio st) = 100 ->
  force_mono (audio st) = false ->
  sdl_audio_device (audio st) = None ->
  sample_buffer (audio (on_sample sample st))
  = sample_buffer (audio st) ++ [left sample; right sample].
Proof.
  intros Henabled Hvolume Hmono Hdev. unfold on_sample.
  rewrite Henabled, Hvolume, Hmono, Hdev. reflexivity.
Qed.

(** Rotating the buffers keeps the frame buffer set shaped. *)
Lemma frames_shaped_on_vblank (st : GameInstance) :
  frames_shaped (frames st) -> frames_shaped (frames (on_vblank st)).
Proof.
  rewrite frames_on_vblank. unfold frames_shaped, rotate_buffers, buffer_at.
  cbn [set_indices pixel_buffer work_buffer previous_buffer
         previous_buffer_second].
  intros (Hfour & Hall & Hfit & Hw & Hp & Hp2).
  repeat split; try assumption; try lia.
  - apply Z.mod_pos_bound. reflexivity.
  - apply Z.mod_pos_bound. reflexivity.
Qed.

End VolumeLemmas.

(** ** The volume curve over the reals *)

Section RealCurve.

Lemma real_volume_curve_full : real_volume_curve 100 = 1%R.
Proof.
  unfold real_volume_curve.
  replace (IZR 100 / 100)%R with 1%R by lra.
  rewrite Rpower_1 by lra. lra.
Qed.

Lemma real_volume_curve_zero : real_volume_curve 0 = 0%R.
Proof.
  unfold real_volume_curve.
  replace (IZR 0 / 100)%R with 0%R by lra.
  rewrite Rpower_O by lra. lra.
Qed.

Lemma real_volume_curve_monotone (v w : Z) :
  v <= w -> (real_volume_curve v <= real_volume_curve w)%R.
Proof.
  intros Hvw. apply IZR_le in Hvw. unfold real_volume_curve.
  assert (Rpower 100 (IZR v / 100) <= Rpower 100 (IZR w / 100))%R.
  { apply Rle_Rpower; lra. }
  lra.
Qed.

End RealCurve.

(** ** Checks on concrete values *)

Example hex04_0150 : delete_command 336 = "delete $0150"%string.
Proof. reflexivity. Qed.

Example blend_00_ff :
  blend_loop 4 0 [255; 255; 0; 16] [0; 255; 0; 17] = [127; 255; 0; 16].
Proof. reflexivity. Qed.

Example fresh_frames_shaped : frames_shaped (frames Bench.fresh).
Proof.
  unfold frames_shaped. vm_compute.
  repeat split; try discriminate; repeat constructor.
Qed.

Example blending_read :
  option_map fst
    (read_pixel_buffer [9; 9; 9; 9; 9; 9; 9; 9; 9; 9] 2 Bench.blending)
  = Some (true, [127; 127; 127; 127; 135; 8; 8; 255; 9; 9]).
Proof. vm_compute. reflexivity. Qed.

Example erase_matching_duplicates :
  erase_matching 336 [(336, 3, false); (400, 2, true); (336, 7, true)]
  = [(400, 2, true)].
Proof. reflexivity. Qed.

Example fresh_rewind_pauses :
  (popped_twice (gameboy Bench.fresh)).2 = false.
Proof. reflexivity. Qed.

(** * Further properties of the driver *)

(** ** Pixels and the circulation of the buffers *)

Section PixelLayout.

Lemma land_disjoint (a b k : Z) :
  0 <= k -> a mod 2 ^ k = 0 -> 0 <= b < 2 ^ k -> Z.land a b = 0.
Proof.
  intros Hk Ha Hb. apply Z.bits_inj'. intros n Hn.
  rewrite Z.land_spec, Z.bits_0.
  destruct (Z.lt_ge_cases n k) as [Hlow|Hhigh].
  - rewrite (Z.div_mod a (2 ^ k)) by lia.
    rewrite Ha, Z.add_0_r, Z.mul_comm.
    rewrite Z.mul_pow2_bits_low by lia. reflexivity.
  - destruct (Z.eq_dec b 0) as [->|Hb0].
    + rewrite Z.bits_0. apply andb_false_r.
    + rewrite (Z.bits_above_log2 b n); [apply andb_false_r|lia|].
      apply Z.lt_le_trans with k; [|lia].
      apply Z.log2_lt_pow2; lia.
Qed.

Lemma lor_disjoint (a b k : Z) :
  0 <= k -> a mod 2 ^ k = 0 -> 0 <= b < 2 ^ k -> Z.lor a b = a + b.
Proof.
  intros Hk Ha Hb. symmetry. apply Z.add_nocarry_lor.
  now apply land_disjoint with k.
Qed.

Lemma rgb_encode_sum (r g b : Z) :
  0 <= r < 256 -> 0 <= g < 256 -> 0 <= b < 256 ->
  rgb_encode r g b = 4278190080 + r * 65536 + g * 256 + b.
Proof.
  intros Hr Hg Hb. unfold rgb_encode, u32.
  rewrite !Z.shiftl_mul_pow2 by lia.
  change (2 ^ 16) with 65536. change (2 ^ 8) with 256.
  change (2 ^ 0) with 1. rewrite Z.mul_1_r.
  rewrite (lor_disjoint 4278190080 (r * 65536) 24);
    [|lia|reflexivity|change (2 ^ 24) with 16777216; lia].
  rewrite (lor_disjoint _ (g * 256) 16);
    [|lia| |change (2 ^ 16) with 65536; lia].
  2:{ change (2 ^ 16) with 65536.
      replace (4278190080 + r * 65536) with ((65280 + r) * 65536) by lia.
      apply Z.mod_mul. lia. }
  rewrite (lor_disjoint _ b 8); [|lia| |change (2 ^ 8) with 256; lia].
  2:{ change (2 ^ 8) with 256.
      replace (4278190080 + r * 65536 + g * 256)
        with ((16711680 + r * 256 + g) * 256) by lia.
      apply Z.mod_mul. lia. }
  apply Z.mod_small. change (2 ^ 32) with 4294967296. lia.
Qed.

(** X1.  [rgb_encode] lays a colour out in memory as blue, green, red and
    an opaque alpha byte: these are the four bytes, lowest address first,
    of the pixel it returns for three byte-sized channels. *)
Theorem rgb_encode_bytes (r g b : Z) :
  0 <= r < 256 -> 0 <= g < 256 -> 0 <= b < 256 ->
  pixel_bytes (rgb_encode r g b) = [b; g; r; 255].
Proof.
  intros Hr Hg Hb. rewrite rgb_encode_sum by assumption.
  unfold pixel_bytes.
  change 255 with (Z.ones 8) at 1 2 3 4.
  rewrite !Z.land_ones by lia. rewrite !Z.shiftr_div_pow2 by lia.
  change (2 ^ 8) with 256. change (2 ^ 16) with 65536.
  change (2 ^ 24) with 16777216.
  repeat f_equal; Z.div_mod_to_equations; lia.
Qed.

End PixelLayout.

Lemma rgb_encode_bytes_witness :
  pixel_bytes (rgb_encode 18 52 86) = [86; 52; 18; 255].
Proof. apply rgb_encode_bytes; lia. Defined.
Section FrameCirculation.

Context `{engine : Engine} `{floats : FloatArith}.

(** The buffers are in step: each index follows the one behind it around
    the four buffers. *)
Lemma in_step_after_two (st : GameInstance) :
  work_buffer (frames (on_vblank (on_vblank st)))
  = (previous_buffer (frames (on_vblank (on_vblank st))) + 1) mod 4
  /\ previous_buffer (frames (on_vblank (on_vblank st)))
     = (previous_buffer_second (frames (on_vblank (on_vblank st))) + 1) mod 4.
Proof.
  rewrite !frames_on_vblank. unfold rotate_buffers, pixel_buffer_count.
  cbn [set_indices work_buffer previous_buffer previous_buffer_second].
  rewrite !size_t_mod_4. split; reflexivity.
Qed.

Lemma in_step_kept (st : GameInstance) :
  work_buffer (frames st) = (previous_buffer (frames st) + 1) mod 4 ->
  work_buffer (frames (on_vblank st))
  = (previous_buffer (frames (on_vblank st)) + 1) mod 4
  /\ previous_buffer (frames (on_vblank st))
     = (previous_buffer_second (frames (on_vblank st)) + 1) mod 4.
Proof.
  intros Hw. rewrite !frames_on_vblank.
  unfold rotate_buffers, pixel_buffer_count.
  cbn [set_indices work_buffer previous_buffer previous_buffer_second].
  rewrite size_t_mod_4. split; [reflexivity|exact Hw].
Qed.

Lemma vblanks_in_step (st : GameInstance) (k : nat) :
  work_buffer (frames (Nat.iter (S (S k)) on_vblank st))
  = (previous_buffer (frames (Nat.iter (S (S k)) on_vblank st)) + 1) mod 4
  /\ previous_buffer (frames (Nat.iter (S (S k)) on_vblank st))
     = (previous_buffer_second (frames (Nat.iter (S (S k)) on_vblank st)) + 1)
       mod 4.
Proof.
  induction k as [|k IH].
  - rewrite !Nat.iter_succ. apply in_step_after_two.
  - rewrite (Nat.iter_succ (S (S k))). apply in_step_kept. apply IH.
Qed.

(** X2.  From the second vblank on, whatever the indices were before, the
    buffer the engine draws into and the two buffers holding the last two
    completed frames are three different buffers of the four. *)
Theorem vblanks_separate_buffers (st : GameInstance) (k : nat) :
  let fb := frames (Nat.iter (S (S k)) on_vblank st) in
  0 <= work_buffer fb < 4
  /\ 0 <= previous_buffer fb < 4
  /\ work_buffer fb <> previous_buffer fb
  /\ work_buffer fb <> previous_buffer_second fb
  /\ previous_buffer fb <> previous_buffer_second fb.
Proof.
  destruct (vblanks_in_step st k) as [Hw Hp].
  generalize dependent (frames (Nat.iter (S (S k)) on_vblank st)).
  intros fb Hw Hp. cbv zeta.
  repeat split; Z.div_mod_to_equations; lia.
Qed.

Lemma buffer_at_write_other (st : GameInstance) (slot offset : nat)
    (colour i : Z) :
  slot <> Z.to_nat i ->
  buffer_at (frames (write_pixel slot offset colour st)) i
  = buffer_at (frames st) i.
Proof.
  intros Hother. unfold buffer_at, write_pixel. cbn.
  rewrite list_lookup_alter_ne by exact Hother. reflexivity.
Qed.

Lemma buffer_at_write_length (st : GameInstance) (slot offset : nat)
    (colour i : Z) :
  length (buffer_at (frames (write_pixel slot offset colour st)) i)
  = length (buffer_at (frames st) i).
Proof.
  destruct (decide (slot = Z.to_nat i)) as [->|Hother].
  - unfold buffer_at, write_pixel. cbn. rewrite list_lookup_alter_eq.
    destruct (pixel_buffer (frames st) !! Z.to_nat i) as [buffer|]; cbn;
      [apply length_insert|reflexivity].
  - now rewrite buffer_at_write_other.
Qed.

(** X3.  In [Double] and [DoubleBlend] mode a pixel the engine stores while
    it draws does not reach a reader: as long as the slot written to is not
    the one of a completed frame the mode reads, [read_pixel_buffer] copies
    out the same bytes before and after the store. *)
Theorem drawing_is_unseen (st : GameInstance) (slot offset : nat)
    (colour : Z) (destination : list Z) (destination_length : Z) :
  pixel_buffer_mode (frames st) <> PixelBufferSingle ->
  slot <> Z.to_nat (previous_buffer (frames st)) ->
  (pixel_buffer_mode (frames st) = PixelBufferDoubleBlend ->
   slot <> Z.to_nat (previous_buffer_second (frames st))) ->
  read_pixels (frames (write_pixel slot offset colour st))
    destination destination_length
  = read_pixels (frames st) destination destination_length.
Proof.
  intros Hmode Hprevious Hsecond. unfold read_pixels.
  rewrite buffer_at_write_length.
  change (pixel_buffer_mode (frames (write_pixel slot offset colour st)))
    with (pixel_buffer_mode (frames st)).
  change (previous_buffer (frames (write_pixel slot offset colour st)))
    with (previous_buffer (frames st)).
  change (previous_buffer_second (frames (write_pixel slot offset colour st)))
    with (previous_buffer_second (frames st)).
  destruct (Z.of_nat (length (buffer_at (frames st) 0)) =? destination_length);
    [|reflexivity].
  destruct (pixel_buffer_mode (frames st)) eqn:Hm.
  - now contradiction Hmode.
  - now rewrite buffer_at_write_other.
  - rewrite !buffer_at_write_other by auto. reflexivity.
Qed.

Lemma frames_shaped_write_pixel (st : GameInstance) (slot offset : nat)
    (colour : Z) :
  frames_shaped (frames st) ->
  frames_shaped (frames (write_pixel slot offset colour st)).
Proof.
  intros (Hfour & Hall & Hfit & Hw & Hp & Hp2).
  unfold frames_shaped. rewrite buffer_at_write_length.
  unfold write_pixel.
  cbn [frames set_frames set_pixel_buffer pixel_buffer work_buffer
         previous_buffer previous_buffer_second].
  split; [|split; [|repeat split; assumption || lia]].
  - now rewrite length_alter.
  - apply Forall_alter; [exact Hall|].
    intros buffer _ Hlen. now rewrite length_insert.
Qed.

Lemma frames_on_sample (sample : GB_sample_t) (st : GameInstance) :
  frames (on_sample sample st) = frames st.
Proof.
  unfold on_sample.
  destruct (audio_enabled (audio st)); [|reflexivity].
  match goal with |- context [let '(l, r) := ?p in _] => destruct p as [l r] end.
  destruct (sdl_audio_device (audio st)) as [dev|] eqn:Hdev; [|reflexivity].
  unfold reset_audio.
  repeat match goal with
         | |- context [if ?c then _ else _] => destruct c
         | |- context [match ?d with Some _ => _ | None => _ end] => destruct d
         end;
    reflexivity.
Qed.

Lemma frames_on_input_requested (st : GameInstance) :
  frames (on_input_requested st).1 = frames st.
Proof.
  rewrite on_input_requested_blocks.
  replace (frames st) with (frames (reset_audio st))
    by (rewrite reset_audio_frame; reflexivity).
  generalize (reset_audio st). clear st. intros st.
  unfold count_down, breakpoint_hit, open_session, record_and_step.
  repeat match goal with
         | |- context [if ?c then _ else _] => destruct c
         | |- context [match find_entry ?p ?l with _ => _ end] =>
             destruct (find_entry p l) as [[[[? ?] ?] ?]|]
         | |- context [execute_command_without_mutex ?c ?s] =>
             rewrite (execute_command_effect c s)
         | |- context [disassemble_without_mutex ?x ?y ?s] =>
             rewrite (disassemble_effect x y s)
         end;
    reflexivity.
Qed.

(** X4.  A run of the engine, with all the callbacks and pixel stores it
    makes, keeps the frame buffer set well formed: four buffers of one
    size and three indices inside the array. *)
Theorem exec_run_keeps_frames_shaped (run : GB_run_t GB_gameboy_s)
    (st : GameInstance) :
  frames_shaped (frames st) ->
  frames_shaped (frames (run_state (exec_run run st))).
Proof.
  revert st.
  induction run as [gb | slot offset colour k IH | gb k IH | gb sample k IH
                    | gb text k IH | gb k IH]; intros st Hshaped;
    cbn [exec_run].
  - exact Hshaped.
  - apply IH. now apply frames_shaped_write_pixel.
  - apply IH. now apply frames_shaped_on_vblank.
  - apply IH. now rewrite frames_on_sample.
  - apply IH. unfold on_log.
    now destruct (log_buffer_retained (logs (set_gameboy gb st))).
  - pose proof (frames_on_input_requested (set_gameboy gb st)) as Hin.
    destruct (on_input_requested (set_gameboy gb st)) as [st1 [command|]];
      cbn [fst] in Hin.
    + apply IH. now rewrite Hin.
    + cbn [run_state]. now rewrite Hin.
Qed.

End FrameCirculation.

Lemma drawing_is_unseen_witness :
  read_pixels (frames (write_pixel 2 1 4294967295 Bench.blending))
    (replicate 8 0) 2
  = read_pixels (frames Bench.blending) (replicate 8 0) 2.
Proof.
  apply drawing_is_unseen; [discriminate|cbn; lia|intros _; cbn; lia].
Defined.

Lemma exec_run_keeps_frames_shaped_witness :
  frames_shaped
    (frames (run_state (exec_run (GB_run (gameboy Bench.fresh)) Bench.fresh))).
Proof.
  apply exec_run_keeps_frames_shaped. exact fresh_frames_shaped.
Defined.
(** ** Rapid-fire buttons *)

Section RapidFireLemmas.

Context `{engine : Engine} `{floats : FloatArith} `{!EqDecision GB_key_t}.

Lemma input_on_vblank (st : GameInstance) :
  input (on_vblank st)
  = let elapsed :=
      (rapid_button_frames (input st) + 1)
        mod rapid_button_switch_frames (input st) in
    {| rewinding := rewinding (input st);
       should_rewind := rewinding (input st);
       rapid_buttons := rapid_buttons (input st);
       rapid_button_state :=
         if elapsed =? 0 then negb (rapid_button_state (input st))
         else rapid_button_state (input st);
       rapid_button_frames := elapsed;
       rapid_button_switch_frames := rapid_button_switch_frames (input st) |}.
Proof.
  unfold on_vblank. cbn -[rotate_buffers foldl Z.modulo].
  match goal with |- context [if ?c then _ else _] => destruct c end.
  - match goal with |- context [foldl ?f ?s ?l] =>
      destruct (key_states_only_engine l s) as [gb Hgb] end.
    cbn -[rotate_buffers foldl Z.modulo] in Hgb |- *.
    rewrite Hgb. reflexivity.
  - reflexivity.
Qed.

Lemma quotient_step (e n : Z) :
  0 <= e -> 0 < n ->
  Z.odd ((e + 1) / n)
  = if (e + 1) mod n =? 0 then negb (Z.odd (e / n)) else Z.odd (e / n).
Proof.
  intros He Hn. destruct (Z.eqb_spec ((e + 1) mod n) 0) as [Hzero|Hmore].
  - replace ((e + 1) / n) with (Z.succ (e / n))
      by (Z.div_mod_to_equations; nia).
    now rewrite Z.odd_succ, Z.negb_odd.
  - replace ((e + 1) / n) with (e / n) by (Z.div_mod_to_equations; nia).
    reflexivity.
Qed.

(** X5.  The rapid-fire phase is driven by the vblanks alone: with a
    switch period [n] and the frame counter inside the period, [k] vblanks
    leave the counter at the elapsed frames modulo [n] and have flipped the
    phase once for every full period elapsed. *)
Theorem rapid_fire_period (st : GameInstance) (k : nat) :
  0 <= rapid_button_frames (input st) < rapid_button_switch_frames (input st) ->
  let n := rapid_button_switch_frames (input st) in
  let elapsed := rapid_button_frames (input st) + Z.of_nat k in
  let st' := Nat.iter k on_vblank st in
  rapid_button_frames (input st') = elapsed mod n
  /\ rapid_button_state (input st')
     = xorb (rapid_button_state (input st)) (Z.odd (elapsed / n))
  /\ rapid_button_switch_frames (input st') = n.
Proof.
  intros Hrange. cbv zeta. induction k as [|k IH].
  - change (Nat.iter 0 on_vblank st) with st. rewrite Z.add_0_r.
    rewrite Z.mod_small, Z.div_small by exact Hrange.
    cbn. now rewrite xorb_false_r.
  - rewrite Nat.iter_succ.
    destruct IH as (Hframes & Hstate & Hswitch).
    rewrite input_on_vblank. cbv zeta.
    cbn [rapid_button_frames rapid_button_state rapid_button_switch_frames].
    rewrite Hframes, Hstate, Hswitch.
    rewrite Z.add_mod_idemp_l by lia.
    replace (rapid_button_frames (input st) + Z.of_nat (S k))
      with (rapid_button_frames (input st) + Z.of_nat k + 1) by lia.
    rewrite quotient_step by lia.
    repeat split.
    destruct ((rapid_button_frames (input st) + Z.of_nat k + 1)
                mod rapid_button_switch_frames (input st) =? 0);
      [|reflexivity].
    now rewrite negb_xorb_r.
Qed.

Lemma find_button_found (button : GB_key_t) (pressed : bool)
    (buttons : list GB_key_t) :
  (RapidFire.find_button button pressed buttons).1 = true <-> button ∈ buttons.
Proof.
  induction buttons as [|key rest IH]; cbn [RapidFire.find_button].
  - cbn. split; [discriminate|]. intros Hin. inversion Hin.
  - destruct (decide (key = button)) as [->|Hother].
    + rewrite bool_decide_eq_true_2 by reflexivity. cbn.
      split; [intros _; left|reflexivity].
    + rewrite bool_decide_eq_false_2 by exact Hother.
      destruct (RapidFire.find_button button pressed rest) as [found rest'].
      cbn in IH |- *. rewrite IH. rewrite elem_of_cons.
      split; [now right|]. intros [->|Hin]; [now contradiction Hother|exact Hin].
Qed.

Lemma find_button_pressed (button : GB_key_t) (buttons : list GB_key_t) :
  (RapidFire.find_button button true buttons).2 = buttons.
Proof.
  induction buttons as [|key rest IH]; cbn [RapidFire.find_button];
    [reflexivity|].
  destruct (bool_decide (key = button)); [reflexivity|].
  destruct (RapidFire.find_button button true rest) as [found rest'].
  cbn in IH |- *. now rewrite IH.
Qed.

Lemma find_button_released (button : GB_key_t) (buttons : list GB_key_t) :
  NoDup buttons ->
  NoDup (RapidFire.find_button button false buttons).2
  /\ forall key,
       key ∈ (RapidFire.find_button button false buttons).2
       <-> key ∈ buttons /\ key <> button.
Proof.
  induction buttons as [|key rest IH]; cbn [RapidFire.find_button].
  - intros _. cbn. split; [constructor|]. intros key.
    split; [intros Hin; inversion Hin|intros [Hin _]; inversion Hin].
  - intros Hdistinct. apply NoDup_cons in Hdistinct as [Hfresh Hrest].
    destruct (decide (key = button)) as [->|Hother].
    + rewrite bool_decide_eq_true_2 by reflexivity. cbn.
      split; [exact Hrest|]. intros key. rewrite elem_of_cons.
      split.
      * intros Hin. split; [now right|]. intros ->. exact (Hfresh Hin).
      * intros [[->|Hin] Hne]; [now contradiction Hne|exact Hin].
    + rewrite bool_decide_eq_false_2 by exact Hother.
      destruct (IH Hrest) as [Hnodup Hmembers].
      destruct (RapidFire.find_button button false rest) as [found rest'].
      cbn in Hnodup, Hmembers |- *. split.
      * apply NoDup_cons_2; [|exact Hnodup].
        intros Hin. apply Hmembers in Hin as [Hin _]. exact (Hfresh Hin).
      * intros other. rewrite !elem_of_cons, Hmembers.
        split.
        -- intros [->|[Hin Hne]]; [split; [now left|exact Hother]|].
           split; [now right|exact Hne].
        -- intros [[->|Hin] Hne]; [now left|right; now split].
Qed.

(** X6.  [set_rapid_button_state] keeps the list of rapid-fire buttons
    free of duplicates; afterwards the button is in the list exactly when
    it was pressed, every other button is in it exactly when it was before,
    and the engine is told the current phase for a press and a released key
    for a release. *)
Theorem rapid_button_registered (st : GameInstance) (button : GB_key_t)
    (pressed : bool) :
  mutex_locked (driver st) = false ->
  NoDup (rapid_buttons (input st)) ->
  exists st',
    RapidFire.set_rapid_button_state button pressed st = Some st'
    /\ NoDup (rapid_buttons (input st'))
    /\ (button ∈ rapid_buttons (input st') <-> pressed = true)
    /\ (forall key, key <> button ->
          key ∈ rapid_buttons (input st') <-> key ∈ rapid_buttons (input st))
    /\ gameboy st'
       = GB_set_key_state (gameboy st) button
           (pressed && rapid_button_state (input st)).
Proof.
  intros Hfree Hdistinct. unfold RapidFire.set_rapid_button_state.
  rewrite critical_free by exact Hfree.
  eexists. split; [reflexivity|].
  change (rapid_buttons (input (set_mutex_locked true st)))
    with (rapid_buttons (input st)).
  pose proof (find_button_found button pressed (rapid_buttons (input st)))
    as Hfound.
  destruct pressed.
  - pose proof (find_button_pressed button (rapid_buttons (input st)))
      as Hsame.
    destruct (RapidFire.find_button button true (rapid_buttons (input st)))
      as [found buttons].
    cbn in Hfound, Hsame |- *. subst buttons.
    destruct found; cbn.
    + apply proj1 in Hfound. specialize (Hfound eq_refl).
      split; [exact Hdistinct|]. split; [split; auto|].
      split; [intros key _; reflexivity|reflexivity].
    + assert (button ∉ rapid_buttons (input st)) as Hfresh.
      { intros Hin. apply Hfound in Hin. discriminate. }
      split; [|split; [|split]].
      * apply NoDup_app. repeat split; [exact Hdistinct| |apply NoDup_singleton].
        intros key Hin Hone. apply list_elem_of_singleton in Hone.
        subst key. exact (Hfresh Hin).
      * split; [reflexivity|]. intros _.
        apply elem_of_app. right. now apply list_elem_of_singleton.
      * intros key Hne. rewrite elem_of_app, list_elem_of_singleton.
        split; [intros [Hin| ->]; [exact Hin|contradiction]|now left].
      * reflexivity.
  - destruct (find_button_released button _ Hdistinct) as [Hnodup Hmembers].
    destruct (RapidFire.find_button button false (rapid_buttons (input st)))
      as [found buttons].
    cbn in Hnodup, Hmembers |- *. rewrite andb_false_r. cbn.
    split; [exact Hnodup|]. split; [|split].
    + split; [|discriminate].
      intros Hin. apply Hmembers in Hin as [_ Hne]. now contradiction Hne.
    + intros key Hne. rewrite Hmembers. split; [now intros [Hin _]|now split].
    + reflexivity.
Qed.

End RapidFireLemmas.

Lemma rapid_fire_period_witness :
  rapid_button_frames (input (Nat.iter 9 on_vblank Bench.fresh)) = 1
  /\ rapid_button_state (input (Nat.iter 9 on_vblank Bench.fresh)) = false.
Proof.
  destruct (rapid_fire_period Bench.fresh 9) as (Hframes & Hstate & _);
    [vm_compute; split; [discriminate|reflexivity]|].
  split; [exact Hframes|exact Hstate].
Defined.

Lemma rapid_button_registered_witness :
  exists st',
    RapidFire.set_rapid_button_state 3%nat true Bench.fresh = Some st'
    /\ NoDup (rapid_buttons (input st'))
    /\ (3%nat ∈ rapid_buttons (input st') <-> true = true)
    /\ (forall key, key <> 3%nat ->
          key ∈ rapid_buttons (input st')
          <-> key ∈ rapid_buttons (input Bench.fresh))
    /\ gameboy st'
       = GB_set_key_state (gameboy Bench.fresh) 3%nat
           (true && rapid_button_state (input Bench.fresh)).
Proof.
  apply (rapid_button_registered Bench.fresh 3%nat true);
    [reflexivity|constructor].
Defined.
(** ** The audio path *)

Section AudioPath.

Context `{engine : Engine} `{floats : FloatArith} `{control : !EngineControl}.

Lemma on_sample_mixed (sample : GB_sample_t) (st : GameInstance) :
  audio_enabled (audio st) = true ->
  queue_within_limit st ->
  audio (on_sample sample st)
  = audio
      (let '(l, r) := mixed_sample (audio st) sample in
       let stored := set_sample_buffer (sample_buffer (audio st) ++ [l; r]) st in
       match sdl_audio_device (audio st) with
       | Some dev =>
           let frames_queued := SDL_GetQueuedAudioSize dev / sizeof_sample in
           let buffer_size := sdl_audio_buffer_size (audio st) in
           let required :=
             if turbo_mode_enabled (driver st) then 0
             else if frames_queued <? buffer_size * 2 then buffer_size * 4
                  else buffer_size in
           if Z.of_nat (length (sample_buffer (audio st) ++ [l; r])) / 2
              >=? required
           then
             set_sample_buffer []
               (set_sdl_audio_device
                  (Some (SDL_PauseAudioDevice
                           (SDL_QueueAudio dev
                              (sample_buffer (audio st) ++ [l; r])) false))
                  st)
           else stored
       | None => stored
       end).
Proof.
  intros Henabled Hlimit. unfold on_sample. rewrite Henabled.
  change (if (volume (audio st) <? 100) || force_mono (audio st)
          then _ else _) with (mixed_sample (audio st) sample).
  destruct (mixed_sample (audio st) sample) as [l r].
  destruct (sdl_audio_device (audio st)) as [dev|] eqn:Hdev; [|reflexivity].
  specialize (Hlimit dev Hdev).
  destruct (Z.gtb_spec (SDL_GetQueuedAudioSize dev / sizeof_sample)
              (sdl_audio_buffer_size (audio st)
               * (if turbo_mode_enabled (driver st) then 4 else 8)));
    [lia|].
  cbn -[Z.div Z.mul]. 
  match goal with |- context [if ?c then _ else _] => destruct c end;
    reflexivity.
Qed.

Lemma pending_after_sample (sample : GB_sample_t) (st : GameInstance) :
  audio_enabled (audio st) = true ->
  queue_within_limit st ->
  pending_samples (audio (on_sample sample st))
  = pending_samples (audio st)
    ++ [(mixed_sample (audio st) sample).1; (mixed_sample (audio st) sample).2].
Proof.
  intros Henabled Hlimit. rewrite on_sample_mixed by assumption.
  destruct (mixed_sample (audio st) sample) as [l r]. cbn [fst snd].
  unfold pending_samples.
  destruct st as [g fr p [en buf vol sc mono [dev|] bs] t i ls dr];
    cbn -[Z.div Z.mul Z.geb]; [|reflexivity].
  match goal with |- context [if ?c then _ else _] => destruct c end; cbn.
  - now rewrite app_nil_r, app_assoc.
  - now rewrite app_assoc.
Qed.

(** X7.  While the device queue is within its limit, [on_sample] loses
    and reorders nothing: the samples held for playback, the device queue
    followed by the sample buffer, grow by exactly the two values made of
    the sample, whether or not the buffer is handed to the device. *)
Theorem on_sample_appends_pending (sample : GB_sample_t) (st : GameInstance) :
  audio_enabled (audio st) = true ->
  queue_within_limit st ->
  pending_samples (audio (on_sample sample st))
  = pending_samples (audio st)
    ++ [(mixed_sample (audio st) sample).1; (mixed_sample (audio st) sample).2].
Proof. exact (pending_after_sample sample st). Qed.

Lemma truncated_mean_between (l r : Z) :
  Z.min l r <= (l + r) ÷ 2 <= Z.max l r.
Proof.
  Z.to_euclidean_division_equations. lia.
Qed.

(** X8.  With [force_mono] set both channels of a stored sample carry the
    same value, and where no volume scaling applies that value is the
    mean of the two 16-bit inputs truncated towards zero, which lies
    between them: the downmix does not wrap. *)
Theorem mono_downmix (sample : GB_sample_t) (st : GameInstance) :
  audio_enabled (audio st) = true ->
  queue_within_limit st ->
  force_mono (audio st) = true ->
  exists m,
    pending_samples (audio (on_sample sample st))
    = pending_samples (audio st) ++ [m; m]
    /\ (volume (audio st) < 0 \/ 100 <= volume (audio st) ->
        - 2 ^ 15 <= left sample < 2 ^ 15 ->
        - 2 ^ 15 <= right sample < 2 ^ 15 ->
        m = (left sample + right sample) ÷ 2
        /\ Z.min (left sample) (right sample) <= m
           <= Z.max (left sample) (right sample)).
Proof.
  intros Henabled Hlimit Hmono.
  rewrite pending_after_sample by assumption.
  unfold mixed_sample. rewrite Hmono, orb_true_r.
  destruct ((volume (audio st) <? 100) && (volume (audio st) >=? 0))
    eqn:Hscaled.
  - eexists. split; [reflexivity|].
    intros Hvolume. apply andb_true_iff in Hscaled as [Hlow Hhigh]. lia.
  - eexists. split; [reflexivity|].
    intros _ Hleft Hright.
    pose proof (truncated_mean_between (left sample) (right sample)) as Hmean.
    assert (int16 ((left sample + right sample) ÷ 2)
            = (left sample + right sample) ÷ 2) as ->; [|split; [reflexivity|exact Hmean]].
    unfold int16.
    rewrite Z.mod_small; [lia|].
    change (2 ^ 15) with 32768 in *. change (2 ^ 16) with 65536. lia.
Qed.

Lemma audio_on_input_requested (st : GameInstance) :
  audio (on_input_requested st).1 = audio (reset_audio st).
Proof.
  rewrite on_input_requested_blocks.
  generalize (reset_audio st). clear st. intros st.
  unfold count_down, breakpoint_hit, open_session, record_and_step.
  repeat match goal with
         | |- context [if ?c then _ else _] => destruct c
         | |- context [match find_entry ?p ?l with _ => _ end] =>
             destruct (find_entry p l) as [[[[? ?] ?] ?]|]
         | |- context [execute_command_without_mutex ?c ?s] =>
             rewrite (execute_command_effect c s)
         | |- context [disassemble_without_mutex ?x ?y ?s] =>
             rewrite (disassemble_effect x y s)
         end;
    reflexivity.
Qed.

Lemma reset_audio_flushes (st : GameInstance) :
  pending_samples (audio (reset_audio st)) = []
  /\ (forall dev, sdl_audio_device (audio (reset_audio st)) = Some dev ->
        sdl_pause_on dev = true)
  /\ (sdl_audio_device (audio (reset_audio st)) = None
      <-> sdl_audio_device (audio st) = None).
Proof.
  unfold reset_audio, pending_samples.
  destruct (sdl_audio_device (audio st)) as [dev|] eqn:Hdev; cbn.
  - repeat split; try discriminate. now intros dev' [= <-].
  - rewrite Hdev. repeat split; try discriminate; auto.
Qed.

(** X9.  Every input request of the engine, whether it steps a trace or
    pauses at a breakpoint, leaves the audio path silent: nothing is held
    for playback and the device, where there is one, is paused. *)
Theorem input_request_silences_audio (st : GameInstance) :
  let st' := (on_input_requested st).1 in
  pending_samples (audio st') = []
  /\ (forall dev, sdl_audio_device (audio st') = Some dev ->
        sdl_pause_on dev = true)
  /\ (sdl_audio_device (audio st') = None
      <-> sdl_audio_device (audio st) = None).
Proof.
  cbv zeta. rewrite audio_on_input_requested. apply reset_audio_flushes.
Qed.

End AudioPath.
Section SampleDrain.

Context `{engine : Engine} `{floats : FloatArith} `{control : !EngineControl}.

Lemma deviceless_sample (sample : GB_sample_t) (st : GameInstance) :
  audio_enabled (audio st) = true ->
  sdl_audio_device (audio st) = None ->
  on_sample sample st
  = set_sample_buffer
      (sample_buffer (audio st) ++ mixed_samples (audio st) [sample]) st.
Proof.
  intros Henabled Hdev. unfold on_sample. rewrite Henabled, Hdev.
  change (if (volume (audio st) <? 100) || force_mono (audio st)
          then _ else _) with (mixed_sample (audio st) sample).
  unfold mixed_samples. cbn [flat_map]. rewrite app_nil_r.
  destruct (mixed_sample (audio st) sample) as [l r]. reflexivity.
Qed.

Lemma deviceless_samples (samples : list GB_sample_t) (st : GameInstance) :
  audio_enabled (audio st) = true ->
  sdl_audio_device (audio st) = None ->
  foldl (fun s sample => on_sample sample s) st samples
  = set_sample_buffer
      (sample_buffer (audio st) ++ mixed_samples (audio st) samples) st.
Proof.
  revert st. induction samples as [|sample samples IH];
    intros st Henabled Hdev.
  - unfold mixed_samples. cbn. rewrite app_nil_r.
    destruct st as [g fr p [en buf vol sc mn dev bs] t i ls dr]. reflexivity.
  - cbn [foldl]. rewrite deviceless_sample by assumption.
    rewrite IH by assumption.
    unfold mixed_samples. cbn [flat_map].
    cbn [audio set_sample_buffer set_audio sample_buffer].
    rewrite app_nil_r, <- app_assoc. reflexivity.
Qed.

(** X10.  Without a device the samples wait in the sample buffer:
    [get_sample_buffer] hands out what was buffered before followed by the
    stored values of every sample the engine produced since, in order, and
    leaves the buffer empty, so that an immediate second call returns
    nothing; [transfer_sample_buffer] appends the same values to the
    caller's vector. *)
Theorem sample_buffer_drains (st : GameInstance) (samples : list GB_sample_t) :
  mutex_locked (driver st) = false ->
  audio_enabled (audio st) = true ->
  sdl_audio_device (audio st) = None ->
  let produced := foldl (fun s sample => on_sample sample s) st samples in
  let drained := sample_buffer (audio st) ++ mixed_samples (audio st) samples in
  exists st',
    get_sample_buffer produced = Some (drained, st')
    /\ get_sample_buffer st' = Some ([], st')
    /\ forall destination,
         transfer_sample_buffer destination produced
         = Some (destination ++ drained, st').
Proof.
  intros Hfree Henabled Hdev. cbv zeta.
  rewrite deviceless_samples by assumption.
  generalize (sample_buffer (audio st) ++ mixed_samples (audio st) samples).
  intros drained.
  destruct st as [g fr p [en buf vol sc mn dev bs] t i ls
                    [fin vb idx tm mx]].
  cbn in Hfree. subst mx.
  eexists. split; [reflexivity|]. split; [reflexivity|].
  intros destination. reflexivity.
Qed.

Lemma pending_on_sample_disabled (samples : list GB_sample_t)
    (st : GameInstance) :
  audio_enabled (audio st) = false ->
  foldl (fun s sample => on_sample sample s) st samples = st.
Proof.
  intros Hoff. induction samples as [|sample samples IH]; [reflexivity|].
  cbn [foldl]. unfold on_sample at 2. rewrite Hoff. exact IH.
Qed.

(** X11.  [set_audio_enabled] always ends with the audio path flushed:
    the flag is the one asked for, nothing is held for playback, the
    device is paused, and the mutex is free again.  After switching audio
    off the samples of the engine are dropped, so the path stays empty. *)
Theorem set_audio_enabled_flushes (st : GameInstance) (enabled : bool)
    (sample_rate current_sample_rate : Z) :
  mutex_locked (driver st) = false ->
  exists st' rate',
    set_audio_enabled enabled sample_rate st current_sample_rate
    = Some (st', rate')
    /\ audio_enabled (audio st') = enabled
    /\ pending_samples (audio st') = []
    /\ (forall dev, sdl_audio_device (audio st') = Some dev ->
          sdl_pause_on dev = true)
    /\ mutex_locked (driver st') = false
    /\ (enabled = false ->
        forall samples,
          pending_samples
            (audio (foldl (fun s sample => on_sample sample s) st' samples))
          = []).
Proof.
  intros Hfree.
  destruct st as [g fr p [en buf vol sc mn dev bs] t i ls
                    [fin vb idx tm mx]].
  cbn in Hfree. subst mx.
  unfold set_audio_enabled, mutex_lock. cbn [driver mutex_locked].
  destruct enabled, dev as [dev|]; cbn;
    (eexists _, _; split; [reflexivity|]; cbn;
     split; [reflexivity|]; split; [reflexivity|];
     split; [intros ? [= <-] || discriminate; reflexivity|];
     split; [reflexivity|]).
  all: try discriminate.
  all: intros _ samples; rewrite pending_on_sample_disabled by reflexivity;
    reflexivity.
Qed.

End SampleDrain.

Lemma on_sample_appends_pending_witness :
  pending_samples
    (audio (on_sample {| left := 7; right := 8 |} Scenes.playing))
  = [1; 2; 5; 6; 7; 8].
Proof.
  rewrite (on_sample_appends_pending {| left := 7; right := 8 |} Scenes.playing);
    [reflexivity|reflexivity|].
  intros dev Hdev. vm_compute in Hdev. injection Hdev as <-.
  vm_compute. discriminate.
Defined.

Lemma mono_downmix_witness :
  exists m,
    pending_samples
      (audio (on_sample {| left := 10; right := -21 |} Scenes.mono))
    = pending_samples (audio Scenes.mono) ++ [m; m]
    /\ (volume (audio Scenes.mono) < 0 \/ 100 <= volume (audio Scenes.mono) ->
        - 2 ^ 15 <= 10 < 2 ^ 15 ->
        - 2 ^ 15 <= -21 < 2 ^ 15 ->
        m = (10 + -21) ÷ 2 /\ Z.min 10 (-21) <= m <= Z.max 10 (-21)).
Proof.
  apply (mono_downmix {| left := 10; right := -21 |} Scenes.mono);
    [reflexivity| |reflexivity].
  intros dev Hdev. vm_compute in Hdev. discriminate.
Defined.

Lemma sample_buffer_drains_witness :
  exists st',
    get_sample_buffer
      (foldl (fun s sample => on_sample sample s) Scenes.mono Scenes.samples)
    = Some ([5; 6; -5; -5; 32767; 32767; -16386; -16386], st').
Proof.
  destruct (sample_buffer_drains Scenes.mono Scenes.samples)
    as (st' & Hget & _); [reflexivity|reflexivity|reflexivity|].
  exists st'. exact Hget.
Defined.

Lemma set_audio_enabled_flushes_witness :
  exists st' rate',
    set_audio_enabled false 44100 Scenes.playing 48000 = Some (st', rate')
    /\ audio_enabled (audio st') = false
    /\ pending_samples (audio st') = [].
Proof.
  destruct (set_audio_enabled_flushes Scenes.playing false 44100 48000)
    as (st' & rate' & Hset & Hflag & Hpending & _); [reflexivity|].
  exists st', rate'. repeat split; assumption.
Defined.
(** ** The breakpoint registry *)

Section Registry.

Context `{engine : Engine} `{floats : FloatArith} `{control : !EngineControl}.

Lemma break_and_trace_at_entries (st : GameInstance) (address n : Z)
    (over : bool) :
  mutex_locked (driver st) = false ->
  exists st',
    break_and_trace_at address n over st = Some st'
    /\ break_and_trace_breakpoints (trace st')
       = List.filter (kept address) (break_and_trace_breakpoints (trace st))
         ++ [(address, n, over)]
    /\ mutex_locked (driver st') = false.
Proof.
  intros Hfree. unfold break_and_trace_at, remove_breakpoint.
  rewrite critical_free by exact Hfree.
  rewrite critical_free by reflexivity.
  eexists. split; [reflexivity|].
  rewrite execute_command_effect. unfold remove_breakpoint_body.
  rewrite execute_command_effect. cbn. rewrite erase_matching_filter.
  split; reflexivity.
Qed.

Lemma filter_kept_twice (address : Z) (entries : list BreakAndTraceEntry) :
  List.filter (kept address) (List.filter (kept address) entries)
  = List.filter (kept address) entries.
Proof.
  apply forallb_filter_id. apply forallb_forall.
  intros en Hin. now apply filter_In in Hin as [_ Hkept].
Qed.

Lemma find_entry_last (address n : Z) (over : bool)
    (entries : list BreakAndTraceEntry) :
  Forall (fun en => entry_address en <> address) entries ->
  find_entry address (entries ++ [(address, n, over)])
  = Some ((address, n, over), entries).
Proof.
  induction 1 as [|en rest Hen _ IH]; cbn [app find_entry].
  - change (entry_address (address, n, over)) with address.
    now rewrite Z.eqb_refl.
  - destruct (Z.eqb_spec address (entry_address en)); [congruence|].
    now rewrite IH.
Qed.

Lemma filter_kept_others (address : Z) (entries : list BreakAndTraceEntry) :
  Forall (fun en => entry_address en <> address)
    (List.filter (kept address) entries).
Proof.
  apply Forall_forall. intros en Hin. apply list_elem_of_In in Hin.
  apply filter_In in Hin as [_ Hkept].
  unfold kept in Hkept. now apply negb_true_iff, Z.eqb_neq in Hkept.
Qed.

(** X12.  Registering a break-and-trace request at an address that already
    has one replaces it: after two calls of [break_and_trace_at] for the
    same address the list holds the other entries as before and, last, one
    entry for the address with the count and mode of the second call, and
    this is the entry the input callback finds there. *)
Theorem reregistration_replaces (st : GameInstance) (address n1 n2 : Z)
    (over1 over2 : bool) :
  mutex_locked (driver st) = false ->
  exists st1 st2,
    break_and_trace_at address n1 over1 st = Some st1
    /\ break_and_trace_at address n2 over2 st1 = Some st2
    /\ break_and_trace_breakpoints (trace st2)
       = List.filter (kept address) (break_and_trace_breakpoints (trace st))
         ++ [(address, n2, over2)]
    /\ find_entry address (break_and_trace_breakpoints (trace st2))
       = Some ((address, n2, over2),
               List.filter (kept address)
                 (break_and_trace_breakpoints (trace st))).
Proof.
  intros Hfree.
  destruct (break_and_trace_at_entries st address n1 over1 Hfree)
    as (st1 & Hfirst & Hentries1 & Hfree1).
  destruct (break_and_trace_at_entries st1 address n2 over2 Hfree1)
    as (st2 & Hsecond & Hentries2 & _).
  exists st1, st2. split; [exact Hfirst|]. split; [exact Hsecond|].
  assert (break_and_trace_breakpoints (trace st2)
          = List.filter (kept address)
              (break_and_trace_breakpoints (trace st))
            ++ [(address, n2, over2)]) as Hentries.
  { rewrite Hentries2, Hentries1, List.filter_app, filter_kept_twice.
    cbn [List.filter]. unfold kept at 2.
    change (entry_address (address, n1, over1)) with address.
    rewrite Z.eqb_refl. cbn. now rewrite app_nil_r. }
  split; [exact Hentries|].
  rewrite Hentries. apply find_entry_last, filter_kept_others.
Qed.

(** X13.  [remove_all_breakpoints] empties the break-and-trace list, so
    that outside a session the next input request of the engine, wherever
    the program counter is, opens no trace: the callback marks the
    breakpoint pause and waits. *)
Theorem remove_all_breakpoints_disarms (st : GameInstance) :
  mutex_locked (driver st) = false ->
  current_break_and_trace_remaining (trace st) = 0 ->
  exists st',
    remove_all_breakpoints st = Some st'
    /\ break_and_trace_breakpoints (trace st') = []
    /\ mutex_locked (driver st') = false
    /\ forall gb,
         let request :=
           on_input_requested (set_mutex_locked true (set_gameboy gb st')) in
         request.2 = Wait
         /\ bp_paused (pause request.1) = true
         /\ break_and_trace_result (trace request.1)
            = break_and_trace_result (trace st).
Proof.
  intros Hfree Hidle.
  destruct st as [g fr p [en buf vol sc mn dev bs] [rem so res ents] i ls
                    [fin vb idx tm mx]].
  cbn in Hfree, Hidle. subst mx rem.
  unfold remove_all_breakpoints. rewrite critical_free by reflexivity.
  eexists. split; [reflexivity|].
  rewrite execute_command_effect. cbn [snd].
  split; [reflexivity|]. split; [reflexivity|].
  intros gb. cbv zeta.
  rewrite idle_request by reflexivity.
  rewrite breakpoint_hit_pauses by (destruct dev; constructor).
  destruct dev; cbn; repeat split.
Qed.

End Registry.

Lemma reregistration_replaces_witness :
  exists st1 st2,
    break_and_trace_at 336 5 true Bench.duplicated = Some st1
    /\ break_and_trace_at 336 9 false st1 = Some st2
    /\ break_and_trace_breakpoints (trace st2)
       = [(400, 2, true); (336, 9, false)]
    /\ find_entry 336 (break_and_trace_breakpoints (trace st2))
       = Some ((336, 9, false), [(400, 2, true)]).
Proof.
  apply (reregistration_replaces Bench.duplicated 336 5 9 true false).
  reflexivity.
Defined.

Lemma remove_all_breakpoints_disarms_witness :
  exists st',
    remove_all_breakpoints Bench.duplicated = Some st'
    /\ break_and_trace_breakpoints (trace st') = [].
Proof.
  destruct (remove_all_breakpoints_disarms Bench.duplicated)
    as (st' & Hremove & Hentries & _); [reflexivity|reflexivity|].
  exists st'. split; assumption.
Defined.

(** ** Pausing at a breakpoint and leaving the pause *)

Section PauseAndContinue.

Context `{engine : Engine} `{floats : FloatArith}.

Lemma plain_breakpoint_pauses (st : GameInstance) :
  current_break_and_trace_remaining (trace st) = 0 ->
  Forall (fun en => entry_address en <> get_gb_register (gameboy st) SM83_REG_PC)
    (break_and_trace_breakpoints (trace st)) ->
  on_input_requested st
  = (mutex_unlock (set_bp_paused true (reset_audio st)), Wait).
Proof.
  intros Hidle Hnone. rewrite idle_request by exact Hidle.
  apply breakpoint_hit_pauses.
  now rewrite trace_reset_audio, gameboy_reset_audio.
Qed.

Lemma continue_after_pause (st : GameInstance) (command : string) :
  bp_paused (pause st) = true ->
  mutex_locked (driver st) = false ->
  loop_finishing (driver st) = false ->
  continue_text (pause st) = None ->
  exists st2 st3,
    poll_continue st = Some (st, Wait)
    /\ unbreak command st = Some st2
    /\ is_paused_from_breakpoint st2 = false
    /\ poll_continue st2 = Some (st3, Resume command)
    /\ continue_text (pause st3) = None
    /\ mutex_locked (driver st3) = true.
Proof.
  destruct st as [g fr [mp bp ct rp pz] au t i ls [fin vb idx tm mx]].
  cbn. intros -> -> -> ->.
  eexists _, _. repeat split.
Qed.

(** X14.  The pause at a breakpoint and its end, in order: a request that
    opens no trace marks the pause and frees the mutex; a poll of the
    waiting driver thread then changes nothing; [unbreak] is accepted and
    the next poll hands exactly its command to the engine, clears the
    pending command and keeps the mutex for the rest of the run. *)
Theorem pause_continue_round_trip (st : GameInstance) (command : string) :
  current_break_and_trace_remaining (trace st) = 0 ->
  Forall (fun en => entry_address en <> get_gb_register (gameboy st) SM83_REG_PC)
    (break_and_trace_breakpoints (trace st)) ->
  loop_finishing (driver st) = false ->
  continue_text (pause st) = None ->
  exists st1 st2 st3,
    on_input_requested st = (st1, Wait)
    /\ is_paused_from_breakpoint st1 = true
    /\ mutex_locked (driver st1) = false
    /\ poll_continue st1 = Some (st1, Wait)
    /\ unbreak command st1 = Some st2
    /\ is_paused_from_breakpoint st2 = false
    /\ poll_continue st2 = Some (st3, Resume command)
    /\ continue_text (pause st3) = None
    /\ mutex_locked (driver st3) = true.
Proof.
  intros Hidle Hnone Hrunning Hpending.
  rewrite plain_breakpoint_pauses by assumption.
  pose proof (pause_reset_audio st) as Hpause.
  pose proof (driver_reset_audio st) as Hdriver.
  destruct (reset_audio st) as [g fr ps au t i ls dr].
  cbn in Hpause, Hdriver. subst ps dr.
  set (st1 := mutex_unlock (set_bp_paused true _)).
  destruct (continue_after_pause st1 command)
    as (st2 & st3 & Hpoll & Hunbreak & Hresumed & Hnext & Htext & Hheld);
    try reflexivity; try assumption.
  exists st1, st2, st3. repeat split; assumption.
Qed.

End PauseAndContinue.

Lemma pause_continue_round_trip_witness :
  exists st1 st2 st3,
    on_input_requested Scenes.stopped_plain = (st1, Wait)
    /\ is_paused_from_breakpoint st1 = true
    /\ mutex_locked (driver st1) = false
    /\ poll_continue st1 = Some (st1, Wait)
    /\ unbreak "next" st1 = Some st2
    /\ is_paused_from_breakpoint st2 = false
    /\ poll_continue st2 = Some (st3, Resume "next")
    /\ continue_text (pause st3) = None
    /\ mutex_locked (driver st3) = true.
Proof.
  apply (pause_continue_round_trip Scenes.stopped_plain "next");
    [reflexivity|constructor|reflexivity|reflexivity].
Defined.
(** ** The driver loop and the mutex *)

Section LoopDiscipline.

Context `{engine : Engine} `{floats : FloatArith}.

Lemma driver_on_vblank (st : GameInstance) :
  driver (on_vblank st) = driver (set_vblank_hit true st).
Proof.
  unfold on_vblank. cbn -[rotate_buffers foldl Z.modulo].
  match goal with |- context [if ?c then _ else _] => destruct c end.
  - match goal with |- context [foldl ?f ?s ?l] =>
      destruct (key_states_only_engine l s) as [gb Hgb] end.
    cbn -[rotate_buffers foldl Z.modulo] in Hgb |- *.
    rewrite Hgb. reflexivity.
  - reflexivity.
Qed.

Lemma driver_on_sample (sample : GB_sample_t) (st : GameInstance) :
  driver (on_sample sample st) = driver st.
Proof.
  unfold on_sample.
  destruct (audio_enabled (audio st)); [|reflexivity].
  match goal with |- context [let '(l, r) := ?p in _] => destruct p as [l r] end.
  destruct (sdl_audio_device (audio st)) as [dev|] eqn:Hdev; [|reflexivity].
  repeat match goal with
         | |- context [if ?c then _ else _] => destruct c
         end;
    try reflexivity; now rewrite ?driver_reset_audio.
Qed.

(** The input callback leaves the driver flags alone, except that it gives
    the mutex up when it starts to wait. *)
Lemma driver_on_input_requested (st : GameInstance) :
  loop_finishing (driver (on_input_requested st).1)
  = loop_finishing (driver st)
  /\ (forall command, (on_input_requested st).2 = Resume command ->
      mutex_locked (driver (on_input_requested st).1)
      = mutex_locked (driver st))
  /\ ((on_input_requested st).2 = Wait ->
      mutex_locked (driver (on_input_requested st).1) = false).
Proof.
  rewrite on_input_requested_blocks.
  rewrite <- (driver_reset_audio st).
  generalize (reset_audio st). clear st. intros st.
  unfold count_down, breakpoint_hit, open_session, record_and_step.
  repeat match goal with
         | |- context [if ?c then _ else _] => destruct c
         | |- context [match find_entry ?p ?l with _ => _ end] =>
             destruct (find_entry p l) as [[[[? ?] ?] ?]|]
         | |- context [execute_command_without_mutex ?c ?s] =>
             rewrite (execute_command_effect c s)
         | |- context [disassemble_without_mutex ?x ?y ?s] =>
             rewrite (disassemble_effect x y s)
         end;
    cbn [fst snd]; (split; [reflexivity|]);
    (split; [intros command|]); intros [=]; reflexivity.
Qed.

(** A run keeps the termination flag, and a run that is suspended has
    given the mutex up. *)
Lemma driver_exec_run (run : GB_run_t GB_gameboy_s) (st : GameInstance) :
  loop_finishing (driver (run_state (exec_run run st)))
  = loop_finishing (driver st)
  /\ match exec_run run st with
     | Finished st' => mutex_locked (driver st') = mutex_locked (driver st)
     | Suspended st' _ => mutex_locked (driver st') = false
     end.
Proof.
  revert st.
  induction run as [gb | slot offset colour k IH | gb k IH | gb sample k IH
                    | gb text k IH | gb k IH]; intros st; cbn [exec_run].
  - split; reflexivity.
  - exact (IH (write_pixel slot offset colour st)).
  - destruct (IH (gameboy (on_vblank (set_gameboy gb st)))
                (on_vblank (set_gameboy gb st))) as [Hfin Hmutex].
    rewrite driver_on_vblank in Hfin, Hmutex.
    split; [exact Hfin|exact Hmutex].
  - destruct (IH (gameboy (on_sample sample (set_gameboy gb st)))
                (on_sample sample (set_gameboy gb st))) as [Hfin Hmutex].
    rewrite driver_on_sample in Hfin, Hmutex.
    split; [exact Hfin|exact Hmutex].
  - destruct (IH (gameboy (on_log text (set_gameboy gb st)))
                (on_log text (set_gameboy gb st))) as [Hfin Hmutex].
    assert (driver (on_log text (set_gameboy gb st)) = driver st) as Hlog.
    { unfold on_log.
      now destruct (log_buffer_retained (logs (set_gameboy gb st))). }
    rewrite Hlog in Hfin, Hmutex. split; [exact Hfin|exact Hmutex].
  - pose proof (driver_on_input_requested (set_gameboy gb st)) as Hin.
    destruct (on_input_requested (set_gameboy gb st)) as [st1 [command|]];
      cbn [fst snd] in Hin.
    + destruct Hin as (Hin1 & Hin2 & _). specialize (Hin2 command eq_refl).
      destruct (IH (gameboy st1) command st1) as [Hfin Hmutex].
      rewrite Hin1 in Hfin. split; [exact Hfin|].
      destruct (exec_run (k (gameboy st1) command) st1);
        [now rewrite Hmutex|exact Hmutex].
    + destruct Hin as (Hin1 & _ & Hin3). cbn [run_state].
      split; [exact Hin1|exact (Hin3 eq_refl)].
Qed.




Lemma loop_finishing_account_frame (st : GameInstance) :
  loop_finishing (driver (account_frame st)) = loop_finishing (driver st).
Proof.
  unfold account_frame. now destruct (vblank_hit (driver st)).
Qed.

(** X16.  A request to terminate reaches a driver parked at a breakpoint:
    with [loop_finishing] set, the next poll resumes the engine with
    [continue], whatever command is pending, and discards that command;
    the trip then either leaves the loop or is parked again by a further
    input request, but never goes on to another trip. *)
Theorem termination_releases_parked_driver
    (k : GB_gameboy_s -> string -> GB_run_t GB_gameboy_s)
    (st : GameInstance) :
  mutex_locked (driver st) = false ->
  loop_finishing (driver st) = true ->
  exists st1,
    poll_continue st = Some (st1, Resume "continue"%string)
    /\ continue_text (pause st1) = None
    /\ resume_iteration k st
       = Some (after_run (exec_run (k (gameboy st1) "continue"%string) st1))
    /\ forall st', after_run (exec_run (k (gameboy st1) "continue"%string) st1)
                   <> Continue st'.
Proof.
  intros Hfree Hfin.
  assert (poll_continue st
          = Some (set_continue_text None (set_mutex_locked true st),
                  Resume "continue"%string)) as Hpoll.
  { unfold poll_continue, mutex_lock. rewrite Hfree.
    change (loop_finishing (driver (set_mutex_locked true st)))
      with (loop_finishing (driver st)).
    now rewrite Hfin. }
  exists (set_continue_text None (set_mutex_locked true st)).
  split; [exact Hpoll|]. split; [reflexivity|].
  split; [unfold resume_iteration; now rewrite Hpoll|].
  intros st'.
  match goal with |- context [exec_run ?r ?s] =>
    destruct (driver_exec_run r s) as [Hkept _];
    destruct (exec_run r s) as [st2|st2 k2]
  end; cbn [after_run]; [|discriminate].
  cbn [run_state] in Hkept. unfold finish_iteration.
  rewrite loop_finishing_account_frame, Hkept.
  change (loop_finishing
            (driver (set_continue_text None (set_mutex_locked true st))))
    with (loop_finishing (driver st)).
  rewrite Hfin. discriminate.
Qed.

End LoopDiscipline.


Lemma termination_releases_parked_driver_witness :
  exists st1,
    poll_continue Scenes.finishing = Some (st1, Resume "continue"%string)
    /\ continue_text (pause st1) = None.
Proof.
  destruct (termination_releases_parked_driver
              (fun gb _ => RunReturn gb) Scenes.finishing)
    as (st1 & Hpoll & Htext & _); [reflexivity|reflexivity|].
  exists st1. split; assumption.
Defined.
(** ** The call stack *)

Section Backtrace.

Context `{engine : Engine} `{floats : FloatArith} `{control : !EngineControl}.

Lemma characters_app (s t : string) :
  characters (s ++ t) = characters s ++ characters t.
Proof.
  unfold characters. induction s as [|c s IH]; cbn; [reflexivity|].
  now rewrite IH.
Qed.

Lemma characters_joined (lines : list string) :
  characters (joined_lines lines)
  = concat (map (fun line => characters line ++ [newline]) lines).
Proof.
  induction lines as [|line lines IH]; [reflexivity|].
  cbn [joined_lines foldr map concat]. rewrite characters_app.
  change (characters (String newline ?s)) with (newline :: characters s).
  unfold joined_lines in IH. rewrite IH. now rewrite <- app_assoc.
Qed.

(** The scan of one line: the loop walks to the line feed and stores the
    characters before it. *)
Lemma scan_line (pre cl suf : list ascii) (j n : nat)
    (bt : list (string * Z)) (l2 l1 : list ascii) :
  cl = l1 ++ l2 ->
  ~ In newline l2 ->
  (j < n)%nat ->
  backtrace_lines (length l2 + S (length suf)) (length pre + length l1)
    (length pre) j n (pre ++ cl ++ newline :: suf) bt
  = backtrace_lines (length suf) (S (length pre + length cl))
      (S (length pre + length cl)) (S j) n (pre ++ cl ++ newline :: suf)
      (alter (fun entry => (string_of_list_ascii cl, entry.2)) j bt).
Proof.
  revert l1. induction l2 as [|c l2 IH]; intros l1 Hcl Hsingle Hj.
  - rewrite app_nil_r in Hcl. subst l1.
    cbn [length Nat.add backtrace_lines].
    rewrite (proj2 (Nat.ltb_lt j n) Hj).
    assert ((pre ++ cl ++ newline :: suf) !! (length pre + length cl)%nat
            = Some newline) as ->.
    { rewrite app_assoc. apply list_lookup_middle. now rewrite length_app. }
    cbn [default from_option Datatypes.id]. rewrite Ascii.eqb_refl.
    unfold substring_at.
    replace (length pre + length cl - length pre)%nat with (length cl) by lia.
    rewrite drop_app_length, take_app_length. reflexivity.
  - cbn [length Nat.add backtrace_lines].
    rewrite (proj2 (Nat.ltb_lt j n) Hj).
    assert ((pre ++ cl ++ newline :: suf) !! (length pre + length l1)%nat
            = Some c) as ->.
    { rewrite Hcl, <- (app_assoc l1), app_assoc. cbn [app].
      apply list_lookup_middle. now rewrite length_app. }
    cbn [default from_option Datatypes.id].
    destruct (Ascii.eqb_spec c newline) as [->|Hother].
    { exfalso. apply Hsingle. now left. }
    specialize (IH (l1 ++ [c])). rewrite length_app in IH. cbn [length] in IH.
    replace (length pre + (length l1 + 1))%nat
      with (S (length pre + length l1)) in IH by lia.
    apply IH; [|intros Hin; apply Hsingle; now right|exact Hj].
    now rewrite <- app_assoc.
Qed.

(** The scan of the whole text, entry by entry. *)
Lemma scan_lines (n : nat) (lines : list string) (pre : list ascii) (j : nat)
    (bt : list (string * Z)) (i : nat) :
  Forall single_line lines ->
  backtrace_lines
    (length (concat (map (fun line => characters line ++ [newline]) lines)))
    (length pre) (length pre) j n
    (pre ++ concat (map (fun line => characters line ++ [newline]) lines)) bt
  !! i
  = if decide (j <= i /\ i < n)%nat then
      match lines !! (i - j)%nat with
      | Some line => (fun entry => (line, entry.2)) <$> bt !! i
      | None => bt !! i
      end
    else bt !! i.
Proof.
  intros Hsingle. revert pre j bt.
  induction Hsingle as [|line lines Hline _ IH]; intros pre j bt.
  - cbn. destruct (decide (j <= i /\ i < n)%nat); reflexivity.
  - cbn [map concat].
    set (body := concat (map (fun line => characters line ++ [newline]) lines))
      in *.
    rewrite <- (app_assoc (characters line)). cbn [app].
    rewrite length_app. cbn [length].
    destruct (Nat.ltb_spec j n) as [Hj|Hj].
    + pose proof (scan_line pre (characters line) body j n bt
                    (characters line) [] eq_refl Hline Hj) as Hscan.
      cbn [length] in Hscan. rewrite Nat.add_0_r in Hscan. rewrite Hscan.
      replace (pre ++ characters line ++ newline :: body)
        with ((pre ++ characters line ++ [newline]) ++ body)
        by (now rewrite <- !app_assoc).
      replace (S (length pre + length (characters line)))
        with (length (pre ++ characters line ++ [newline]))
        by (rewrite !length_app; cbn; lia).
      rewrite IH. unfold characters.
      rewrite string_of_list_ascii_of_string.
      destruct (decide (i = j)) as [->|Hother].
      * rewrite list_lookup_alter_eq.
        destruct (decide (S j <= j /\ j < n)%nat) as [[? ?]|_]; [lia|].
        destruct (decide (j <= j /\ j < n)%nat) as [_|Hno]; [|lia].
        rewrite Nat.sub_diag. cbn [lookup list_lookup].
        reflexivity.
      * rewrite list_lookup_alter_ne by auto.
        destruct (decide (S j <= i /\ i < n)%nat) as [[Hlow Hhigh]|Hno].
        -- destruct (decide (j <= i /\ i < n)%nat) as [_|Hno]; [|lia].
           replace (i - j)%nat with (S (i - S j)) by lia. reflexivity.
        -- destruct (decide (j <= i /\ i < n)%nat) as [[Hlow Hhigh]|_];
             [lia|reflexivity].
    + replace (length (characters line) + S (length body))%nat
        with (S (length (characters line) + length body)) by lia.
      cbn [backtrace_lines].
      rewrite (proj2 (Nat.ltb_ge j n) Hj).
      destruct (decide (j <= i /\ i < n)%nat) as [[Hlow Hhigh]|_];
        [lia|reflexivity].
Qed.

Lemma backtrace_lines_length (count b str_start j n : nat)
    (text : list ascii) (bt : list (string * Z)) :
  length (backtrace_lines count b str_start j n text bt) = length bt.
Proof.
  revert b str_start j bt.
  induction count as [|count IH]; intros b str_start j bt;
    cbn [backtrace_lines]; [reflexivity|].
  destruct (j <? n)%nat; [|reflexivity].
  destruct (Ascii.eqb _ newline); rewrite IH; [apply length_alter|reflexivity].
Qed.

(** The first loop of [get_backtrace], entry by entry. *)
Lemma address_loop (address : nat -> Z) (n m : nat) (bt : list (string * Z))
    (i : nat) :
  (m <= n - 1)%nat ->
  foldl (fun backtrace b =>
           alter (fun entry => (entry.1, address b)) (n - b)%nat backtrace)
    bt (seq 1 m) !! i
  = if decide (n - m <= i /\ i < n)%nat
    then (fun entry => (entry.1, address (n - i)%nat)) <$> bt !! i
    else bt !! i.
Proof.
  induction m as [|m IH]; intros Hm.
  - cbn. destruct (decide (n - 0 <= i /\ i < n)%nat) as [[? ?]|_];
      [lia|reflexivity].
  - rewrite seq_S, foldl_snoc. cbn [Nat.add].
    destruct (decide (i = n - S m)%nat) as [->|Hother].
    + rewrite list_lookup_alter_eq, IH by lia.
      destruct (decide (n - m <= n - S m /\ n - S m < n)%nat) as [[? ?]|_];
        [lia|].
      destruct (decide (n - S m <= n - S m /\ n - S m < n)%nat) as [_|Hno];
        [|lia].
      replace (n - (n - S m))%nat with (S m) by lia. reflexivity.
    + rewrite list_lookup_alter_ne by auto. rewrite IH by lia.
      destruct (decide (n - m <= i /\ i < n)%nat) as [[? ?]|Hno];
        destruct (decide (n - S m <= i /\ i < n)%nat) as [[? ?]|Hno'];
        try lia; reflexivity.
Qed.

Lemma address_loop_length (address : nat -> Z) (n : nat)
    (bs : list nat) (bt : list (string * Z)) :
  length
    (foldl (fun backtrace b =>
              alter (fun entry => (entry.1, address b)) (n - b)%nat backtrace)
       bt bs)
  = length bt.
Proof.
  revert bt. induction bs as [|b bs IH]; intros bt; cbn [foldl];
    [reflexivity|].
  rewrite IH. apply length_alter.
Qed.

(** X17.  [get_backtrace] pairs the text of the debugger with the call
    stack of the engine.  When the [backtrace] command logs one line per
    stack entry, each ended by a line feed, the result has one element per
    entry; element [i] carries line [i] of the text without its line feed
    (and the empty string if the text has fewer lines), element 0 carries
    the program counter, and element [i > 0] the address the engine keeps
    at position [bt_count - i]. *)
Theorem get_backtrace_entries (st : GameInstance) (lines : list string) :
  mutex_locked (driver st) = false ->
  log_buffer (logs st) = EmptyString ->
  logged_text
    (GB_debugger_execute_command (gameboy st) "backtrace").2
  = joined_lines lines ->
  Forall single_line lines ->
  let gb := (GB_debugger_execute_command (gameboy st) "backtrace").1 in
  exists backtrace st',
    get_backtrace st = Some (backtrace, st')
    /\ length backtrace = get_gb_backtrace_size gb
    /\ forall i, (i < get_gb_backtrace_size gb)%nat ->
         backtrace !! i
         = Some (default EmptyString (lines !! i),
                 if decide (i = 0)%nat
                 then get_gb_register gb SM83_REG_PC
                 else get_gb_backtrace_address gb
                        (get_gb_backtrace_size gb - i)).
Proof.
  intros Hfree Hlog Htext Hsingle. cbv zeta.
  destruct st as [g fr p au t ip [ret buf] [fin vb idx tm mx]].
  cbn in Hfree, Hlog, Htext |- *. subst mx buf.
  unfold get_backtrace, mutex_lock. cbn [driver mutex_locked].
  rewrite execute_command_effect.
  cbn [gameboy set_mutex_locked set_driver set_gameboy set_logs logs
         log_buffer mutex_unlock].
  unfold malloc_string.
  change (foldl (fun buffer text : string => (buffer ++ text)%string)
            EmptyString ?chunks) with (logged_text chunks).
  rewrite Htext, characters_joined.
  destruct (GB_debugger_execute_command g "backtrace") as [gb chunks].
  cbn [fst snd]. clear Htext.
  set (n := get_gb_backtrace_size gb).
  eexists _, _. split; [reflexivity|]. split.
  - rewrite backtrace_lines_length.
    destruct (0 <? n)%nat; rewrite ?length_alter, address_loop_length;
      apply length_replicate.
  - intros i Hi.
    pose proof (scan_lines n lines [] 0 
                  (if (0 <? n)%nat
                   then alter (fun entry => (entry.1, get_gb_register gb SM83_REG_PC)) 0%nat
                          (foldl (fun backtrace b =>
                                    alter (fun entry => (entry.1, get_gb_backtrace_address gb b))
                                      (n - b)%nat backtrace)
                             (replicate n (EmptyString, 0)) (seq 1 (n - 1)))
                   else foldl (fun backtrace b =>
                                 alter (fun entry => (entry.1, get_gb_backtrace_address gb b))
                                   (n - b)%nat backtrace)
                          (replicate n (EmptyString, 0)) (seq 1 (n - 1)))
                  i Hsingle) as Hscan.
    cbn [length app] in Hscan. rewrite Hscan. clear Hscan.
    destruct (decide (0 <= i /\ i < n)%nat) as [_|Hno]; [|lia].
    rewrite Nat.sub_0_r.
    destruct (Nat.ltb_spec 0 n) as [_|Hzero]; [|lia].
    assert ((alter (fun entry : string * Z =>
                      (entry.1, get_gb_register gb SM83_REG_PC)) 0%nat
               (foldl (fun backtrace b =>
                         alter (fun entry =>
                                  (entry.1, get_gb_backtrace_address gb b))
                           (n - b)%nat backtrace)
                  (replicate n (EmptyString, 0)) (seq 1 (n - 1)))) !! i
            = Some (EmptyString,
                    if decide (i = 0)%nat
                    then get_gb_register gb SM83_REG_PC
                    else get_gb_backtrace_address gb (n - i))) as ->.
    { destruct (decide (i = 0)%nat) as [->|Hpos].
      - rewrite list_lookup_alter_eq, address_loop by lia.
        destruct (decide (n - (n - 1) <= 0 /\ 0 < n)%nat) as [[? ?]|_];
          [lia|].
        rewrite lookup_replicate_2 by lia. reflexivity.
      - rewrite list_lookup_alter_ne by auto. rewrite address_loop by lia.
        destruct (decide (n - (n - 1) <= i /\ i < n)%nat) as [_|Hno];
          [|lia].
        rewrite lookup_replicate_2 by lia. reflexivity. }
    destruct (lines !! i) as [line|]; reflexivity.
Qed.

End Backtrace.
Lemma get_backtrace_entries_witness :
  exists backtrace st',
    @get_backtrace Calls.engine Bench.floats Calls.control Calls.called
    = Some (backtrace, st')
    /\ length backtrace = 2%nat
    /\ backtrace !! 0%nat = Some ("  1. main"%string, 337)
    /\ backtrace !! 1%nat = Some ("  0. start"%string, 336).
Proof.
  destruct (@get_backtrace_entries Calls.engine Bench.floats Calls.control
              Calls.called ["  1. main"%string; "  0. start"%string])
    as (backtrace & st' & Hget & Hlength & Hentries);
    [reflexivity|reflexivity|reflexivity| |].
  - repeat constructor; intros Hin; vm_compute in Hin;
      repeat (destruct Hin as [Hin|Hin]; [discriminate Hin|]);
      destruct Hin.
  - exists backtrace, st'. split; [exact Hget|]. split; [exact Hlength|].
    split; [apply (Hentries 0%nat)|apply (Hentries 1%nat)]; vm_compute; lia.
Defined.
(** ** The object viewer *)

Section ObjectViewer.

Context `{engine : Engine} `{floats : FloatArith} `{control : !EngineControl}.

Lemma oam_byte_range (oam_data : list Z) (q : nat) :
  Forall (fun byte => 0 <= byte < 256) oam_data ->
  0 <= default 0 (oam_data !! q) < 256.
Proof.
  intros Hbytes. destruct (oam_data !! q) as [byte|] eqn:Hq; cbn; [|lia].
  exact (proj1 (Forall_lookup _ _) Hbytes _ _ Hq).
Qed.

Lemma land_bit (a k : Z) :
  0 <= k -> Z.land a (2 ^ k) = if Z.testbit a k then 2 ^ k else 0.
Proof.
  intros Hk. apply Z.bits_inj'. intros n Hn.
  rewrite Z.land_spec, Z.pow2_bits_eqb by exact Hk.
  destruct (Z.eqb_spec k n) as [->|Hother].
  - rewrite andb_true_r. destruct (Z.testbit a n).
    + now rewrite Z.pow2_bits_true.
    + now rewrite Z.bits_0.
  - rewrite andb_false_r. destruct (Z.testbit a k).
    + now rewrite Z.pow2_bits_false.
    + now rewrite Z.bits_0.
Qed.

Lemma sprite_height_cases (st : GameInstance) (info : ObjectAttribute.t)
    (objects : nat) :
  In info (get_object_attribute_info_without_mutex objects st) ->
  exists sprite_height i,
    (sprite_height = 8 \/ sprite_height = 16)
    /\ sprite_height
       = (if masked (u8 (GB_read_memory (gameboy st) 65344)) 4
          then 16 else 8)
    /\ info
       = object_info (get_gb_get_cgb_mode (gameboy st)) sprite_height
           (GB_get_direct_access_oam (gameboy st)) i.
Proof.
  unfold get_object_attribute_info_without_mutex. intros Hin.
  apply in_map_iff in Hin as (i & <- & _).
  eexists _, i. split; [|split; reflexivity].
  destruct (masked _ 4); [now right|now left].
Qed.

(** X18.  The object viewer marks an object as on screen exactly when
    some pixel of it falls on the 160 by 144 screen, the object covering
    eight columns that end before its X coordinate and, from sixteen rows
    above its Y coordinate, as many rows as the sprite height the LCD
    control register selects. *)
Theorem object_on_screen_iff_visible (st : GameInstance)
    (info : ObjectAttribute.t) (objects : nat) :
  Forall (fun byte => 0 <= byte < 256)
    (GB_get_direct_access_oam (gameboy st)) ->
  In info (get_object_attribute_info_without_mutex objects st) ->
  let sprite_height :=
    if masked (u8 (GB_read_memory (gameboy st) 65344)) 4 then 16 else 8 in
  ObjectAttribute.on_screen info = true
  <-> exists column row,
        ObjectAttribute.x info - 8 <= column < ObjectAttribute.x info
        /\ ObjectAttribute.y info - 16 <= row
           < ObjectAttribute.y info - 16 + sprite_height
        /\ 0 <= column < 160
        /\ 0 <= row < 144.
Proof.
  intros Hbytes Hin. cbv zeta.
  destruct (sprite_height_cases st info objects Hin)
    as (h & i & Hh & <- & ->).
  unfold object_info.
  cbn [ObjectAttribute.on_screen ObjectAttribute.x ObjectAttribute.y].
  pose proof (oam_byte_range _ (i * 4 + 1) Hbytes) as Hx.
  pose proof (oam_byte_range _ (i * 4 + 0) Hbytes) as Hy.
  set (oam_x := default 0 (_ !! (i * 4 + 1)%nat)) in *.
  set (oam_y := default 0 (_ !! (i * 4 + 0)%nat)) in *.
  rewrite negb_true_iff, !orb_false_iff.
  rewrite Z.eqb_neq, Z.geb_leb, !Z.leb_gt.
  split.
  - intros [[[Hzero Hright] Hup] Hdown].
    exists (Z.max 0 (oam_x - 8)), (Z.max 0 (oam_y - 16)). lia.
  - intros (column & row & Hcolumn & Hrow & Hwide & Hhigh). lia.
Qed.

(** X19.  The fields the object viewer decodes stay in their ranges: the
    tileset bank is 0 or 1 and the palette below 8, both confined to 0 and
    to at most 1 outside CGB mode; with sprites sixteen rows high the tile
    number is even; and the coordinates are the bytes of the object. *)
Theorem object_fields_in_range (st : GameInstance)
    (info : ObjectAttribute.t) (objects : nat) :
  Forall (fun byte => 0 <= byte < 256)
    (GB_get_direct_access_oam (gameboy st)) ->
  In info (get_object_attribute_info_without_mutex objects st) ->
  0 <= ObjectAttribute.tileset_bank info <= 1
  /\ 0 <= ObjectAttribute.palette info < 8
  /\ (get_gb_get_cgb_mode (gameboy st) = false ->
      ObjectAttribute.tileset_bank info = 0
      /\ ObjectAttribute.palette info <= 1)
  /\ (masked (u8 (GB_read_memory (gameboy st) 65344)) 4 = true ->
      Z.even (ObjectAttribute.tile info) = true)
  /\ 0 <= ObjectAttribute.tile info < 256
  /\ 0 <= ObjectAttribute.x info < 256
  /\ 0 <= ObjectAttribute.y info < 256.
Proof.
  intros Hbytes Hin.
  destruct (sprite_height_cases st info objects Hin)
    as (h & i & Hh & Hheight & ->).
  unfold object_info.
  cbn [ObjectAttribute.tileset_bank ObjectAttribute.palette
         ObjectAttribute.tile ObjectAttribute.x ObjectAttribute.y].
  pose proof (oam_byte_range _ (i * 4 + 0) Hbytes) as Hy.
  pose proof (oam_byte_range _ (i * 4 + 1) Hbytes) as Hx.
  pose proof (oam_byte_range _ (i * 4 + 2) Hbytes) as Htile.
  set (flags := default 0 (_ !! (i * 4 + 3)%nat)).
  set (oam_tile := default 0 (_ !! (i * 4 + 2)%nat)) in *.
  assert (0 <= Z.shiftr (Z.land flags 8) 3 <= 1) as Hbank.
  { change 8 with (2 ^ 3). rewrite land_bit by lia.
    destruct (Z.testbit flags 3);
      [change (0 <= 1 <= 1)|change (0 <= 0 <= 1)]; lia. }
  assert (0 <= Z.shiftr (Z.land flags 16) 4 <= 1) as Hdmg.
  { change 16 with (2 ^ 4). rewrite land_bit by lia.
    destruct (Z.testbit flags 4);
      [change (0 <= 1 <= 1)|change (0 <= 0 <= 1)]; lia. }
  assert (0 <= Z.land flags 7 < 8) as Hcgb.
  { change 7 with (Z.ones 3). rewrite Z.land_ones by lia.
    apply Z.mod_pos_bound. reflexivity. }
  assert (0 <= Z.land oam_tile 254 < 256 /\ Z.even (Z.land oam_tile 254) = true)
    as [Hmasked Heven].
  { split.
    - assert (0 <= Z.land oam_tile 254) as Hlow
        by (apply Z.land_nonneg; right; lia).
      split; [exact Hlow|].
      destruct (Z.eq_dec (Z.land oam_tile 254) 0) as [->|Hmore]; [lia|].
      change 256 with (2 ^ 8). apply Z.log2_lt_pow2; [lia|].
      pose proof (Z.log2_land oam_tile 254) as Hlog.
      change (Z.log2 254) with 7 in Hlog. lia.
    - rewrite <- Z.negb_odd, <- Z.bit0_odd, Z.land_spec.
      now rewrite andb_false_r. }
  split; [destruct (get_gb_get_cgb_mode (gameboy st)); lia|].
  split; [destruct (get_gb_get_cgb_mode (gameboy st)); lia|].
  split; [intros ->; lia|].
  split.
  - intros Hmask. rewrite Hmask in Hheight. subst h. cbn [Z.eqb Pos.eqb].
    unfold u8. now rewrite Z.mod_small by (change (2 ^ 8) with 256; lia).
  - split; [|split; assumption].
    destruct (h =? 16); [|exact Htile].
    unfold u8. rewrite Z.mod_small by (change (2 ^ 8) with 256; lia).
    exact Hmasked.
Qed.

End ObjectViewer.

Lemma bench_oam_bytes :
  Forall (fun byte => 0 <= byte < 256)
    (GB_get_direct_access_oam (gameboy Bench.fresh)).
Proof. repeat constructor; lia. Qed.

Lemma object_on_screen_iff_visible_witness :
  ObjectAttribute.on_screen
    (object_info true 16 [16; 8; 3; 41; 0; 0; 0; 0] 0) = true
  <-> exists column row,
        8 - 8 <= column < 8 /\ 16 - 16 <= row < 16 - 16 + 16
        /\ 0 <= column < 160 /\ 0 <= row < 144.
Proof.
  apply (object_on_screen_iff_visible Bench.fresh
           (object_info true 16 [16; 8; 3; 41; 0; 0; 0; 0] 0) 2
           bench_oam_bytes).
  left. reflexivity.
Defined.

Lemma object_fields_in_range_witness :
  0 <= ObjectAttribute.tileset_bank
         (object_info true 16 [16; 8; 3; 41; 0; 0; 0; 0] 0) <= 1
  /\ 0 <= ObjectAttribute.palette
            (object_info true 16 [16; 8; 3; 41; 0; 0; 0; 0] 0) < 8.
Proof.
  destruct (object_fields_in_range Bench.fresh
              (object_info true 16 [16; 8; 3; 41; 0; 0; 0; 0] 0) 2
              bench_oam_bytes) as (Hbank & Hpalette & _);
    [left; reflexivity|].
  split; assumption.
Defined.

(** ** Commands and a fresh frame *)

Section CommandsAndFrames.

Context `{engine : Engine} `{!EngineLaws} `{floats : FloatArith}.

Lemma hex04_injective (a b : Z) :
  0 <= a < 2 ^ 16 -> 0 <= b < 2 ^ 16 -> hex04 a = hex04 b -> a = b.
Proof.
  intros Ha Hb Heq.
  pose proof (parse_hex04 a Ha) as Hparse. rewrite Heq in Hparse.
  rewrite (parse_hex04 b Hb) in Hparse. congruence.
Qed.

Lemma append_cancel (prefix s t : string) :
  (prefix ++ s)%string = (prefix ++ t)%string -> s = t.
Proof.
  induction prefix as [|c prefix IH]; cbn [String.append]; [auto|].
  intros [= Heq]. now apply IH.
Qed.

(** X20.  The debugger commands the driver composes name their address
    without ambiguity: for 16-bit addresses, equal [delete] commands, and
    equal [breakpoint] commands, come from equal addresses, and a [delete]
    command is never a [breakpoint] command. *)
Theorem commands_name_one_address (a b : Z) :
  0 <= a < 2 ^ 16 -> 0 <= b < 2 ^ 16 ->
  (delete_command a = delete_command b -> a = b)
  /\ (breakpoint_command a = breakpoint_command b -> a = b)
  /\ delete_command a <> breakpoint_command b.
Proof.
  intros Ha Hb. unfold delete_command, breakpoint_command.
  split; [|split].
  - intros Heq. apply append_cancel in Heq. now apply hex04_injective.
  - intros Heq. apply append_cancel in Heq. now apply hex04_injective.
  - cbn [String.append]. discriminate.
Qed.

Lemma bytes_of_black (n : nat) :
  bytes_of_pixels (replicate n 4278190080)
  = concat (replicate n [0; 0; 0; 255]).
Proof.
  unfold bytes_of_pixels. induction n as [|n IH]; [reflexivity|].
  cbn [replicate map concat]. now rewrite IH.
Qed.

Lemma average_with_itself (bytes : list Z) :
  zip_with (fun x y => (x + y) / 2) bytes bytes = bytes.
Proof.
  induction bytes as [|x bytes IH]; [reflexivity|].
  cbn [zip_with]. rewrite IH. f_equal.
  replace (x + x) with (x * 2) by lia. now apply Z.div_mul.
Qed.

(** X21.  After [update_pixel_buffer_size] a reader is given an opaque
    black frame of the size of the screen, in every presentation mode:
    the bytes 0, 0, 0, 255 for each pixel. *)
Theorem resized_frame_reads_black (st : GameInstance) (destination : list Z) :
  length (pixel_buffer (frames st)) = 4%nat ->
  let size := get_pixel_buffer_size_without_mutex st in
  read_pixels (frames (update_pixel_buffer_size st)) destination size
  = (true,
     concat (replicate (Z.to_nat size) [0; 0; 0; 255])
     ++ drop (4 * Z.to_nat size) destination).
Proof.
  intros Hfour. cbv zeta.
  pose proof (update_pixel_buffer_size_shaped st Hfour) as Hshaped.
  pose proof (update_pixel_buffer_size_buffers st Hfour) as Hbuffers.
  destruct (indices_after_update st) as (Hw & Hp & Hp2).
  assert (forall i, 0 <= i < 4 ->
            buffer_at (frames (update_pixel_buffer_size st)) i
            = replicate (Z.to_nat (get_pixel_buffer_size_without_mutex st))
                4278190080) as Hbuffer.
  { intros i Hi. unfold buffer_at. rewrite Hbuffers.
    rewrite lookup_replicate_2 by lia. reflexivity. }
  assert (0 <= get_pixel_buffer_size_without_mutex st) as Hsize.
  { unfold get_pixel_buffer_size_without_mutex, u32.
    apply Z.mod_pos_bound. reflexivity. }
  assert (Z.of_nat
            (length (buffer_at (frames (update_pixel_buffer_size st)) 0))
          = get_pixel_buffer_size_without_mutex st) as Hlength
    by (rewrite Hbuffer, length_replicate by lia; lia).
  rewrite <- Hlength at 1.
  rewrite (read_pixels_success _ _ Hshaped).
  rewrite (Hbuffer 0), length_replicate by lia.
  f_equal. f_equal. unfold presented_frame.
  rewrite Hw, Hp, Hp2, (Hbuffer 0) by lia.
  rewrite bytes_of_black.
  destruct (pixel_buffer_mode (frames (update_pixel_buffer_size st)));
    try reflexivity.
  apply average_with_itself.
Qed.

End CommandsAndFrames.

Lemma commands_name_one_address_witness :
  (delete_command 336 = delete_command 336 -> 336 = 336)
  /\ (breakpoint_command 336 = breakpoint_command 336 -> 336 = 336)
  /\ delete_command 336 <> breakpoint_command 336.
Proof. apply commands_name_one_address; lia. Defined.

Lemma resized_frame_reads_black_witness :
  read_pixels (frames (update_pixel_buffer_size Bench.declared))
    (replicate 10 7) 2
  = (true, [0; 0; 0; 255; 0; 0; 0; 255; 7; 7]).
Proof.
  apply (resized_frame_reads_black Bench.declared (replicate 10 7)).
  reflexivity.
Defined.
(** ** Log capture across the driver *)

Section LogCapture.

Context `{engine : Engine} `{floats : FloatArith} `{control : !EngineControl}.

Lemma logs_on_vblank (st : GameInstance) : logs (on_vblank st) = logs st.
Proof.
  unfold on_vblank. cbn -[rotate_buffers foldl Z.modulo].
  match goal with |- context [if ?c then _ else _] => destruct c end.
  - match goal with |- context [foldl ?f ?s ?l] =>
      destruct (key_states_only_engine l s) as [gb Hgb] end.
    cbn -[rotate_buffers foldl Z.modulo] in Hgb |- *.
    rewrite Hgb. reflexivity.
  - reflexivity.
Qed.

Lemma logs_on_sample (sample : GB_sample_t) (st : GameInstance) :
  logs (on_sample sample st) = logs st.
Proof.
  unfold on_sample.
  destruct (audio_enabled (audio st)); [|reflexivity].
  match goal with |- context [let '(l, r) := ?p in _] => destruct p as [l r] end.
  destruct (sdl_audio_device (audio st)) as [dev|] eqn:Hdev; [|reflexivity].
  repeat match goal with
         | |- context [if ?c then _ else _] => destruct c
         end;
    try reflexivity; now rewrite ?logs_reset_audio.
Qed.

Lemma logs_on_input_requested (st : GameInstance) :
  logs st = idle_logs -> logs (on_input_requested st).1 = idle_logs.
Proof.
  rewrite on_input_requested_blocks.
  rewrite <- (logs_reset_audio st).
  generalize (reset_audio st). clear st. intros st Hidle.
  unfold count_down, breakpoint_hit, open_session, record_and_step.
  repeat match goal with
         | |- context [if ?c then _ else _] => destruct c
         | |- context [match find_entry ?p ?l with _ => _ end] =>
             destruct (find_entry p l) as [[[[? ?] ?] ?]|]
         | |- context [execute_command_without_mutex ?c ?s] =>
             rewrite (execute_command_effect c s)
         | |- context [disassemble_without_mutex ?x ?y ?s] =>
             rewrite (disassemble_effect x y s)
         end;
    try reflexivity; exact Hidle.
Qed.

(** X22.  Text the engine logs outside a debugger command is not kept:
    starting from an idle log state, a whole run of the engine, with every
    callback it makes and every trace step taken in the input callback,
    leaves the log buffer empty and retention switched off. *)
Theorem exec_run_keeps_logs_idle (run : GB_run_t GB_gameboy_s)
    (st : GameInstance) :
  logs st = idle_logs ->
  logs (run_state (exec_run run st)) = idle_logs.
Proof.
  revert st.
  induction run as [gb | slot offset colour k IH | gb k IH | gb sample k IH
                    | gb text k IH | gb k IH]; intros st Hidle;
    cbn [exec_run].
  - exact Hidle.
  - apply IH. exact Hidle.
  - apply IH. now rewrite logs_on_vblank.
  - apply IH. now rewrite logs_on_sample.
  - apply IH. unfold on_log.
    change (logs (set_gameboy gb st)) with (logs st). rewrite Hidle.
    exact Hidle.
  - pose proof (logs_on_input_requested (set_gameboy gb st) Hidle) as Hin.
    destruct (on_input_requested (set_gameboy gb st)) as [st1 [command|]];
      cbn [fst] in Hin.
    + apply IH. exact Hin.
    + exact Hin.
Qed.

(** X23.  [execute_command] returns what the engine logged while it ran
    the command, chunk after chunk and nothing else: called with the mutex
    free and the log state idle, it hands back the concatenated chunks,
    stores the engine state the command left, and leaves the log state
    idle and the mutex free. *)
Theorem execute_command_captures (command : string) (st : GameInstance) :
  mutex_locked (driver st) = false ->
  logs st = idle_logs ->
  exists st',
    execute_command command st
    = Some (logged_text (GB_debugger_execute_command (gameboy st) command).2,
            st')
    /\ gameboy st' = (GB_debugger_execute_command (gameboy st) command).1
    /\ logs st' = idle_logs
    /\ mutex_locked (driver st') = false.
Proof.
  intros Hfree Hidle.
  destruct st as [g fr p au t ip ls [fin vb idx tm mx]].
  cbn in Hfree, Hidle. subst mx ls.
  unfold execute_command, mutex_lock, malloc_string.
  cbn [driver mutex_locked]. rewrite execute_command_effect.
  eexists. split; [reflexivity|]. repeat split.
Qed.

End LogCapture.

Lemma exec_run_keeps_logs_idle_witness :
  logs (run_state (exec_run (GB_run (gameboy Bench.fresh)) Bench.fresh))
  = idle_logs.
Proof. apply exec_run_keeps_logs_idle. reflexivity. Defined.

Lemma execute_command_captures_witness :
  exists st',
    execute_command "breakpoint $0150" Bench.fresh
    = Some ("Breakpoint set"%string, st')
    /\ gameboy st' = Bench.with_breakpoints [336] Bench.machine0
    /\ logs st' = idle_logs
    /\ mutex_locked (driver st') = false.
Proof.
  apply (execute_command_captures "breakpoint $0150" Bench.fresh);
    reflexivity.
Defined.
